(** * A shallow embedding of the P2P chat tracker and peer overlay

    The development follows the two core modules of the repository:

    - [daemon/chatserver.py]: the tracker ([ChatServer]), its registry
      [peers], its channel index [channels] and the six request handlers
      dispatched by [handle_client];
    - [peer_client.py]: the peer overlay ([PeerClient]), its connection
      table, [send_message] and [handle_incoming_message].

    Python values are modelled by the type [json] of decoded JSON documents,
    Python dictionaries by insertion-ordered association lists whose keys are
    compared with Python's [==], and the exceptions that the handlers can
    raise by an explicit error monad over the state.

    A handler of the tracker is a function from the decoded request and the
    state to a response and a state.  The clock read by [register_peer] and
    the sockets on which [send_message] fails are inputs.  A [print] is
    modelled by what it does to the control flow: writing a text that the
    console cannot encode raises.  The log of the tracker is no part of its
    state and is not kept; the lines that the peer prints are.  The
    serialisation of requests and responses, the transport and the threads
    are not modelled: connections are handled one at a time, as the lock of
    the tracker serialises them. *)

From Stdlib Require Import String Ascii NArith ZArith Bool Arith List Lia.
Import ListNotations.
Local Open Scope string_scope.
Local Open Scope list_scope.

(* ================================================================= *)
(** ** Python values *)

Module Py.

(** What [json.loads] can return.  Numbers are the integers; floating point
    numbers are outside this model.  A Python string is held as the bytes of
    its UTF-8 encoding.  [json.loads] also returns strings with a lone
    surrogate (from an escape for a code point between D800 and DFFF), which
    UTF-8 refuses to encode: such a code point is held as the three bytes
    that the encoding scheme gives it, a byte ED, a byte between A0 and BF
    and a continuation byte. *)
#[warnings="-register-all"]
Inductive json : Type :=
| JNull
| JBool (b : bool)
| JInt (n : Z)
| JStr (s : string)
| JList (items : list json)
| JObj (fields : list (string * json)).

(** [bool(v)]: [None], [False], [0], [''], [[]] and [{}] are falsy. *)
Definition truthy (v : json) : bool :=
  match v with
  | JNull => false
  | JBool b => b
  | JInt n => negb (n =? 0)%Z
  | JStr s => negb (s =? "")
  | JList items => match items with [] => false | _ :: _ => true end
  | JObj fields => match fields with [] => false | _ :: _ => true end
  end.

(** [all(vs)] *)
Definition all (vs : list json) : bool := forallb truthy vs.

(** Lists and dictionaries have no [__hash__]: using one as a dictionary key
    raises [TypeError]. *)
Definition hashable (v : json) : bool :=
  match v with
  | JList _ | JObj _ => false
  | _ => true
  end.

(** First binding of a string key in the fields of a JSON object. *)
Fixpoint assoc {V : Type} (k : string) (kvs : list (string * V)) : option V :=
  match kvs with
  | [] => None
  | (k', v) :: rest => if k' =? k then Some v else assoc k rest
  end.

(** Python's [a == b] on decoded JSON: [True == 1] and [False == 0], lists
    are compared element by element, dictionaries have the same size and
    equal values under every key of the left one. *)
Fixpoint py_eq (a b : json) {struct a} : bool :=
  match a, b with
  | JNull, JNull => true
  | JBool x, JBool y => Bool.eqb x y
  | JBool x, JInt n => (Z.b2z x =? n)%Z
  | JInt n, JBool x => (n =? Z.b2z x)%Z
  | JInt m, JInt n => (m =? n)%Z
  | JStr s, JStr t => (s =? t)
  | JList xs, JList ys =>
      (fix items_eq (xs ys : list json) {struct xs} : bool :=
         match xs, ys with
         | [], [] => true
         | x :: xs', y :: ys' => py_eq x y && items_eq xs' ys'
         | _, _ => false
         end) xs ys
  | JObj kvs, JObj kws =>
      (length kvs =? length kws)%nat &&
      (fix fields_eq (kvs : list (string * json)) {struct kvs} : bool :=
         match kvs with
         | [] => true
         | (k, v) :: rest =>
             match assoc k kws with
             | Some w => py_eq v w
             | None => false
             end && fields_eq rest
         end) kvs
  | _, _ => false
  end.

(** Hashable values are equal under [==] exactly when they have the same
    normal form: [True] and [False] are the numbers 1 and 0. *)
Inductive scalar : Type :=
| SNull
| SNum (n : Z)
| SStr (s : string).

Definition norm (v : json) : option scalar :=
  match v with
  | JNull => Some SNull
  | JBool b => Some (SNum (Z.b2z b))
  | JInt n => Some (SNum n)
  | JStr s => Some (SStr s)
  | JList _ | JObj _ => None
  end.

(** [request.get(key, default)] on the fields of a decoded object. *)
Definition get (fields : list (string * json)) (key : string) (default : json)
  : json :=
  match assoc key fields with
  | Some v => v
  | None => default
  end.

(** The exceptions that the modelled code can raise. *)
Inductive exn : Type :=
| TypeError_unhashable (v : json)   (* unhashable type: 'list' / 'dict' *)
| KeyError (k : json)
| ValueError_not_in_list (v : json) (* list.remove(x): x not in list *)
| AttributeError_get (v : json)     (* '...' object has no attribute 'get' *)
| UnicodeDecodeError
| UnicodeEncodeError (values : list json)
    (* print of a text formatted from these values: surrogates not allowed *)
| OSError.                          (* a failed socket operation *)

Inductive result (A : Type) : Type :=
| Ok (a : A)
| Raise (e : exn).
Arguments Ok {A} a.
Arguments Raise {A} e.

(** *** Printing

    [print(f"...{v}...")] formats each value with [str] and writes the text
    to the standard output, whose encoding is UTF-8.  The literal parts of
    the format strings of the code are ASCII.  [str] of a string is the
    string itself; [str] of every other value (a number, [None], a list or
    a dictionary, whose strings are written with [repr]) is a text that
    UTF-8 encodes.  So the write raises [UnicodeEncodeError] exactly when
    one of the values is a string with a lone surrogate, and then nothing
    of the line is written. *)

Definition surrogate_bytes (c d : ascii) : bool :=
  (N_of_ascii c =? 237)%N
  && (160 <=? N_of_ascii d)%N && (N_of_ascii d <=? 191)%N.

Fixpoint has_surrogate (s : string) : bool :=
  match s with
  | String c (String d _ as rest) => surrogate_bytes c d || has_surrogate rest
  | _ => false
  end.

Definition printable (v : json) : bool :=
  match v with
  | JStr s => negb (has_surrogate s)
  | _ => true
  end.

Definition print_text (values : list json) : result unit :=
  if forallb printable values then Ok tt
  else Raise (UnicodeEncodeError values).

(** The one-character string that [json.loads] returns for the escape of
    the code point D800. *)
Definition lone_surrogate : string :=
  String "237"%char (String "160"%char (String "128"%char "")).

(** *** Lists: [x in l] and [l.remove(x)] *)

Definition list_contains (x : json) (l : list json) : bool :=
  existsb (fun e => py_eq e x) l.

Fixpoint remove_first (x : json) (l : list json) : list json :=
  match l with
  | [] => []
  | e :: l' => if py_eq e x then l' else e :: remove_first x l'
  end.

Definition list_remove (x : json) (l : list json) : result (list json) :=
  if list_contains x l then Ok (remove_first x l)
  else Raise (ValueError_not_in_list x).

(** No two elements of a member list are equal. *)
Fixpoint distinct (l : list json) : Prop :=
  match l with
  | [] => True
  | x :: l' => existsb (py_eq x) l' = false /\ distinct l'
  end.

(** *** Dictionaries

    A [dict] keeps its entries in insertion order.  Assigning to a key that
    is already present replaces the value and keeps the stored key and its
    position; assigning to a new key appends an entry. *)

Section Dict.
Context {V : Type}.

Definition dict := list (json * V).

Fixpoint find (k : json) (d : dict) : option V :=
  match d with
  | [] => None
  | (k', v) :: d' => if py_eq k' k then Some v else find k d'
  end.

Fixpoint update (k : json) (v : V) (d : dict) : dict :=
  match d with
  | [] => [(k, v)]
  | (k', v') :: d' =>
      if py_eq k' k then (k', v) :: d' else (k', v') :: update k v d'
  end.

Fixpoint remove_key (k : json) (d : dict) : dict :=
  match d with
  | [] => []
  | (k', v') :: d' =>
      if py_eq k' k then d' else (k', v') :: remove_key k d'
  end.

Definition keys (d : dict) : list json := map fst d.

(** [k in d] *)
Definition contains (k : json) (d : dict) : result bool :=
  if hashable k then
    Ok (match find k d with Some _ => true | None => false end)
  else Raise (TypeError_unhashable k).

(** [d[k]] *)
Definition getitem (k : json) (d : dict) : result V :=
  if hashable k then
    match find k d with
    | Some v => Ok v
    | None => Raise (KeyError k)
    end
  else Raise (TypeError_unhashable k).

(** [d[k] = v] *)
Definition setitem (k : json) (v : V) (d : dict) : result dict :=
  if hashable k then Ok (update k v d)
  else Raise (TypeError_unhashable k).

(** [del d[k]] *)
Definition delitem (k : json) (d : dict) : result dict :=
  if hashable k then
    match find k d with
    | Some _ => Ok (remove_key k d)
    | None => Raise (KeyError k)
    end
  else Raise (TypeError_unhashable k).

(** What every Python dictionary satisfies: its keys are hashable and no
    two of them are equal. *)
Fixpoint distinct_keys (d : dict) : Prop :=
  match d with
  | [] => True
  | (k, _) :: d' =>
      hashable k = true /\ find k d' = None /\ distinct_keys d'
  end.

End Dict.
Arguments dict V : clear implicits.

(** *** Code that mutates a state and may raise

    A raised exception keeps the state reached so far: this is what an
    enclosing [except] clause observes. *)

Definition M (S A : Type) : Type := S -> result A * S.

Definition ret {S A} (a : A) : M S A := fun s => (Ok a, s).

Definition bind {S A B} (m : M S A) (f : A -> M S B) : M S B :=
  fun s =>
    match m s with
    | (Ok a, s') => f a s'
    | (Raise e, s') => (Raise e, s')
    end.

Notation "x <- m ;; k" := (bind m (fun x => k))
  (at level 61, m at next level, right associativity).
Notation "m ;; k" := (bind m (fun _ => k))
  (at level 61, right associativity).

Definition lift {S A} (r : result A) : M S A := fun s => (r, s).

Definition when {S} (b : bool) (m : M S unit) : M S unit :=
  if b then m else ret tt.

Fixpoint for_each {S A} (l : list A) (body : A -> M S unit) : M S unit :=
  match l with
  | [] => ret tt
  | x :: l' => body x ;; for_each l' body
  end.

(** [try: m  except: handler] with a bare [except]. *)
Definition try_except {S A} (m : M S A) (handler : M S A) : M S A :=
  fun s =>
    match m s with
    | (Ok a, s') => (Ok a, s')
    | (Raise _, s') => handler s'
    end.

End Py.

(* ================================================================= *)
(** ** The tracker: [daemon/chatserver.py] *)

Module Tracker.
Import Py.

(** The value stored in [self.peers] under a peer id. *)
Record PeerRecord : Type := mkPeerRecord {
  ip : json;
  port : json;
  username : json;
  timestamp : string
}.

(** The shared state of a [ChatServer]: [self.peers] and [self.channels]. *)
Record ChatServer : Type := mkChatServer {
  peers : dict PeerRecord;
  channels : dict (list json)
}.

(** [ChatServer.__init__] *)
Definition init : ChatServer := {| peers := []; channels := [] |}.

(** The [message] field of an error response. *)
Inductive message : Type :=
| Msg (text : string)
| UnknownMethod (method : json)   (* f'Unknown method: {method}' *)
| StrOf (e : exn).                (* str(e) *)

(** The response dictionaries built by the handlers. *)
Inductive response : Type :=
| RespError (msg : message)
| RespRegistered (peer_id username : json)
| RespPeers (peer_list : dict PeerRecord) (channel : json) (count : nat)
| RespJoined (channel : json)
| RespLeft (channel : json)
| RespChannels (user_channels : list json) (count : nat)
| RespLoggedOut.

(** The [status] field. *)
Definition status (r : response) : string :=
  match r with
  | RespError _ => "error"
  | _ => "success"
  end.

(** The handlers run in the monad [M ChatServer]. *)

Definition M := Py.M ChatServer.

(** Reads and writes of the two dictionaries. *)

Definition peers_contains (k : json) : M bool :=
  fun s => (contains k (peers s), s).

Definition peers_getitem (k : json) : M PeerRecord :=
  fun s => (getitem k (peers s), s).

Definition peers_setitem (k : json) (v : PeerRecord) : M unit :=
  fun s =>
    match setitem k v (peers s) with
    | Ok d => (Ok tt, {| peers := d; channels := channels s |})
    | Raise e => (Raise e, s)
    end.

Definition peers_delitem (k : json) : M unit :=
  fun s =>
    match delitem k (peers s) with
    | Ok d => (Ok tt, {| peers := d; channels := channels s |})
    | Raise e => (Raise e, s)
    end.

Definition channels_contains (k : json) : M bool :=
  fun s => (contains k (channels s), s).

Definition channels_getitem (k : json) : M (list json) :=
  fun s => (getitem k (channels s), s).

Definition channels_setitem (k : json) (v : list json) : M unit :=
  fun s =>
    match setitem k v (channels s) with
    | Ok d => (Ok tt, {| peers := peers s; channels := d |})
    | Raise e => (Raise e, s)
    end.

Definition channels_delitem (k : json) : M unit :=
  fun s =>
    match delitem k (channels s) with
    | Ok d => (Ok tt, {| peers := peers s; channels := d |})
    | Raise e => (Raise e, s)
    end.

Definition channels_keys : M (list json) :=
  fun s => (Ok (keys (channels s)), s).

Definition peers_copy : M (dict PeerRecord) :=
  fun s => (Ok (peers s), s).

(** [print(...)] of a log line formatted from [values]. *)
Definition print (values : list json) : M unit := lift (print_text values).

(** *** [register_peer] *)
Definition register_peer (now : string) (request : list (string * json))
  : M response :=
  let peer_id := get request "peer_id" JNull in
  let peer_ip := get request "ip" JNull in
  let peer_port := get request "port" JNull in
  let username := get request "username" (JStr "Anonymous") in
  if negb (all [peer_id; peer_ip; peer_port]) then
    ret (RespError (Msg "Missing required fields: peer_id, ip, port"))
  else
    peers_setitem peer_id
      {| ip := peer_ip; port := peer_port; username := username;
         timestamp := now |} ;;
    print [peer_id; username; peer_ip; peer_port] ;;
    ret (RespRegistered peer_id username).

(** The comprehension
    [{pid: self.peers[pid] for pid in peer_ids if pid in self.peers}]. *)
Fixpoint peers_of (peer_ids : list json) (acc : dict PeerRecord)
  : M (dict PeerRecord) :=
  match peer_ids with
  | [] => ret acc
  | pid :: rest =>
      present <- peers_contains pid ;;
      if present then
        record <- peers_getitem pid ;;
        acc' <- lift (setitem pid record acc) ;;
        peers_of rest acc'
      else peers_of rest acc
  end.

(** *** [get_peer_list] *)
Definition get_peer_list (request : list (string * json)) : M response :=
  let channel := get request "channel" JNull in
  peer_list <-
    (filtered <-
       (if truthy channel then channels_contains channel else ret false) ;;
     if filtered then
       peer_ids <- channels_getitem channel ;;
       peers_of peer_ids []
     else peers_copy) ;;
  ret (RespPeers peer_list channel (length peer_list)).

(** *** [join_channel] *)
Definition join_channel (request : list (string * json)) : M response :=
  let peer_id := get request "peer_id" JNull in
  let channel := get request "channel" JNull in
  if negb (all [peer_id; channel]) then
    ret (RespError (Msg "Missing required fields: peer_id, channel"))
  else
    present <- channels_contains channel ;;
    when (negb present) (channels_setitem channel []) ;;
    members <- channels_getitem channel ;;
    when (negb (list_contains peer_id members))
      (channels_setitem channel (members ++ [peer_id])) ;;
    print [peer_id; channel] ;;
    ret (RespJoined channel).

(** *** [leave_channel] *)
Definition leave_channel (request : list (string * json)) : M response :=
  let peer_id := get request "peer_id" JNull in
  let channel := get request "channel" JNull in
  if negb (all [peer_id; channel]) then
    ret (RespError (Msg "Missing required fields: peer_id, channel"))
  else
    present <- channels_contains channel ;;
    member <-
      (if present then
         members <- channels_getitem channel ;;
         ret (list_contains peer_id members)
       else ret false) ;;
    when member
      (members <- channels_getitem channel ;;
       members' <- lift (list_remove peer_id members) ;;
       channels_setitem channel members' ;;
       remaining <- channels_getitem channel ;;
       when (match remaining with [] => true | _ => false end)
         (channels_delitem channel)) ;;
    print [peer_id; channel] ;;
    ret (RespLeft channel).

(** *** [get_channels] *)
Definition get_channels (request : list (string * json)) : M response :=
  let peer_id := get request "peer_id" JNull in
  if negb (truthy peer_id) then
    ret (RespError (Msg "Missing required field: peer_id"))
  else
    fun s =>
      let user_channels :=
        map fst
          (filter (fun entry => list_contains peer_id (snd entry))
             (channels s)) in
      (Ok (RespChannels user_channels (length user_channels)), s).

(** *** [logout_peer] *)
Definition logout_peer (request : list (string * json)) : M response :=
  let peer_id := get request "peer_id" JNull in
  if negb (truthy peer_id) then
    ret (RespError (Msg "Missing required field: peer_id"))
  else
    registered <- peers_contains peer_id ;;
    when registered (peers_delitem peer_id) ;;
    names <- channels_keys ;;
    for_each names (fun channel =>
      members <- channels_getitem channel ;;
      when (list_contains peer_id members)
        (members' <- lift (list_remove peer_id members) ;;
         channels_setitem channel members') ;;
      remaining <- channels_getitem channel ;;
      when (match remaining with [] => true | _ => false end)
        (channels_delitem channel)) ;;
    print [peer_id] ;;
    ret RespLoggedOut.

(** *** [handle_client]

    What [conn.recv(4096).decode('utf-8')] followed by [json.loads] yields:
    nothing, bytes that are not UTF-8, text that is not JSON, or a decoded
    document. *)
Inductive received : Type :=
| NoData
| NotUtf8
| NotJson
| Decoded (document : json).

(** The chain of [if method == ...] of [handle_client]. *)
Definition dispatch (now : string) (request : list (string * json))
  : M response :=
  let method := get request "method" JNull in
  if py_eq method (JStr "register") then register_peer now request
  else if py_eq method (JStr "get_peers") then get_peer_list request
  else if py_eq method (JStr "join_channel") then join_channel request
  else if py_eq method (JStr "leave_channel") then leave_channel request
  else if py_eq method (JStr "get_channels") then get_channels request
  else if py_eq method (JStr "logout") then logout_peer request
  else ret (RespError (UnknownMethod method)).

(** The routing of a decoded document; [request.get] exists on dictionaries
    only.  The method is logged, with the address of the client, before it
    is looked at. *)
Definition route (now : string) (document : json) : M response :=
  match document with
  | JObj request =>
      print [get request "method" JNull] ;;
      dispatch now request
  | other => lift (Raise (AttributeError_get other))
  end.

(** One connection: the response sent back, if any, and the next state.
    [now] is the value of [datetime.now().isoformat()].  The handler of
    [except Exception] logs [str(e)], which is ASCII for every exception
    raised here, before it answers. *)
Definition handle_client (now : string) (data : received) (s : ChatServer)
  : option response * ChatServer :=
  match data with
  | NoData => (None, s)
  | NotJson => (Some (RespError (Msg "Invalid JSON")), s)
  | NotUtf8 => (Some (RespError (StrOf UnicodeDecodeError)), s)
  | Decoded document =>
      match route now document s with
      | (Ok resp, s') => (Some resp, s')
      | (Raise e, s') => (Some (RespError (StrOf e)), s')
      end
  end.

(** The states the tracker can be in: those reached from [init] by handling
    any sequence of connections. *)
Inductive reachable : ChatServer -> Prop :=
| reachable_init : reachable init
| reachable_step (s : ChatServer) (now : string) (data : received) :
    reachable s -> reachable (snd (handle_client now data s)).

(** *** What the handlers are meant to compute *)

(** The records of the members of a channel that are registered. *)
Definition members_records (peer_ids : list json) (registry : dict PeerRecord)
  : dict PeerRecord :=
  flat_map (fun pid => match find pid registry with
                       | Some record => [(pid, record)]
                       | None => []
                       end) peer_ids.

(** The channel index after [peer_id] has joined [channel]. *)
Definition join_index (peer_id channel : json) (index : dict (list json))
  : dict (list json) :=
  match find channel index with
  | Some members =>
      if list_contains peer_id members then index
      else update channel (members ++ [peer_id]) index
  | None => update channel [peer_id] index
  end.

(** The channel index after [peer_id] has left [channel]. *)
Definition leave_index (peer_id channel : json) (index : dict (list json))
  : dict (list json) :=
  match find channel index with
  | Some members =>
      if list_contains peer_id members then
        match remove_first peer_id members with
        | [] => remove_key channel index
        | members' => update channel members' index
        end
      else index
  | None => index
  end.

(** A member list without [peer_id]. *)
Definition strip (peer_id : json) (members : list json) : list json :=
  if list_contains peer_id members then remove_first peer_id members
  else members.

(** The channel index without [peer_id] and without the channels that this
    leaves empty. *)
Definition purge (peer_id : json) (index : dict (list json))
  : dict (list json) :=
  flat_map (fun entry => match strip peer_id (snd entry) with
                         | [] => []
                         | members' => [(fst entry, members')]
                         end) index.

(** What a handler returns after it has logged [values]: its response, or
    the exception of the [print]. *)
Definition logged (values : list json) (resp : response) : result response :=
  if forallb printable values then Ok resp
  else Raise (UnicodeEncodeError values).


(** What [send_to_tracker(method, data)] puts on the wire, as the tracker
    decodes it: [{'method': method, **data}]. *)
Definition request_of (method : string) (data : list (string * json))
  : received :=
  Decoded (JObj (("method", JStr method) :: data)).

(** The state after a sequence of connections, each with its clock value. *)
Definition after (trace : list (string * received)) (s : ChatServer)
  : ChatServer :=
  fold_left (fun s event => snd (handle_client (fst event) (snd event) s))
    trace s.

(** Two peers and a channel, for examples. *)
Definition alice : list (string * json) :=
  [("peer_id", JStr "a1"); ("ip", JStr "127.0.0.1"); ("port", JInt 9001);
   ("username", JStr "Alice")].

Definition bob : list (string * json) :=
  [("peer_id", JStr "b1"); ("ip", JStr "127.0.0.1"); ("port", JInt 9002);
   ("username", JStr "Bob")].

Definition in_general (peer_id : string) : list (string * json) :=
  [("peer_id", JStr peer_id); ("channel", JStr "general")].

Definition alice_registered : ChatServer :=
  after [("2024-01-01T10:00:00", request_of "register" alice)] init.

Definition alice_in_general : ChatServer :=
  after [("2024-01-01T10:00:00", request_of "register" alice);
         ("2024-01-01T10:00:02", request_of "join_channel" (in_general "a1"))]
    init.

Definition both_in_general : ChatServer :=
  after [("2024-01-01T10:00:00", request_of "register" alice);
         ("2024-01-01T10:00:01", request_of "register" bob);
         ("2024-01-01T10:00:02", request_of "join_channel" (in_general "a1"));
         ("2024-01-01T10:00:03", request_of "join_channel" (in_general "b1"))]
    init.

(** A channel joined under a peer id that is a JSON array. *)
Definition array_in_general : ChatServer :=
  after [("2024-01-01T10:00:02",
          request_of "join_channel"
            [("peer_id", JList [JInt 1]); ("channel", JStr "general")])]
    init.

(** A channel name is gone from the tracker: it is no key of the index, no
    get_channels response lists it, and get_peers answers a request for it
    as it answers for any unknown channel, with the whole registry. *)
Definition channel_absent (channel : json) (s : ChatServer) : Prop :=
  find channel (channels s) = None /\
  (forall now request user_channels count,
      fst (handle_client now (Decoded (JObj request)) s)
      = Some (RespChannels user_channels count) ->
      list_contains channel user_channels = false) /\
  (forall now request,
      get request "method" JNull = JStr "get_peers" ->
      get request "channel" JNull = channel ->
      fst (handle_client now (Decoded (JObj request)) s)
      = Some (RespPeers (peers s) channel (length (peers s)))).

(** A connection that asks to join [channel]. *)
Definition joins (channel : json) (data : received) : bool :=
  match data with
  | Decoded (JObj request) =>
      py_eq (get request "method" JNull) (JStr "join_channel")
      && py_eq (get request "channel" JNull) channel
  | _ => false
  end.

(** The request dictionary without one of its keys. *)
Definition without (key : string) (request : list (string * json))
  : list (string * json) :=
  filter (fun field => negb (fst field =? key)) request.

(** The fields that each handler passes to [all] or tests with [not], and
    the message of the error response when one of them is falsy. *)
Definition required_fields (method : string) : list string :=
  if method =? "register" then ["peer_id"; "ip"; "port"]
  else if (method =? "join_channel") || (method =? "leave_channel")
       then ["peer_id"; "channel"]
  else if (method =? "get_channels") || (method =? "logout")
       then ["peer_id"]
  else [].

Definition missing_message (method : string) : string :=
  if method =? "register" then "Missing required fields: peer_id, ip, port"
  else if (method =? "join_channel") || (method =? "leave_channel")
       then "Missing required fields: peer_id, channel"
  else "Missing required field: peer_id".

(** The representation invariant of the tracker state: both dictionaries
    have distinct hashable keys, every channel name is truthy, and every
    member list is non-empty and without repetition. *)
Definition channel_ok (entry : json * list json) : Prop :=
  truthy (fst entry) = true /\ snd entry <> [] /\ distinct (snd entry).

Definition Inv (s : ChatServer) : Prop :=
  distinct_keys (peers s) /\ distinct_keys (channels s) /\
  Forall channel_ok (channels s).

(** The typing of peer ids that the protocol assumes: a request carries a
    hashable [peer_id] (a string, in the protocol), and then so are all the
    members of all channels. *)
Definition peer_id_hashable (data : received) : Prop :=
  match data with
  | Decoded (JObj request) => hashable (get request "peer_id" JNull) = true
  | _ => True
  end.

Definition members_hashable (s : ChatServer) : Prop :=
  Forall (fun entry => Forall (fun pid => hashable pid = true) (snd entry))
    (channels s).

(** *** Proof automation *)

(** Unfolds the monad and the dictionary accessors of a handler. *)
Ltac run_monad :=
  cbv [bind ret lift when try_except print print_text logged
       peers_contains peers_getitem peers_setitem peers_delitem peers_copy
       channels_contains channels_getitem channels_setitem channels_delitem
       channels_keys contains getitem setitem delitem].

(** Splits a goal [channel_ok entry] into its three parts. *)
Ltac split_ok :=
  unfold channel_ok; cbn [fst snd] in *;
  repeat match goal with |- _ /\ _ => split end;
  auto; try discriminate.

End Tracker.

(* ================================================================= *)
(** ** The peer overlay: [peer_client.py] *)

Module Peer.
Import Py.

(** A socket object, named by its file descriptor. *)
Definition Socket := nat.

(** An entry of [self.connections]: [{'socket': sock, 'username': username}]. *)
Record Connection : Type := mkConnection {
  socket : Socket;
  remote_username : json
}.

(** The attributes of a [PeerClient] that the two functions below use. *)
Record PeerClient : Type := mkPeerClient {
  username : string;
  peer_id : string;
  connections : dict Connection;
  channels : list string;
  running : bool;
  current_channel : json          (* [None] or the last channel joined *)
}.

(** A line written by [print]. *)
Inductive printed : Type :=
| ChatLine (sender channel content : json)
    (* f"\n[{sender} @{channel}]> {content}" *)
| Prompt (username : string) (current_channel : json).
    (* f"{self.username} @{self.current_channel}> " *)

(** The client together with what it has written: the payloads accepted by
    each socket, in order, and the lines printed on the console. *)
Record World : Type := mkWorld {
  client : PeerClient;
  wire : list (Socket * json);
  console : list printed
}.

Definition set_connections (d : dict Connection) (w : World) : World :=
  {| client :=
       {| username := username (client w);
          peer_id := peer_id (client w);
          connections := d;
          channels := channels (client w);
          running := running (client w);
          current_channel := current_channel (client w) |};
     wire := wire w;
     console := console w |}.

(** [sock.send(payload)]: [fails] tells on which sockets the write raises. *)
Definition send (fails : Socket -> bool) (sock : Socket) (payload : json)
  : M World unit :=
  fun w =>
    if fails sock then (Raise OSError, w)
    else (Ok tt, {| client := client w;
                    wire := wire w ++ [(sock, payload)];
                    console := console w |}).

(** The values that the format string of a line holds. *)
Definition values_of (line : printed) : list json :=
  match line with
  | ChatLine sender channel content => [sender; channel; content]
  | Prompt username current_channel => [JStr username; current_channel]
  end.

(** [print(...)]: the line is written, or the write raises and nothing of
    the line appears. *)
Definition print (line : printed) : M World unit :=
  fun w =>
    match print_text (values_of line) with
    | Ok _ => (Ok tt, {| client := client w;
                         wire := wire w;
                         console := console w ++ [line] |})
    | Raise e => (Raise e, w)
    end.

Definition connections_items : M World (list (json * Connection)) :=
  fun w => (Ok (connections (client w)), w).

Definition connections_delitem (k : json) : M World unit :=
  fun w =>
    match delitem k (connections (client w)) with
    | Ok d => (Ok tt, set_connections d w)
    | Raise e => (Raise e, w)
    end.

(** The dictionary built on the first line of [send_message]; the payload
    put on a socket is its serialisation, which is not modelled. *)
Definition chat_message (c : PeerClient) (channel content : json) : json :=
  JObj [("type", JStr "chat"); ("channel", channel);
        ("peer_id", JStr (peer_id c)); ("username", JStr (username c));
        ("content", content)].

(** *** [send_message] *)
Definition send_message (fails : Socket -> bool) (channel content : json)
  : M World unit :=
  fun w =>
    let message := chat_message (client w) channel content in
    (items <- connections_items ;;
     for_each items (fun item =>
       try_except
         (send fails (socket (snd item)) message)
         (connections_delitem (fst item)))) w.

(** *** [handle_incoming_message] *)
Definition handle_incoming_message (peer_id : json) (message : json)
  : M World unit :=
  match message with
  | JObj fields =>
      if py_eq (get fields "type" JNull) (JStr "chat") then
        let channel := get fields "channel" (JStr "unknown") in
        let sender := get fields "username" peer_id in
        let content := get fields "content" (JStr "") in
        print (ChatLine sender channel content) ;;
        fun w =>
          when (py_eq (current_channel (client w)) channel)
            (print (Prompt (username (client w))
                           (current_channel (client w)))) w
      else ret tt
  | other => lift (Raise (AttributeError_get other))
  end.

(** The entries of a connection table whose socket accepts a write. *)
Definition delivered (fails : Socket -> bool) (table : dict Connection)
  : dict Connection :=
  filter (fun item => negb (fails (socket (snd item)))) table.

(** A client in channel "general" connected to three peers, for examples. *)
Definition alice_client : PeerClient :=
  {| username := "Alice";
     peer_id := "a1";
     connections :=
       [(JStr "b1", {| socket := 4; remote_username := JStr "Bob" |});
        (JStr "c1", {| socket := 5; remote_username := JStr "Carol" |});
        (JStr "d1", {| socket := 6; remote_username := JStr "Dave" |})];
     channels := ["general"];
     running := true;
     current_channel := JStr "general" |}.

Definition alice_world : World :=
  {| client := alice_client; wire := []; console := [] |}.

End Peer.

(* ================================================================= *)
(** ** Clients of the tracker: [send_to_tracker] *)

Module Client.
Import Py Tracker.

(** The request dictionary built by [send_to_tracker(method, data)], in
    [peer_client.py] and in [apps/chatapp.py] alike:
    [request = {'method': method, **data}].  The key ['method'] comes first;
    a ['method'] key of [data] replaces its value; [**data] raises
    [TypeError] when [data] is not a dictionary. *)
Definition tracker_request (method : string) (data : json) : option json :=
  match data with
  | JObj fields =>
      Some (JObj (("method", get fields "method" (JStr method))
                    :: without "method" fields))
  | _ => None
  end.

(** No falsy value is stored as a peer id: neither as a key of the registry
    nor as a member of a channel. *)
Definition ids_truthy (s : ChatServer) : Prop :=
  Forall (fun entry => truthy (fst entry) = true) (peers s) /\
  Forall (fun entry => Forall (fun pid => truthy pid = true) (snd entry))
    (channels s).

(** The list returned by get_channels for a peer id. *)
Definition channels_of (peer_id : json) (s : ChatServer) : list json :=
  map fst (filter (fun entry => list_contains peer_id (snd entry))
             (channels s)).

(** Requests of two peers, for examples. *)
Definition leave_general (peer_id : string) : list (string * json) :=
  ("method", JStr "leave_channel") :: in_general peer_id.

Definition join_general (peer_id : string) : list (string * json) :=
  ("method", JStr "join_channel") :: in_general peer_id.

Definition logout_of (peer_id : string) : list (string * json) :=
  [("method", JStr "logout"); ("peer_id", JStr peer_id)].

End Client.

(* ================================================================= *)
(** ** The rest of the peer overlay: listeners, handshakes, discovery *)

Module Overlay.
Import Py Peer.

(** A status line written by [print] in the connection code. *)
Inductive notice : Type :=
| Connected (username peer_id : json)
    (* f"[P2P] Connected to {username} ({peer_id})" *)
| ConnectFailed (peer_id : json)
    (* f"[P2P] Failed to connect to {peer_id}: {e}" *)
| Joined (channel_name : string)
    (* f"[Peer] Joined channel: {channel_name}" *)
| JoinFailed (message : json).
    (* f"[Peer] Failed to join channel: {response.get('message')}" *)

(** A peer process: the client with what it has written, the sockets it has
    closed, the listener threads it has started, each with the peer id
    and the socket passed to [listen_to_peer], and the status lines it has
    printed.  The chat lines and prompts are in the console of the world;
    how the two kinds of lines interleave on the terminal is not kept. *)
Record Node : Type := mkNode {
  world : World;
  closed : list Socket;
  listeners : list (json * Socket);
  notices : list notice
}.

(** Code on the client alone, run inside a node. *)
Definition in_world {A} (m : M World A) : M Node A :=
  fun n =>
    match m (world n) with
    | (r, w) => (r, {| world := w; closed := closed n;
                       listeners := listeners n; notices := notices n |})
    end.

(** [sock.close()] *)
Definition close (sock : Socket) : M Node unit :=
  fun n => (Ok tt, {| world := world n; closed := closed n ++ [sock];
                      listeners := listeners n; notices := notices n |}).

(** [threading.Thread(target=self.listen_to_peer, args=(peer_id, sock))]
    followed by [thread.start()]. *)
Definition start_listener (peer_id : json) (sock : Socket) : M Node unit :=
  fun n => (Ok tt, {| world := world n; closed := closed n;
                      listeners := listeners n ++ [(peer_id, sock)];
                      notices := notices n |}).

(** The node after a status line has been printed. *)
Definition said (line : notice) (n : Node) : Node :=
  {| world := world n; closed := closed n; listeners := listeners n;
     notices := notices n ++ [line] |}.

(** The values that the format string of a status line holds.  The text of
    the exception in "Failed to connect" is ASCII. *)
Definition notice_values (line : notice) : list json :=
  match line with
  | Connected username peer_id => [username; peer_id]
  | ConnectFailed peer_id => [peer_id]
  | Joined channel_name => [JStr channel_name]
  | JoinFailed message => [message]
  end.

(** [print(...)] of a status line: it is written, or the write raises. *)
Definition notify (line : notice) : M Node unit :=
  fun n =>
    match print_text (notice_values line) with
    | Ok _ => (Ok tt, said line n)
    | Raise e => (Raise e, n)
    end.

Definition connections_contains (k : json) : M World bool :=
  fun w => (contains k (connections (client w)), w).

Definition connections_setitem (k : json) (c : Connection) : M World unit :=
  fun w =>
    match setitem k c (connections (client w)) with
    | Ok d => (Ok tt, set_connections d w)
    | Raise e => (Raise e, w)
    end.

(** What one [sock.recv(4096).decode('utf-8')] followed by [json.loads]
    gives: the receive raises, or it yields one of the four outcomes of
    [Tracker.received]. *)
Inductive read : Type :=
| ReadFails
| Read (data : Tracker.received).

(** How the [while] loop of [listen_to_peer] stands when the inputs are
    used up: blocked in [recv], or left. *)
Inductive loop_state : Type :=
| Waiting
| Left.

(** The [while self.running] loop of [listen_to_peer], on the successive
    reads of its socket.  Undecodable JSON is skipped by [continue]; an
    empty read leaves the loop by [break]; the other failures raise. *)
Fixpoint listen_loop (peer_id : json) (inputs : list read)
  : M World loop_state :=
  fun w =>
    if negb (running (client w)) then (Ok Left, w)
    else
      match inputs with
      | [] => (Ok Waiting, w)
      | ReadFails :: _ => (Raise OSError, w)
      | Read Tracker.NoData :: _ => (Ok Left, w)
      | Read Tracker.NotUtf8 :: _ => (Raise UnicodeDecodeError, w)
      | Read Tracker.NotJson :: rest => listen_loop peer_id rest w
      | Read (Tracker.Decoded message) :: rest =>
          (handle_incoming_message peer_id message ;;
           listen_loop peer_id rest) w
      end.

(** *** [listen_to_peer]

    [except: pass] absorbs whatever the loop raises; the [finally] block
    then removes the entry under [peer_id], if there is one, and closes the
    socket.  While the loop waits for input nothing of this has run. *)
Definition listen_to_peer (peer_id : json) (sock : Socket)
    (inputs : list read) : M Node loop_state :=
  fun n =>
    match in_world (listen_loop peer_id inputs) n with
    | (Ok Waiting, n') => (Ok Waiting, n')
    | (_, n') =>
        (present <- in_world (connections_contains peer_id) ;;
         when present (in_world (connections_delitem peer_id)) ;;
         close sock ;;
         ret Left) n'
    end.

(** *** [handle_incoming_connection]

    Everything that raises inside the [try] (the receive, the decoding,
    [json.loads], [handshake.get] on a value that is not a dictionary, an
    unhashable peer id) ends in [except: conn.close()]. *)
Definition handle_incoming_connection (conn : Socket) (input : read)
  : M Node unit :=
  match input with
  | Read (Tracker.Decoded (JObj handshake)) =>
      if py_eq (get handshake "type" JNull) (JStr "handshake") then
        let peer_id := get handshake "peer_id" JNull in
        let username := get handshake "username" (JStr "Unknown") in
        try_except
          (in_world (connections_setitem peer_id
                       {| socket := conn; remote_username := username |}) ;;
           start_listener peer_id conn)
          (close conn)
      else ret tt
  | _ => close conn
  end.

(** The payload sent first on an outbound connection. *)
Definition handshake_message (c : PeerClient) : json :=
  JObj [("type", JStr "handshake"); ("peer_id", JStr (peer_id c));
        ("username", JStr (username c))].

(** *** [connect_to_peer]

    [net ip port] is the socket that [sock.connect((ip, port))] gives, if
    it succeeds; [fails] tells on which sockets a write raises.
    [except Exception] absorbs every failure of the [try] block, the one of
    its last [print] too, and prints a line; when that [print] raises, the
    exception leaves the function. *)
Definition connect_to_peer (net : json -> json -> option Socket)
    (fails : Socket -> bool) (peer_id ip port username : json)
  : M Node unit :=
  match net ip port with
  | None => notify (ConnectFailed peer_id)
  | Some sock =>
      try_except
        (in_world
           (fun w => send fails sock (handshake_message (client w)) w) ;;
         in_world (connections_setitem peer_id
                     {| socket := sock; remote_username := username |}) ;;
         start_listener peer_id sock ;;
         notify (Connected username peer_id))
        (notify (ConnectFailed peer_id))
  end.

(** How a function without [try] ends: normally, or by an exception that
    goes up to its caller. *)
Inductive outcome : Type :=
| Completed
| Raised (e : exn)
| Raised_TypeError_subscript (v : json)    (* peer_info['ip'] on a non-dict *)
| Raised_AttributeError_items (v : json).  (* peers.items() on a non-dict *)

(** The loop of [connect_to_channel_peers] over [peers.items()]. *)
Fixpoint connect_each (net : json -> json -> option Socket)
    (fails : Socket -> bool) (items : list (string * json)) (n : Node)
  : outcome * Node :=
  match items with
  | [] => (Completed, n)
  | (pid, peer_info) :: rest =>
      let table := connections (client (world n)) in
      if negb (pid =? peer_id (client (world n)))
         && match find (JStr pid) table with Some _ => false | None => true end
      then
        match peer_info with
        | JObj fields =>
            match assoc "ip" fields with
            | None => (Raised (KeyError (JStr "ip")), n)
            | Some ip =>
                match assoc "port" fields with
                | None => (Raised (KeyError (JStr "port")), n)
                | Some port =>
                    match connect_to_peer net fails (JStr pid) ip port
                            (get fields "username" (JStr "Unknown")) n with
                    | (Ok _, n') => connect_each net fails rest n'
                    | (Raise e, n') => (Raised e, n')
                    end
                end
            end
        | other => (Raised_TypeError_subscript other, n)
        end
      else connect_each net fails rest n
  end.

(** *** [connect_to_channel_peers]

    [response] is what [send_to_tracker('get_peers', ...)] returned: the
    decoded answer of the tracker, or the error dictionary built when the
    tracker could not be reached. *)
Definition connect_to_channel_peers (net : json -> json -> option Socket)
    (fails : Socket -> bool) (response : json) (n : Node) : outcome * Node :=
  match response with
  | JObj fields =>
      if py_eq (get fields "status" JNull) (JStr "success") then
        match get fields "peers" (JObj []) with
        | JObj items => connect_each net fails items n
        | other => (Raised_AttributeError_items other, n)
        end
      else (Completed, n)
  | other => (Raised (AttributeError_get other), n)
  end.

(** [self.channels.append(channel_name)] unless present, then
    [self.current_channel = channel_name]. *)
Definition enter_channel (channel_name : string) (n : Node) : Node :=
  let w := world n in
  let c := client w in
  {| world :=
       {| client :=
            {| username := username c;
               peer_id := peer_id c;
               connections := connections c;
               channels :=
                 if existsb (String.eqb channel_name) (channels c)
                 then channels c
                 else channels c ++ [channel_name];
               running := running c;
               current_channel := JStr channel_name |};
          wire := wire w;
          console := console w |};
     closed := closed n;
     listeners := listeners n;
     notices := notices n |}.

(** *** [PeerClient.join_channel]

    [joined] and [discovered] are what the two calls of [send_to_tracker]
    returned, for join_channel and for get_peers.  Neither [print] is inside
    a [try]. *)
Definition join_channel (net : json -> json -> option Socket)
    (fails : Socket -> bool) (channel_name : string)
    (joined discovered : json) (n : Node) : outcome * Node :=
  match joined with
  | JObj fields =>
      if py_eq (get fields "status" JNull) (JStr "success") then
        match notify (Joined channel_name) (enter_channel channel_name n) with
        | (Ok _, n') => connect_to_channel_peers net fails discovered n'
        | (Raise e, n') => (Raised e, n')
        end
      else
        match notify (JoinFailed (get fields "message" JNull)) n with
        | (Ok _, n') => (Completed, n')
        | (Raise e, n') => (Raised e, n')
        end
  | other => (Raised (AttributeError_get other), n)
  end.

(** *** [stop]

    The flag is cleared, the tracker is told on a best-effort basis, and
    every socket of the table is closed; the table itself is left as it
    is. *)
Definition stop (n : Node) : Node :=
  let w := world n in
  let c := client w in
  {| world :=
       {| client :=
            {| username := username c;
               peer_id := peer_id c;
               connections := connections c;
               channels := channels c;
               running := false;
               current_channel := current_channel c |};
          wire := wire w;
          console := console w |};
     closed := closed n ++ map (fun item => socket (snd item)) (connections c);
     listeners := listeners n;
     notices := notices n |}.

(** A JSON object that the client displays or ignores without raising: it
    is no chat message, or its chat line can be written, and so can the
    prompt when the channel is the current one. *)
Definition displays (c : PeerClient) (peer_id : json)
    (fields : list (string * json)) : bool :=
  if py_eq (get fields "type" JNull) (JStr "chat") then
    let channel := get fields "channel" (JStr "unknown") in
    forallb printable
      [get fields "username" peer_id; channel; get fields "content" (JStr "")]
    && (if py_eq (current_channel c) channel
        then forallb printable [JStr (username c); current_channel c]
        else true)
  else true.

(** The reads that end the listener of [peer_id] on client [c]: everything
    except text that is not JSON, which is skipped, and a decoded object
    that is handled without raising. *)
Definition ends_listener (c : PeerClient) (peer_id : json) (input : read)
  : bool :=
  match input with
  | Read Tracker.NotJson => false
  | Read (Tracker.Decoded (JObj fields)) => negb (displays c peer_id fields)
  | _ => true
  end.

Definition is_not_json (input : read) : bool :=
  match input with
  | Read Tracker.NotJson => true
  | _ => false
  end.

(** The node after a payload has been written to a socket. *)
Definition written (sock : Socket) (payload : json) (n : Node) : Node :=
  {| world := {| client := client (world n);
                 wire := wire (world n) ++ [(sock, payload)];
                 console := console (world n) |};
     closed := closed n;
     listeners := listeners n;
     notices := notices n |}.

(** The node after a connection has been stored under a peer id and its
    listener started. *)
Definition registered (peer_id : json) (sock : Socket) (username : json)
    (n : Node) : Node :=
  {| world :=
       set_connections
         (update peer_id {| socket := sock; remote_username := username |}
            (connections (client (world n))))
         (world n);
     closed := closed n;
     listeners := listeners n ++ [(peer_id, sock)];
     notices := notices n |}.

(** The node after a socket has been closed. *)
Definition closing (sock : Socket) (n : Node) : Node :=
  {| world := world n; closed := closed n ++ [sock];
     listeners := listeners n; notices := notices n |}.

Definition is_connected (line : notice) : bool :=
  match line with
  | Connected _ _ => true
  | _ => false
  end.

(** An entry whose line "Connected to" can be written. *)
Definition announced (item : json * Connection) : bool :=
  forallb printable [remote_username (snd item); fst item].

(** [n'] is [n] with the connections [added] appended to the table, and one
    handshake written and one listener started for each of them.  The
    lines "Connected to" printed are those of the added entries for which
    that line can be written; the other status lines printed report a
    failure, and nothing else is changed. *)
Definition grown_by (added : dict Connection) (n n' : Node) : Prop :=
  client (world n')
  = client (set_connections (connections (client (world n)) ++ added)
              (world n)) /\
  wire (world n')
  = wire (world n)
    ++ map (fun item => (socket (snd item),
                         handshake_message (client (world n)))) added /\
  console (world n') = console (world n) /\
  closed n' = closed n /\
  listeners n'
  = listeners n ++ map (fun item => (fst item, socket (snd item))) added /\
  exists lines,
    notices n' = notices n ++ lines /\
    filter is_connected lines
    = map (fun item => Connected (remote_username (snd item)) (fst item))
        (filter announced added).

(** A peers map as the tracker builds it: every value is a dictionary with
    an ip and a port. *)
Definition peer_info_complete (peer_info : json) : Prop :=
  match peer_info with
  | JObj fields => assoc "ip" fields <> None /\ assoc "port" fields <> None
  | _ => False
  end.

(** A get_peers answer of the tracker that offers Bob and Erin. *)
Definition offer_bob_erin : json :=
  JObj [("status", JStr "success");
        ("peers",
         JObj [("a1", JObj [("ip", JStr "127.0.0.1"); ("port", JInt 9001);
                            ("username", JStr "Alice")]);
               ("b1", JObj [("ip", JStr "127.0.0.1"); ("port", JInt 9002);
                            ("username", JStr "Bob")]);
               ("e1", JObj [("ip", JStr "127.0.0.1"); ("port", JInt 9005);
                            ("username", JStr "Erin")])]);
        ("channel", JStr "general"); ("count", JInt 3)].

(** A network in which port 9005 answers on socket 7 and nothing else
    does. *)
Definition only_erin (ip port : json) : option Socket :=
  if py_eq port (JInt 9005) then Some 7 else None.

(** A node around the example client. *)
Definition alice_node : Node :=
  {| world := alice_world; closed := []; listeners := []; notices := [] |}.

End Overlay.

(* ================================================================= *)
(** ** Facts about Python equality, lists and dictionaries *)

Module PyFacts.
Import Py.

Lemma norm_hashable v : hashable v = true <-> norm v <> None.
Proof. destruct v; simpl; split; congruence. Qed.

Lemma py_eq_norm a b :
  hashable a = true \/ hashable b = true ->
  (py_eq a b = true <-> norm a = norm b).
Proof.
  intros H.
  destruct a as [|x|m|s|xs|kvs], b as [|y|n|t|ys|kws]; simpl in *;
    try (split; congruence);
    try (destruct H; discriminate).
  - destruct x, y; simpl; split; congruence.
  - rewrite Z.eqb_eq. split; congruence.
  - rewrite Z.eqb_eq. split; congruence.
  - rewrite Z.eqb_eq. split; congruence.
  - rewrite String.eqb_eq. split; congruence.
Qed.

Lemma py_eq_refl k : hashable k = true -> py_eq k k = true.
Proof. intros H. apply py_eq_norm; auto. Qed.

Lemma py_eq_hashable_l a b :
  py_eq a b = true -> hashable b = true -> hashable a = true.
Proof.
  intros E H. apply py_eq_norm in E; auto.
  apply norm_hashable. rewrite E. now apply norm_hashable.
Qed.

Lemma py_eq_hashable_r a b :
  py_eq a b = true -> hashable a = true -> hashable b = true.
Proof.
  intros E H. apply py_eq_norm in E; auto.
  apply norm_hashable. rewrite <- E. now apply norm_hashable.
Qed.

Lemma py_eq_sym a b :
  hashable a = true \/ hashable b = true -> py_eq a b = py_eq b a.
Proof.
  intros H.
  destruct (py_eq a b) eqn:E1, (py_eq b a) eqn:E2; auto.
  - apply py_eq_norm in E1; auto.
    assert (py_eq b a = true) by (apply py_eq_norm; [tauto | congruence]).
    congruence.
  - apply py_eq_norm in E2; [|tauto].
    assert (py_eq a b = true) by (apply py_eq_norm; [tauto | congruence]).
    congruence.
Qed.

(** Two values equal to a hashable one are interchangeable on either side
    of [==]. *)
Lemma py_eq_congr_r x k k' :
  hashable k = true -> py_eq k k' = true -> py_eq x k = py_eq x k'.
Proof.
  intros H E.
  pose proof (py_eq_hashable_r _ _ E H) as H'.
  apply py_eq_norm in E; auto.
  destruct (py_eq x k) eqn:E1, (py_eq x k') eqn:E2; auto.
  - apply py_eq_norm in E1; auto.
    assert (py_eq x k' = true) by (apply py_eq_norm; [auto | congruence]).
    congruence.
  - apply py_eq_norm in E2; auto.
    assert (py_eq x k = true) by (apply py_eq_norm; [auto | congruence]).
    congruence.
Qed.

Lemma py_eq_congr_l x k k' :
  hashable k = true -> py_eq k k' = true -> py_eq k x = py_eq k' x.
Proof.
  intros H E.
  pose proof (py_eq_hashable_r _ _ E H) as H'.
  rewrite (py_eq_sym k x), (py_eq_sym k' x) by auto.
  now apply py_eq_congr_r.
Qed.

Lemma py_eq_truthy a b :
  hashable a = true \/ hashable b = true ->
  py_eq a b = true -> truthy a = truthy b.
Proof.
  intros H E. apply py_eq_norm in E; auto.
  destruct a as [|x|m|s|xs|kvs], b as [|y|n|t|ys|kws]; simpl in *;
    try discriminate; try reflexivity; try (destruct H; discriminate);
    injection E as E; subst; auto.
  - now destruct x, y.
  - now destruct x.
  - now destruct y.
Qed.

(** *** Lists *)

Lemma list_contains_app x l1 l2 :
  list_contains x (l1 ++ l2) = list_contains x l1 || list_contains x l2.
Proof. unfold list_contains. apply existsb_app. Qed.

Lemma distinct_snoc l p :
  distinct l -> list_contains p l = false -> distinct (l ++ [p]).
Proof.
  induction l as [|x l IH]; simpl.
  - auto.
  - intros [Hx Hl] Hp. apply orb_false_iff in Hp as [Hxp Hp].
    split; [|auto].
    rewrite existsb_app, Hx. simpl. now rewrite Hxp.
Qed.

Lemma existsb_remove_first (f : json -> bool) x l :
  existsb f l = false -> existsb f (remove_first x l) = false.
Proof.
  induction l as [|e l IH]; simpl; auto.
  intros H. apply orb_false_iff in H as [He Hl].
  destruct (py_eq e x); simpl; auto.
  now rewrite He, IH.
Qed.

Lemma distinct_remove_first x l : distinct l -> distinct (remove_first x l).
Proof.
  induction l as [|e l IH]; simpl; auto.
  intros [He Hl]. destruct (py_eq e x); simpl; auto.
  split; auto using existsb_remove_first.
Qed.

Lemma existsb_false_In {A} (f : A -> bool) l x :
  existsb f l = false -> In x l -> f x = false.
Proof.
  induction l as [|e l IH]; simpl; [tauto|].
  intros H [<-|Hin]; apply orb_false_iff in H as [He Hl]; auto.
Qed.

Lemma existsb_pointwise {A} (f g : A -> bool) l :
  (forall x, f x = g x) -> existsb f l = existsb g l.
Proof. intros H. induction l; simpl; congruence. Qed.

(** Removing the first occurrence of a hashable value from a list without
    repetition removes the value altogether. *)
Lemma list_contains_remove_first p l :
  hashable p = true -> distinct l ->
  list_contains p (remove_first p l) = false.
Proof.
  intros Hp. induction l as [|e l IH]; simpl; auto.
  intros [He Hl]. destruct (py_eq e p) eqn:E.
  - unfold list_contains.
    rewrite <- He. apply existsb_pointwise. intros y.
    rewrite (py_eq_sym y p), (py_eq_sym e p) in * by auto.
    rewrite (py_eq_congr_l y p e) by auto.
    reflexivity.
  - unfold list_contains in *. simpl. rewrite E. simpl. auto.
Qed.

(** *** Dictionaries *)

Section DictFacts.
Context {V : Type}.
Implicit Types (d : dict V) (k q : json) (v : V).

Lemma find_None d k :
  find k d = None <-> (forall k' v, In (k', v) d -> py_eq k' k = false).
Proof.
  induction d as [|[k0 v0] d IH]; simpl.
  - split; [intros _ ? ? [] | auto].
  - destruct (py_eq k0 k) eqn:E.
    + split; [discriminate|].
      intros H. specialize (H k0 v0 (or_introl eq_refl)). congruence.
    + rewrite IH. split.
      * intros H k' v [[= <- <-]|Hin]; eauto.
      * intros H k' v Hin. eauto.
Qed.

Lemma find_Some d k v :
  find k d = Some v -> exists k', In (k', v) d /\ py_eq k' k = true.
Proof.
  induction d as [|[k0 v0] d IH]; simpl; [discriminate|].
  destruct (py_eq k0 k) eqn:E.
  - intros [= <-]. eauto.
  - intros H. destruct (IH H) as (k' & Hin & Hk). eauto.
Qed.

Lemma find_app d1 d2 k :
  find k (d1 ++ d2) =
  match find k d1 with Some v => Some v | None => find k d2 end.
Proof.
  induction d1 as [|[k0 v0] d1 IH]; simpl; auto.
  destruct (py_eq k0 k); auto.
Qed.

(** Looking up equal keys gives the same entry. *)
Lemma find_congr d k k' :
  hashable k = true -> py_eq k k' = true -> find k d = find k' d.
Proof.
  intros H E. induction d as [|[k0 v0] d IH]; simpl; auto.
  rewrite (py_eq_congr_r k0 k k') by auto.
  destruct (py_eq k0 k'); auto.
Qed.

Lemma find_update_same d k v :
  hashable k = true -> find k (update k v d) = Some v.
Proof.
  intros H. induction d as [|[k0 v0] d IH]; simpl.
  - now rewrite py_eq_refl.
  - destruct (py_eq k0 k) eqn:E; simpl; rewrite E; auto.
Qed.

Lemma find_update_other d k q v :
  hashable k = true -> py_eq k q = false ->
  find q (update k v d) = find q d.
Proof.
  intros H Hq. induction d as [|[k0 v0] d IH]; simpl.
  - now rewrite Hq.
  - destruct (py_eq k0 k) eqn:E; simpl.
    + rewrite (py_eq_sym k0 k) in E by auto.
      rewrite <- (py_eq_congr_l q k k0) by auto.
      now rewrite Hq.
    + destruct (py_eq k0 q); auto.
Qed.

Lemma keys_update_found d k v v0 :
  find k d = Some v0 -> keys (update k v d) = keys d.
Proof.
  induction d as [|[k0 v1] d IH]; simpl; [discriminate|].
  destruct (py_eq k0 k); simpl; auto.
  intros H. f_equal. auto.
Qed.

Lemma update_not_found d k v :
  find k d = None -> update k v d = d ++ [(k, v)].
Proof.
  induction d as [|[k0 v0] d IH]; simpl; auto.
  destruct (py_eq k0 k); [discriminate|].
  intros H. f_equal. auto.
Qed.

Lemma update_update d k v v' :
  hashable k = true -> update k v' (update k v d) = update k v' d.
Proof.
  intros H. induction d as [|[k0 v0] d IH]; simpl.
  - now rewrite py_eq_refl.
  - destruct (py_eq k0 k) eqn:E; simpl; rewrite E; auto.
    f_equal. auto.
Qed.

Lemma remove_key_not_found d k :
  find k d = None -> remove_key k d = d.
Proof.
  induction d as [|[k0 v0] d IH]; simpl; auto.
  destruct (py_eq k0 k); [discriminate|].
  intros H. f_equal. auto.
Qed.

Lemma In_remove_key d k e : In e (remove_key k d) -> In e d.
Proof.
  induction d as [|[k0 v0] d IH]; simpl; auto.
  destruct (py_eq k0 k); simpl; intuition.
Qed.

Lemma In_update d k v e :
  In e (update k v d) ->
  In e d \/
  (exists v0, In (fst e, v0) d /\ snd e = v /\ py_eq (fst e) k = true) \/
  e = (k, v).
Proof.
  induction d as [|[k0 v0] d IH]; simpl.
  - intros [<-|[]]. auto.
  - destruct (py_eq k0 k) eqn:E; simpl.
    + intros [<-|Hin]; auto. right. left. exists v0. auto.
    + intros [<-|Hin]; auto.
      destruct (IH Hin) as [?|[(v1 & ? & ?)|?]]; auto.
      right. left. exists v1. auto.
Qed.

Lemma remove_key_update d k v v0 :
  find k d = Some v0 -> remove_key k (update k v d) = remove_key k d.
Proof.
  induction d as [|[k0 v1] d IH]; simpl; [discriminate|].
  destruct (py_eq k0 k) eqn:E; simpl; rewrite E; auto.
  intros H. f_equal. auto.
Qed.

Lemma distinct_keys_hashable d k v :
  distinct_keys d -> In (k, v) d -> hashable k = true.
Proof.
  induction d as [|[k0 v0] d IH]; simpl; [tauto|].
  intros (H & _ & Hd) [[= <- <-]|Hin]; auto.
Qed.

Lemma find_hashable d k v :
  distinct_keys d -> find k d = Some v -> hashable k = true.
Proof.
  intros Hd Hf. destruct (find_Some _ _ _ Hf) as (k' & Hin & E).
  eapply py_eq_hashable_r; eauto using distinct_keys_hashable.
Qed.

Lemma distinct_keys_update d k v :
  hashable k = true -> distinct_keys d -> distinct_keys (update k v d).
Proof.
  intros H. induction d as [|[k0 v0] d IH]; simpl.
  - auto.
  - intros (H0 & Hf & Hd). destruct (py_eq k0 k) eqn:E; simpl.
    + auto.
    + repeat split; auto.
      rewrite find_update_other; auto.
      rewrite py_eq_sym by auto. exact E.
Qed.

Lemma distinct_keys_remove_key d k :
  distinct_keys d -> distinct_keys (remove_key k d).
Proof.
  induction d as [|[k0 v0] d IH]; simpl; auto.
  intros (H0 & Hf & Hd). destruct (py_eq k0 k) eqn:E; simpl; auto.
  repeat split; auto.
  apply find_None. intros k' v Hin. apply In_remove_key in Hin.
  rewrite find_None in Hf. eauto.
Qed.

Lemma find_remove_key_same d k :
  hashable k = true -> distinct_keys d -> find k (remove_key k d) = None.
Proof.
  intros H. induction d as [|[k0 v0] d IH]; simpl; auto.
  intros (H0 & Hf & Hd). destruct (py_eq k0 k) eqn:E; simpl.
  - rewrite <- Hf. symmetry. apply find_congr; auto.
  - rewrite E. auto.
Qed.

Lemma distinct_keys_app d1 d2 :
  distinct_keys (d1 ++ d2) <->
  distinct_keys d1 /\ distinct_keys d2 /\
  (forall k v, In (k, v) d1 -> find k d2 = None).
Proof.
  induction d1 as [|[k0 v0] d1 IH]; simpl.
  - intuition.
  - rewrite find_app, IH. split.
    + intros (H0 & Hf & H1 & H2 & H12).
      destruct (find k0 d1) eqn:E; [discriminate|].
      repeat split; auto.
      intros k v [[= <- <-]|Hin]; eauto.
    + intros ((H0 & Hf & H1) & H2 & H12).
      rewrite Hf. repeat split; eauto.
Qed.

(** The entry found under a key is the only one whose key equals it. *)
Lemma find_In d k k' v :
  distinct_keys d -> In (k', v) d -> py_eq k' k = true ->
  find k d = Some v.
Proof.
  induction d as [|[k0 v0] d IH]; simpl; [tauto|].
  intros (H0 & Hf & Hd) [[= <- <-]|Hin] E.
  - now rewrite E.
  - destruct (py_eq k0 k) eqn:E0; auto.
    exfalso. rewrite find_None in Hf. specialize (Hf _ _ Hin).
    pose proof (py_eq_hashable_r _ _ E0 H0) as Hk.
    apply py_eq_norm in E0; auto. apply py_eq_norm in E; auto.
    assert (py_eq k' k0 = true) by (apply py_eq_norm; [auto|congruence]).
    congruence.
Qed.

Lemma update_app_skip d1 d2 k v :
  find k d1 = None -> update k v (d1 ++ d2) = d1 ++ update k v d2.
Proof.
  induction d1 as [|[k0 v0] d1 IH]; simpl; auto.
  destruct (py_eq k0 k); [discriminate|].
  intros H. f_equal. auto.
Qed.

Lemma remove_key_app_skip d1 d2 k :
  find k d1 = None -> remove_key k (d1 ++ d2) = d1 ++ remove_key k d2.
Proof.
  induction d1 as [|[k0 v0] d1 IH]; simpl; auto.
  destruct (py_eq k0 k); [discriminate|].
  intros H. f_equal. auto.
Qed.

(** In a dictionary, the key of an entry is found in no entry before it. *)
Lemma distinct_keys_before d1 d2 k v :
  distinct_keys (d1 ++ (k, v) :: d2) ->
  hashable k = true /\ find k d1 = None.
Proof.
  intros H. apply distinct_keys_app in H as (H1 & (Hk & _ & _) & H12).
  split; auto.
  apply find_None. intros k' v' Hin.
  specialize (H12 _ _ Hin). simpl in H12.
  destruct (py_eq k k') eqn:E; [discriminate|].
  rewrite py_eq_sym by auto. exact E.
Qed.

(** Replacing the value of an entry, or dropping the entry, keeps the keys
    distinct. *)
Lemma distinct_keys_replace d1 d2 k v v' :
  distinct_keys (d1 ++ (k, v) :: d2) ->
  distinct_keys (d1 ++ (k, v') :: d2).
Proof.
  rewrite !distinct_keys_app. simpl.
  intros (H1 & H2 & H12). repeat split; try tauto.
  intros k' v0 Hin. specialize (H12 _ _ Hin).
  destruct (py_eq k k'); [discriminate | auto].
Qed.

Lemma distinct_keys_drop d1 d2 k v :
  distinct_keys (d1 ++ (k, v) :: d2) -> distinct_keys (d1 ++ d2).
Proof.
  rewrite !distinct_keys_app. simpl.
  intros (H1 & (Hk & Hf & H2) & H12). repeat split; auto.
  intros k' v' Hin. specialize (H12 _ _ Hin).
  destruct (py_eq k k'); [discriminate | auto].
Qed.

End DictFacts.

End PyFacts.

(* ================================================================= *)
(** ** The handlers of the tracker, one case at a time *)

Module TrackerFacts.
Import Py PyFacts Tracker.

Lemma eta (s : ChatServer) :
  {| peers := peers s; channels := channels s |} = s.
Proof. now destruct s. Qed.

Lemma register_peer_run now request s :
  register_peer now request s =
  let peer_id := get request "peer_id" JNull in
  let peer_ip := get request "ip" JNull in
  let peer_port := get request "port" JNull in
  let username := get request "username" (JStr "Anonymous") in
  if negb (all [peer_id; peer_ip; peer_port]) then
    (Ok (RespError (Msg "Missing required fields: peer_id, ip, port")), s)
  else if hashable peer_id then
    (logged [peer_id; username; peer_ip; peer_port]
       (RespRegistered peer_id username),
     {| peers := update peer_id
                   {| ip := peer_ip; port := peer_port; username := username;
                      timestamp := now |} (peers s);
        channels := channels s |})
  else (Raise (TypeError_unhashable peer_id), s).
Proof.
  unfold register_peer. cbv zeta.
  destruct (negb (all _)); [reflexivity|].
  run_monad. destruct (hashable _); [|reflexivity].
  destruct (forallb printable _); reflexivity.
Qed.

(** The comprehension of [get_peer_list] never changes the state, and it
    raises only on an unhashable member. *)
Lemma peers_of_state peer_ids acc s : snd (peers_of peer_ids acc s) = s.
Proof.
  revert acc. induction peer_ids as [|pid rest IH]; intros acc; simpl.
  - reflexivity.
  - run_monad. destruct (hashable pid); [|reflexivity].
    destruct (find pid (peers s)) eqn:E; rewrite ?E; auto.
Qed.

Lemma peers_of_run peer_ids acc s :
  Forall (fun pid => hashable pid = true) peer_ids ->
  peers_of peer_ids acc s =
  (Ok (fold_left (fun acc pid => match find pid (peers s) with
                                 | Some record => update pid record acc
                                 | None => acc
                                 end) peer_ids acc), s).
Proof.
  intros H. revert acc. induction H as [|pid rest Hpid _ IH]; intros acc; simpl.
  - reflexivity.
  - run_monad. rewrite Hpid.
    destruct (find pid (peers s)) eqn:E; rewrite ?E; auto.
Qed.

(** The first member that is not hashable makes the comprehension raise. *)
Lemma peers_of_raises peer_ids s :
  ~ Forall (fun pid => hashable pid = true) peer_ids ->
  forall acc,
  exists pid,
    In pid peer_ids /\ hashable pid = false /\
    peers_of peer_ids acc s = (Raise (TypeError_unhashable pid), s).
Proof.
  induction peer_ids as [|pid rest IH]; intros Hnot acc.
  - destruct Hnot. constructor.
  - destruct (hashable pid) eqn:Hh.
    + assert (Hrest : ~ Forall (fun pid => hashable pid = true) rest)
        by (intros H; apply Hnot; now constructor).
      simpl. run_monad. rewrite Hh.
      destruct (find pid (peers s)) as [record|] eqn:E; rewrite ?E.
      * destruct (IH Hrest (update pid record acc)) as (q & Hin & Hq & Hrun).
        exists q. split; [now right | split; assumption].
      * destruct (IH Hrest acc) as (q & Hin & Hq & Hrun).
        exists q. split; [now right | split; assumption].
    + exists pid. split; [now left|]. split; [exact Hh|].
      simpl. run_monad. now rewrite Hh.
Qed.

Lemma fold_members_records registry peer_ids acc :
  distinct peer_ids ->
  (forall pid, In pid peer_ids -> find pid acc = None) ->
  fold_left (fun acc pid => match find pid registry with
                            | Some record => update pid record acc
                            | None => acc
                            end) peer_ids acc
  = acc ++ members_records peer_ids registry.
Proof.
  revert acc. induction peer_ids as [|pid rest IH]; intros acc; simpl.
  - intros _ _. now rewrite app_nil_r.
  - intros [Hpid Hrest] Hacc.
    destruct (find pid registry) as [record|] eqn:E.
    + rewrite update_not_found by auto.
      rewrite IH; auto.
      * now rewrite <- app_assoc.
      * intros q Hq. rewrite find_app, Hacc by auto. simpl.
        assert (py_eq pid q = false) as ->; [|reflexivity].
        eapply existsb_false_In in Hpid; eauto.
    + apply IH; auto.
Qed.

Lemma get_peer_list_state request s : snd (get_peer_list request s) = s.
Proof.
  unfold get_peer_list. cbv zeta. run_monad.
  destruct (truthy _); [|reflexivity].
  destruct (hashable _); [|reflexivity].
  destruct (find _ (channels s)) as [members|] eqn:E; rewrite ?E;
    [|reflexivity].
  pose proof (peers_of_state members [] s) as H.
  destruct (peers_of members [] s) as [[peer_list|e] s']; simpl in *;
    now subst.
Qed.

(** Without a truthy [channel] field, or for a channel name that is not in
    the index, the whole registry is returned. *)
Lemma get_peer_list_all request s :
  let channel := get request "channel" JNull in
  truthy channel = false \/
  (hashable channel = true /\ find channel (channels s) = None) ->
  get_peer_list request s =
  (Ok (RespPeers (peers s) channel (length (peers s))), s).
Proof.
  unfold get_peer_list. cbv zeta. run_monad.
  intros [Hf|[Hh Hn]].
  - now rewrite Hf.
  - destruct (truthy _); [|reflexivity].
    rewrite Hh, Hn. reflexivity.
Qed.

Lemma get_peer_list_unhashable request s :
  let channel := get request "channel" JNull in
  truthy channel = true -> hashable channel = false ->
  get_peer_list request s = (Raise (TypeError_unhashable channel), s).
Proof.
  unfold get_peer_list. cbv zeta. run_monad.
  intros -> ->. reflexivity.
Qed.

(** For a channel of the index whose members are hashable and without
    repetition, the records of its registered members are returned. *)
Lemma get_peer_list_channel request s members :
  let channel := get request "channel" JNull in
  truthy channel = true -> hashable channel = true ->
  find channel (channels s) = Some members ->
  Forall (fun pid => hashable pid = true) members ->
  distinct members ->
  get_peer_list request s =
  (Ok (RespPeers (members_records members (peers s)) channel
         (length (members_records members (peers s)))), s).
Proof.
  unfold get_peer_list. cbv zeta. intros Ht Hh Hf Hm Hd.
  run_monad. rewrite Ht, Hh, Hf. rewrite Hf.
  rewrite peers_of_run by auto.
  rewrite fold_members_records by auto.
  reflexivity.
Qed.

Lemma join_channel_run request s :
  join_channel request s =
  let peer_id := get request "peer_id" JNull in
  let channel := get request "channel" JNull in
  if negb (all [peer_id; channel]) then
    (Ok (RespError (Msg "Missing required fields: peer_id, channel")), s)
  else if hashable channel then
    (logged [peer_id; channel] (RespJoined channel),
     {| peers := peers s;
        channels := join_index peer_id channel (channels s) |})
  else (Raise (TypeError_unhashable channel), s).
Proof.
  unfold join_channel, join_index. cbv zeta.
  destruct (negb (all _)); [reflexivity|].
  run_monad. set (ok := forallb printable _).
  destruct (hashable _) eqn:Hh; [|reflexivity].
  destruct (find _ (channels s)) as [members|] eqn:E;
    repeat (rewrite ?E, ?Hh; simpl).
  - destruct (list_contains _ members); simpl.
    + rewrite eta. now destruct ok.
    + now destruct ok.
  - rewrite find_update_same by auto. simpl.
    rewrite ?Hh. rewrite update_update by auto. now destruct ok.
Qed.

Lemma leave_channel_run request s :
  leave_channel request s =
  let peer_id := get request "peer_id" JNull in
  let channel := get request "channel" JNull in
  if negb (all [peer_id; channel]) then
    (Ok (RespError (Msg "Missing required fields: peer_id, channel")), s)
  else if hashable channel then
    (logged [peer_id; channel] (RespLeft channel),
     {| peers := peers s;
        channels := leave_index peer_id channel (channels s) |})
  else (Raise (TypeError_unhashable channel), s).
Proof.
  unfold leave_channel, leave_index, list_remove. cbv zeta.
  destruct (negb (all _)); [reflexivity|].
  run_monad. set (ok := forallb printable _).
  destruct (hashable _) eqn:Hh; [|reflexivity].
  destruct (find _ (channels s)) as [members|] eqn:E;
    repeat (rewrite ?E, ?Hh; simpl).
  - destruct (list_contains _ members) eqn:Hc;
      repeat (rewrite ?E, ?Hh, ?Hc; simpl).
    + rewrite find_update_same by auto.
      destruct (remove_first _ members) as [|m ms]; simpl.
      * rewrite ?Hh, find_update_same by auto. simpl.
        erewrite remove_key_update by eauto. now destruct ok.
      * now destruct ok.
    + rewrite eta. now destruct ok.
  - rewrite eta. now destruct ok.
Qed.

(** The loop of [logout_peer] over the snapshot of the channel names: the
    entries already visited are [done], the others [todo]. *)
Lemma logout_loop peer_id registry todo : forall done,
  distinct_keys (done ++ todo) ->
  for_each (keys todo) (fun channel =>
      members <- channels_getitem channel ;;
      when (list_contains peer_id members)
        (members' <- lift (list_remove peer_id members) ;;
         channels_setitem channel members') ;;
      remaining <- channels_getitem channel ;;
      when (match remaining with [] => true | _ => false end)
        (channels_delitem channel))
    {| peers := registry; channels := done ++ todo |}
  = (Ok tt, {| peers := registry; channels := done ++ purge peer_id todo |}).
Proof.
  induction todo as [|[c ms] todo IH]; intros done Hd.
  - reflexivity.
  - destruct (distinct_keys_before _ _ _ _ Hd) as [Hc Hn].
    assert (Hfind : forall v, find c (done ++ (c, v) :: todo) = Some v).
    { intros v. rewrite find_app, Hn. simpl. now rewrite py_eq_refl. }
    simpl keys. simpl for_each. unfold bind at 1.
    match goal with |- (let (_, _) := ?body _ in _) = _ =>
      assert (Hbody : body {| peers := registry;
                              channels := done ++ (c, ms) :: todo |}
              = (Ok tt, {| peers := registry;
                           channels := (done ++
                              match strip peer_id ms with
                              | [] => []
                              | ms' => [(c, ms')]
                              end) ++ todo |}))
    end.
    { assert (Hcc : py_eq c c = true) by now apply py_eq_refl.
      unfold strip, list_remove. run_monad. simpl.
      rewrite ?Hc, ?Hfind. simpl.
      destruct (list_contains peer_id ms) eqn:Hin; simpl;
        [destruct (remove_first peer_id ms) as [|m ms']
        |destruct ms as [|m ms']];
        repeat first [ rewrite Hc | rewrite Hfind | rewrite Hcc
                     | rewrite update_app_skip by auto
                     | rewrite remove_key_app_skip by auto
                     | progress simpl ];
        now rewrite ?app_nil_r, <- ?app_assoc. }
    rewrite Hbody. rewrite IH.
    + simpl. destruct (strip peer_id ms); simpl; now rewrite <- app_assoc.
    + destruct (strip peer_id ms); simpl.
      * rewrite app_nil_r. eapply distinct_keys_drop; eauto.
      * rewrite <- app_assoc. simpl. eapply distinct_keys_replace; eauto.
Qed.

Lemma logout_peer_run request s :
  distinct_keys (channels s) ->
  logout_peer request s =
  let peer_id := get request "peer_id" JNull in
  if negb (truthy peer_id) then
    (Ok (RespError (Msg "Missing required field: peer_id")), s)
  else if hashable peer_id then
    (logged [peer_id] RespLoggedOut,
     {| peers := remove_key peer_id (peers s);
        channels := purge peer_id (channels s) |})
  else (Raise (TypeError_unhashable peer_id), s).
Proof.
  intros Hd. unfold logout_peer. cbv zeta.
  destruct (negb (truthy _)); [reflexivity|].
  unfold bind at 1. unfold peers_contains, contains.
  destruct (hashable _) eqn:Hh; [|reflexivity].
  unfold bind at 1.
  assert (Hdel :
    when (match find (get request "peer_id" JNull) (peers s) with
          | Some _ => true | None => false end)
      (peers_delitem (get request "peer_id" JNull)) s
    = (Ok tt, {| peers := remove_key (get request "peer_id" JNull) (peers s);
                 channels := channels s |})).
  { unfold when, peers_delitem, delitem, ret. rewrite Hh.
    destruct (find _ (peers s)) eqn:E; rewrite ?E.
    - reflexivity.
    - rewrite remove_key_not_found by auto. now rewrite eta. }
  rewrite Hdel. unfold bind at 1. unfold channels_keys at 1. cbv beta.
  unfold bind at 1. cbn [channels].
  rewrite (logout_loop _ _ (channels s) []) by exact Hd.
  run_monad. now destruct (forallb printable _).
Qed.

Lemma get_channels_state request s : snd (get_channels request s) = s.
Proof.
  unfold get_channels. cbv zeta. destruct (negb _); reflexivity.
Qed.

(** *** The invariant *)

Lemma Forall_update (P : json * list json -> Prop) d k v :
  Forall P d ->
  (forall k', py_eq k' k = true -> (exists v0, In (k', v0) d /\ P (k', v0)) ->
              P (k', v)) ->
  P (k, v) ->
  Forall P (update k v d).
Proof.
  intros Hd Hrep Hnew. apply Forall_forall. intros [k' v'] Hin.
  rewrite Forall_forall in Hd.
  apply In_update in Hin as [Hin|[(v0 & Hin & Hv & Hk)|[= -> ->]]]; auto.
  simpl in *. subst v'. eauto.
Qed.

Lemma Forall_remove_key (P : json * list json -> Prop) d k :
  Forall P d -> Forall P (remove_key k d).
Proof.
  rewrite !Forall_forall. intros H e Hin. eauto using In_remove_key.
Qed.

Lemma In_purge p d k ms' :
  In (k, ms') (purge p d) <->
  exists ms, In (k, ms) d /\ ms' = strip p ms /\ ms' <> [].
Proof.
  unfold purge. rewrite in_flat_map. split.
  - intros ([k0 ms] & Hin & Hk). simpl in Hk.
    destruct (strip p ms) as [|m l] eqn:E; [destruct Hk|].
    destruct Hk as [[= <- <-]|[]]. exists ms. repeat split; congruence.
  - intros (ms & Hin & -> & Hne). exists (k, ms). split; auto. simpl.
    destruct (strip p ms); [congruence | now left].
Qed.

Lemma find_purge_None p d k : find k d = None -> find k (purge p d) = None.
Proof.
  rewrite !find_None. intros H k' ms' Hin.
  apply In_purge in Hin as (ms & Hin & _). eauto.
Qed.

Lemma distinct_keys_purge p d : distinct_keys d -> distinct_keys (purge p d).
Proof.
  induction d as [|[k ms] d IH]; simpl; auto.
  intros (Hk & Hf & Hd).
  destruct (strip p ms); simpl; auto using find_purge_None.
Qed.

Lemma distinct_strip p ms : distinct ms -> distinct (strip p ms).
Proof.
  unfold strip. destruct (list_contains p ms); auto using distinct_remove_first.
Qed.

Lemma list_contains_strip p ms :
  hashable p = true -> distinct ms -> list_contains p (strip p ms) = false.
Proof.
  unfold strip. intros Hp Hd.
  destruct (list_contains p ms) eqn:E; auto using list_contains_remove_first.
Qed.

Lemma channels_ok_purge p d :
  Forall channel_ok d -> Forall channel_ok (purge p d).
Proof.
  rewrite !Forall_forall. intros H [k ms'] Hin.
  apply In_purge in Hin as (ms & Hin & -> & Hne).
  destruct (H _ Hin) as (Ht & _ & Hd).
  unfold channel_ok. simpl in *. auto using distinct_strip.
Qed.

Lemma Inv_init : Inv init.
Proof. repeat split; simpl; auto. Qed.

Lemma Inv_register now request s :
  Inv s -> Inv (snd (register_peer now request s)).
Proof.
  intros (Hp & Hc & Hok). rewrite register_peer_run. cbv zeta.
  destruct (negb (all _)); [repeat split; auto|].
  destruct (hashable _) eqn:Hh; repeat split; simpl; auto.
  now apply distinct_keys_update.
Qed.

Lemma snoc_not_nil {A} (l : list A) x : l ++ [x] <> [].
Proof. now destruct l. Qed.

Lemma Inv_join request s : Inv s -> Inv (snd (join_channel request s)).
Proof.
  intros (Hp & Hc & Hok). rewrite join_channel_run. cbv zeta.
  destruct (negb (all _)) eqn:Hall; [repeat split; auto|].
  destruct (hashable _) eqn:Hh; [|repeat split; auto].
  apply negb_false_iff in Hall. simpl in Hall.
  apply andb_prop in Hall as [Hpid Hch]. apply andb_prop in Hch as [Hch _].
  unfold join_index. simpl.
  destruct (find _ (channels s)) as [members|] eqn:E.
  - destruct (list_contains _ members) eqn:Hin; [repeat split; auto|].
    destruct (find_Some _ _ _ E) as (k' & Hk' & _).
    pose proof Hok as Hok'. rewrite Forall_forall in Hok'.
    destruct (Hok' _ Hk') as (_ & _ & Hdm). simpl in Hdm.
    repeat split; simpl; auto using distinct_keys_update.
    apply Forall_update; auto.
    + intros k0 _ (v0 & _ & Ht & _).
      split_ok; auto using snoc_not_nil, distinct_snoc.
    + split_ok; auto using snoc_not_nil, distinct_snoc.
  - repeat split; simpl; auto using distinct_keys_update.
    apply Forall_update; auto.
    + intros k0 _ (v0 & _ & Ht & _). split_ok. simpl. auto.
    + split_ok. simpl. auto.
Qed.

Lemma Inv_leave request s : Inv s -> Inv (snd (leave_channel request s)).
Proof.
  intros (Hp & Hc & Hok). rewrite leave_channel_run. cbv zeta.
  destruct (negb (all _)) eqn:Hall; [repeat split; auto|].
  destruct (hashable _) eqn:Hh; [|repeat split; auto].
  apply negb_false_iff in Hall. simpl in Hall.
  apply andb_prop in Hall as [_ Hch]. apply andb_prop in Hch as [Hch _].
  unfold leave_index. simpl.
  destruct (find _ (channels s)) as [members|] eqn:E; [|repeat split; auto].
  destruct (list_contains _ members) eqn:Hin; [|repeat split; auto].
  destruct (find_Some _ _ _ E) as (k' & Hk' & Hkc).
  pose proof Hok as Hok'. rewrite Forall_forall in Hok'.
  destruct (Hok' _ Hk') as (Ht & _ & Hdm). simpl in Ht, Hdm.
  destruct (remove_first _ members) as [|m ms] eqn:Hr.
  - repeat split; simpl;
      auto using distinct_keys_remove_key, Forall_remove_key.
  - assert (distinct (m :: ms)) as Hdr
        by (rewrite <- Hr; now apply distinct_remove_first).
    repeat split; simpl; auto using distinct_keys_update.
    apply Forall_update; auto.
    + intros k0 _ (v0 & _ & Ht0 & _). split_ok.
    + split_ok.
Qed.

Lemma Inv_logout request s : Inv s -> Inv (snd (logout_peer request s)).
Proof.
  intros (Hp & Hc & Hok). rewrite logout_peer_run by auto. cbv zeta.
  destruct (negb (truthy _)); [repeat split; auto|].
  destruct (hashable _); [|repeat split; auto].
  repeat split; simpl;
    auto using distinct_keys_remove_key, distinct_keys_purge, channels_ok_purge.
Qed.

Lemma handle_client_state now document s :
  snd (handle_client now (Decoded document) s) = snd (route now document s).
Proof.
  simpl. now destruct (route now document s) as [[resp|e] s'].
Qed.

(** The log line of [handle_client] comes before the handler. *)
Lemma route_run now request s :
  route now (JObj request) s =
  if printable (get request "method" JNull) then dispatch now request s
  else (Raise (UnicodeEncodeError [get request "method" JNull]), s).
Proof.
  unfold route. run_monad. cbn [forallb]. rewrite andb_true_r.
  now destruct (printable _).
Qed.

Lemma route_state now request s :
  snd (route now (JObj request) s) = s \/
  snd (route now (JObj request) s) = snd (dispatch now request s).
Proof. rewrite route_run. destruct (printable _); auto. Qed.

Lemma Inv_dispatch now request s :
  Inv s -> Inv (snd (dispatch now request s)).
Proof.
  intros H. unfold dispatch. cbv zeta.
  repeat match goal with
         | |- context [if ?b then _ else _] => destruct b
         end;
    auto using Inv_register, Inv_join, Inv_leave, Inv_logout.
  - now rewrite get_peer_list_state.
  - now rewrite get_channels_state.
Qed.

Lemma Inv_route now document s : Inv s -> Inv (snd (route now document s)).
Proof.
  intros H. destruct document as [| | | | |request]; try exact H.
  destruct (route_state now request s) as [-> | ->];
    auto using Inv_dispatch.
Qed.

Lemma Inv_handle now data s : Inv s -> Inv (snd (handle_client now data s)).
Proof.
  intros H. destruct data; auto.
  rewrite handle_client_state. now apply Inv_route.
Qed.

(** Every state of the tracker satisfies the invariant. *)
Lemma reachable_Inv s : reachable s -> Inv s.
Proof. induction 1; auto using Inv_init, Inv_handle. Qed.

(** Requests with hashable peer ids keep the members of all channels
    hashable. *)
Lemma In_remove_first x p l : In x (remove_first p l) -> In x l.
Proof.
  induction l as [|e l IH]; simpl; auto.
  destruct (py_eq e p); simpl; intuition.
Qed.

Lemma Forall_strip (P : json -> Prop) p members :
  Forall P members -> Forall P (strip p members).
Proof.
  unfold strip. destruct (list_contains p members); auto.
  rewrite !Forall_forall. eauto using In_remove_first.
Qed.

Lemma members_hashable_join p c d :
  hashable p = true ->
  Forall (fun entry => Forall (fun pid => hashable pid = true) (snd entry)) d ->
  Forall (fun entry => Forall (fun pid => hashable pid = true) (snd entry))
    (join_index p c d).
Proof.
  intros Hp Hd. unfold join_index.
  destruct (find c d) as [members|] eqn:E.
  - destruct (list_contains p members); auto.
    destruct (find_Some _ _ _ E) as (k' & Hin & _).
    pose proof Hd as Hd'. rewrite Forall_forall in Hd'.
    specialize (Hd' _ Hin). simpl in Hd'.
    assert (Forall (fun pid => hashable pid = true) (members ++ [p]))
      by (apply Forall_app; auto).
    apply Forall_update; auto.
  - apply Forall_update; simpl; auto.
Qed.

Lemma members_hashable_leave p c d :
  Forall (fun entry => Forall (fun pid => hashable pid = true) (snd entry)) d ->
  Forall (fun entry => Forall (fun pid => hashable pid = true) (snd entry))
    (leave_index p c d).
Proof.
  intros Hd. unfold leave_index.
  destruct (find c d) as [members|] eqn:E; auto.
  destruct (list_contains p members); auto.
  destruct (find_Some _ _ _ E) as (k' & Hin & _).
  pose proof Hd as Hd'. rewrite Forall_forall in Hd'.
  specialize (Hd' _ Hin). simpl in Hd'.
  destruct (remove_first p members) as [|m ms] eqn:Hr.
  - now apply Forall_remove_key.
  - assert (Forall (fun pid => hashable pid = true) (m :: ms)).
    { rewrite <- Hr. rewrite Forall_forall in *.
      eauto using In_remove_first. }
    apply Forall_update; auto.
Qed.

Lemma members_hashable_purge p d :
  Forall (fun entry => Forall (fun pid => hashable pid = true) (snd entry)) d ->
  Forall (fun entry => Forall (fun pid => hashable pid = true) (snd entry))
    (purge p d).
Proof.
  rewrite !Forall_forall. intros H [k ms'] Hin.
  apply In_purge in Hin as (ms & Hin & -> & _).
  apply Forall_strip. exact (H _ Hin).
Qed.

Lemma members_hashable_step now data s :
  Inv s -> peer_id_hashable data -> members_hashable s ->
  members_hashable (snd (handle_client now data s)).
Proof.
  intros (Hdp & Hdc & Hok) Hp Hm. destruct data as [| | |document]; auto.
  rewrite handle_client_state.
  destruct document as [| | | | |request]; try exact Hm.
  simpl in Hp.
  destruct (route_state now request s) as [-> | ->]; auto.
  unfold members_hashable in *. unfold dispatch. cbv zeta.
  repeat match goal with
         | |- context [if ?b then _ else _] => destruct b
         end; auto.
  - rewrite register_peer_run. cbv zeta.
    repeat match goal with
           | |- context [if ?b then _ else _] => destruct b
           end; auto.
  - now rewrite get_peer_list_state.
  - rewrite join_channel_run. cbv zeta.
    repeat match goal with
           | |- context [if ?b then _ else _] => destruct b
           end; simpl; auto using members_hashable_join.
  - rewrite leave_channel_run. cbv zeta.
    repeat match goal with
           | |- context [if ?b then _ else _] => destruct b
           end; simpl; auto using members_hashable_leave.
  - now rewrite get_channels_state.
  - rewrite logout_peer_run by auto. cbv zeta.
    repeat match goal with
           | |- context [if ?b then _ else _] => destruct b
           end; simpl; auto using members_hashable_purge.
Qed.

Lemma members_hashable_after trace : forall s,
  reachable s -> members_hashable s ->
  Forall (fun event => peer_id_hashable (snd event)) trace ->
  members_hashable (after trace s).
Proof.
  induction trace as [|[now data] trace IH]; intros s Hr Hm Ht; simpl; auto.
  inversion Ht as [|? ? Hd Ht']; subst. simpl in Hd.
  apply IH; auto using reachable_step.
  apply members_hashable_step; auto using reachable_Inv.
Qed.

Lemma reachable_after trace : forall s,
  reachable s -> reachable (after trace s).
Proof.
  induction trace as [|[now data] trace IH]; intros s H; simpl; auto.
  apply IH. now apply reachable_step.
Defined.

(** A channel of the index has a truthy hashable name and a member list
    without repetition. *)
Lemma Inv_channel s channel members :
  Inv s -> find channel (channels s) = Some members ->
  truthy channel = true /\ hashable channel = true /\
  members <> [] /\ distinct members.
Proof.
  intros (_ & Hd & Hok) Hf.
  pose proof (find_hashable _ _ _ Hd Hf) as Hh.
  destruct (find_Some _ _ _ Hf) as (k' & Hin & E).
  rewrite Forall_forall in Hok. destruct (Hok _ Hin) as (Ht & Hne & Hdm).
  simpl in *. repeat split; auto.
  rewrite <- (py_eq_truthy k' channel); auto.
Qed.

End TrackerFacts.

(* ================================================================= *)
(** ** Properties of the tracker *)

Module TrackerSpec.
Import Py PyFacts Tracker TrackerFacts.

(** *** Routing *)

Lemma route_register now request s :
  get request "method" JNull = JStr "register" ->
  route now (JObj request) s = register_peer now request s.
Proof.
  intros H. rewrite route_run. unfold dispatch. cbv zeta. now rewrite H.
Qed.

Lemma route_get_peers now request s :
  get request "method" JNull = JStr "get_peers" ->
  route now (JObj request) s = get_peer_list request s.
Proof.
  intros H. rewrite route_run. unfold dispatch. cbv zeta. now rewrite H.
Qed.

Lemma route_join_channel now request s :
  get request "method" JNull = JStr "join_channel" ->
  route now (JObj request) s = join_channel request s.
Proof.
  intros H. rewrite route_run. unfold dispatch. cbv zeta. now rewrite H.
Qed.

Lemma route_leave_channel now request s :
  get request "method" JNull = JStr "leave_channel" ->
  route now (JObj request) s = leave_channel request s.
Proof.
  intros H. rewrite route_run. unfold dispatch. cbv zeta. now rewrite H.
Qed.

Lemma route_get_channels now request s :
  get request "method" JNull = JStr "get_channels" ->
  route now (JObj request) s = get_channels request s.
Proof.
  intros H. rewrite route_run. unfold dispatch. cbv zeta. now rewrite H.
Qed.

Lemma route_logout now request s :
  get request "method" JNull = JStr "logout" ->
  route now (JObj request) s = logout_peer request s.
Proof.
  intros H. rewrite route_run. unfold dispatch. cbv zeta. now rewrite H.
Qed.







(** The error response that C3 leaves out.  A register request whose
    username holds a lone surrogate is stored, then its log line raises,
    and the tracker answers with an error. *)
Example register_log_failure :
  let request := [("peer_id", JStr "a1"); ("ip", JStr "127.0.0.1");
                  ("port", JInt 9001); ("username", JStr lone_surrogate)] in
  handle_client "2024-01-01T10:00:00" (request_of "register" request) init
  = (Some (RespError
             (StrOf (UnicodeEncodeError
                       [JStr "a1"; JStr lone_surrogate; JStr "127.0.0.1";
                        JInt 9001]))),
     {| peers := [(JStr "a1",
                   {| ip := JStr "127.0.0.1"; port := JInt 9001;
                      username := JStr lone_surrogate;
                      timestamp := "2024-01-01T10:00:00" |})];
        channels := [] |}).
Proof. reflexivity. Qed.


(** *** Discovery *)

Lemma get_peers_unknown_channel_counterexample :
  reachable alice_registered /\
  find (JStr "general") (channels alice_registered) = None /\
  handle_client "2024-01-01T10:00:05"
    (request_of "get_peers" [("channel", JStr "general")]) alice_registered
  = (Some (RespPeers
             [(JStr "a1", {| ip := JStr "127.0.0.1"; port := JInt 9001;
                             username := JStr "Alice";
                             timestamp := "2024-01-01T10:00:00" |})]
             (JStr "general") 1),
     alice_registered).
Proof.
  split; [apply reachable_after, reachable_init|].
  split; reflexivity.
Qed.

(** C1, as the code has it.  A get_peers request naming a channel that is
    not in the channel index is answered with a success, never an error;
    the peers map is the whole registry and the count its size, so the
    result is empty only when no peer is registered. *)
Theorem get_peers_unknown_channel s now request :
  get request "method" JNull = JStr "get_peers" ->
  hashable (get request "channel" JNull) = true ->
  find (get request "channel" JNull) (channels s) = None ->
  handle_client now (Decoded (JObj request)) s
  = (Some (RespPeers (peers s) (get request "channel" JNull)
             (length (peers s))), s) /\
  status (RespPeers (peers s) (get request "channel" JNull)
            (length (peers s))) = "success".
Proof.
  intros Hm Hh Hf. split; [|reflexivity].
  unfold handle_client. rewrite route_get_peers by auto.
  now rewrite get_peer_list_all by auto.
Qed.

Lemma get_peers_unknown_channel_witness :
  let request := [("method", JStr "get_peers"); ("channel", JStr "general")] in
  get request "method" JNull = JStr "get_peers" /\
  hashable (get request "channel" JNull) = true /\
  find (get request "channel" JNull) (channels alice_registered) = None /\
  handle_client "2024-01-01T10:00:05" (Decoded (JObj request))
    alice_registered
  = (Some (RespPeers (peers alice_registered) (get request "channel" JNull)
             (length (peers alice_registered))), alice_registered) /\
  status (RespPeers (peers alice_registered) (get request "channel" JNull)
            (length (peers alice_registered))) = "success".
Proof.
  intros request.
  split; [reflexivity|]. split; [reflexivity|]. split; [reflexivity|].
  apply (get_peers_unknown_channel alice_registered "2024-01-01T10:00:05"
           request eq_refl eq_refl eq_refl).
Defined.

(** join_channel accepts a peer id that is not hashable; get_peers for that
    channel then raises when it looks the member up in the registry, and the
    exception is sent back as an error response. *)
Lemma get_peers_result_counterexample :
  reachable array_in_general /\
  channels array_in_general = [(JStr "general", [JList [JInt 1]])] /\
  handle_client "2024-01-01T10:00:05"
    (request_of "get_peers" [("channel", JStr "general")]) array_in_general
  = (Some (RespError (StrOf (TypeError_unhashable (JList [JInt 1])))),
     array_in_general).
Proof.
  split; [apply reachable_after, reachable_init|].
  split; reflexivity.
Qed.

(** C2, as the code has it.  get_peers with a channel of the index whose
    members are hashable values (strings, in the protocol) returns the
    records of that channel's members that are in the registry; with no
    channel field, or with a hashable channel that is not in the index, it
    returns the whole registry; the count is the number of records
    returned.  A member that is a JSON array or object, which join_channel
    accepts, makes the lookup in the registry raise: get_peers for its
    channel is answered with an error. *)
Theorem get_peers_result s now request :
  reachable s ->
  get request "method" JNull = JStr "get_peers" ->
  let channel := get request "channel" JNull in
  (forall members,
      find channel (channels s) = Some members ->
      Forall (fun pid => hashable pid = true) members ->
      handle_client now (Decoded (JObj request)) s
      = (Some (RespPeers (members_records members (peers s)) channel
                 (length (members_records members (peers s)))), s)) /\
  (forall members,
      find channel (channels s) = Some members ->
      ~ Forall (fun pid => hashable pid = true) members ->
      exists pid,
        In pid members /\ hashable pid = false /\
        handle_client now (Decoded (JObj request)) s
        = (Some (RespError (StrOf (TypeError_unhashable pid))), s)) /\
  (assoc "channel" request = None ->
      handle_client now (Decoded (JObj request)) s
      = (Some (RespPeers (peers s) JNull (length (peers s))), s)) /\
  (hashable channel = true -> find channel (channels s) = None ->
      handle_client now (Decoded (JObj request)) s
      = (Some (RespPeers (peers s) channel (length (peers s))), s)).
Proof.
  intros Hr Hm channel. unfold handle_client.
  rewrite route_get_peers by auto.
  split; [|split; [|split]].
  - intros members Hf Hall.
    destruct (Inv_channel _ _ _ (reachable_Inv s Hr) Hf) as (Ht & Hh & _ & Hd).
    now rewrite (get_peer_list_channel request s members).
  - intros members Hf Hnot.
    destruct (Inv_channel _ _ _ (reachable_Inv s Hr) Hf) as (Ht & Hh & _ & Hd).
    destruct (peers_of_raises members s Hnot []) as (pid & Hin & Hp & Hrun).
    exists pid. split; [exact Hin|]. split; [exact Hp|].
    unfold get_peer_list. cbv zeta. run_monad. fold channel.
    rewrite Ht, Hh, Hf. rewrite Hf. now rewrite Hrun.
  - intros Hn. rewrite get_peer_list_all.
    + unfold get. now rewrite Hn.
    + left. unfold get. now rewrite Hn.
  - intros Hh Hn. now rewrite get_peer_list_all by auto.
Qed.

Lemma get_peers_result_witness :
  let request := [("method", JStr "get_peers"); ("channel", JStr "general")] in
  reachable both_in_general /\
  get request "method" JNull = JStr "get_peers" /\
  find (JStr "general") (channels both_in_general)
  = Some [JStr "a1"; JStr "b1"] /\
  Forall (fun pid => hashable pid = true) [JStr "a1"; JStr "b1"] /\
  handle_client "2024-01-01T10:00:05" (Decoded (JObj request)) both_in_general
  = (Some (RespPeers
             [(JStr "a1", {| ip := JStr "127.0.0.1"; port := JInt 9001;
                             username := JStr "Alice";
                             timestamp := "2024-01-01T10:00:00" |});
              (JStr "b1", {| ip := JStr "127.0.0.1"; port := JInt 9002;
                             username := JStr "Bob";
                             timestamp := "2024-01-01T10:00:01" |})]
             (JStr "general") 2),
     both_in_general).
Proof.
  intros request.
  assert (Hr : reachable both_in_general)
    by apply reachable_after, reachable_init.
  assert (Hall : Forall (fun pid => hashable pid = true)
                   [JStr "a1"; JStr "b1"]) by (repeat constructor).
  split; [exact Hr|]. split; [reflexivity|]. split; [reflexivity|].
  split; [exact Hall|].
  exact (proj1 (get_peers_result both_in_general "2024-01-01T10:00:05"
                  request Hr eq_refl)
           [JStr "a1"; JStr "b1"] eq_refl Hall).
Defined.

(** *** Channels *)

Lemma list_contains_snoc_same p members :
  hashable p = true -> list_contains p (members ++ [p]) = true.
Proof.
  intros H. rewrite list_contains_app. unfold list_contains at 2. simpl.
  rewrite py_eq_refl by auto. now rewrite orb_true_r.
Qed.

Lemma join_index_contains p c d :
  hashable p = true -> hashable c = true ->
  exists members,
    find c (join_index p c d) = Some members /\
    list_contains p members = true.
Proof.
  intros Hp Hc. unfold join_index.
  destruct (find c d) as [members|] eqn:E.
  - destruct (list_contains p members) eqn:Hin.
    + eauto.
    + exists (members ++ [p]). rewrite find_update_same by auto.
      auto using list_contains_snoc_same.
  - exists [p]. rewrite find_update_same by auto.
    split; auto. apply (list_contains_snoc_same p []); auto.
Qed.

Lemma join_index_idempotent p c d :
  hashable p = true -> hashable c = true ->
  join_index p c (join_index p c d) = join_index p c d.
Proof.
  intros Hp Hc.
  destruct (join_index_contains p c d Hp Hc) as (members & Hf & Hin).
  unfold join_index at 1. now rewrite Hf, Hin.
Qed.

(** C4.  Joining is idempotent: handling the same join_channel request a
    second time leaves the state, and so the member list of the channel,
    exactly as the first left it; when the join is accepted the peer is then
    a member of the channel. *)
Theorem join_channel_idempotent s now now' request :
  get request "method" JNull = JStr "join_channel" ->
  hashable (get request "peer_id" JNull) = true ->
  let once := handle_client now (Decoded (JObj request)) s in
  let twice := handle_client now' (Decoded (JObj request)) (snd once) in
  snd twice = snd once /\
  (forall channel, fst once = Some (RespJoined channel) ->
     fst twice = Some (RespJoined channel) /\
     exists members,
       find channel (channels (snd once)) = Some members /\
       list_contains (get request "peer_id" JNull) members = true).
Proof.
  intros Hm Hp. cbv zeta. unfold handle_client.
  rewrite !route_join_channel by auto. rewrite !join_channel_run. cbv zeta.
  destruct (negb (all _)) eqn:Hall; simpl.
  { split; [reflexivity | discriminate]. }
  destruct (hashable (get request "channel" JNull)) eqn:Hc; simpl.
  - unfold logged. destruct (forallb printable _); simpl;
      rewrite join_index_idempotent by auto.
    + split; [reflexivity|]. intros channel [= <-].
      split; [reflexivity|]. now apply join_index_contains.
    + split; [reflexivity | discriminate].
  - split; [reflexivity | discriminate].
Qed.

Lemma join_channel_idempotent_witness :
  let request := ("method", JStr "join_channel") :: in_general "a1" in
  let once := handle_client "2024-01-01T10:00:04" (Decoded (JObj request))
                alice_registered in
  let twice := handle_client "2024-01-01T10:00:05" (Decoded (JObj request))
                 (snd once) in
  get request "method" JNull = JStr "join_channel" /\
  hashable (get request "peer_id" JNull) = true /\
  snd twice = snd once /\
  find (JStr "general") (channels (snd twice)) = Some [JStr "a1"].
Proof.
  intros request once twice.
  split; [reflexivity|]. split; [reflexivity|].
  destruct (join_channel_idempotent alice_registered "2024-01-01T10:00:04"
              "2024-01-01T10:00:05" request eq_refl eq_refl) as [Hsame _].
  split; [exact Hsame | reflexivity].
Defined.

(** *** The registry *)

Lemma peers_of_distinct peer_ids s : forall acc peer_list s',
  distinct_keys acc ->
  peers_of peer_ids acc s = (Ok peer_list, s') ->
  distinct_keys peer_list.
Proof.
  induction peer_ids as [|pid rest IH]; intros acc peer_list s' Hacc; simpl.
  - unfold ret. now intros [= <- _].
  - run_monad. destruct (hashable pid) eqn:Hh; [|discriminate].
    destruct (find pid (peers s)) as [record|] eqn:E; rewrite ?E.
    + apply IH. now apply distinct_keys_update.
    + now apply IH.
Qed.

Lemma get_peer_list_distinct request s peer_list channel count s' :
  distinct_keys (peers s) ->
  get_peer_list request s = (Ok (RespPeers peer_list channel count), s') ->
  distinct_keys peer_list.
Proof.
  intros Hd. unfold get_peer_list. cbv zeta. run_monad.
  destruct (truthy _).
  - destruct (hashable _); [|discriminate].
    destruct (find _ (channels s)) as [members|] eqn:E; rewrite ?E.
    + destruct (peers_of members [] s) as [[pl|e] s0] eqn:Hp; [|discriminate].
      intros [= <- _ _ _].
      apply (peers_of_distinct members s [] pl s0 I Hp).
    + now intros [= <- _ _ _].
  - now intros [= <- _ _ _].
Qed.

(** C6.  Registering a peer id that is already in the registry overwrites
    its single record in place: the keys of the registry and their order
    are unchanged, the record under the peer id holds the new ip, port,
    username and timestamp, and the other records and the channels are
    untouched.  This holds whatever the tracker answers: the success
    response when the log line of the registration could be written, and
    otherwise the error response for that line, which comes after the
    overwrite.  In every state of the tracker, the peers map of a get_peers
    response has no two entries for the same peer id. *)
Theorem registry_upsert s :
  reachable s ->
  (forall now request old,
      let peer_id := get request "peer_id" JNull in
      let record := {| ip := get request "ip" JNull;
                       port := get request "port" JNull;
                       username := get request "username" (JStr "Anonymous");
                       timestamp := now |} in
      get request "method" JNull = JStr "register" ->
      all [peer_id; get request "ip" JNull; get request "port" JNull] = true ->
      find peer_id (peers s) = Some old ->
      let result := handle_client now (Decoded (JObj request)) s in
      let line := [peer_id; username record; ip record; port record] in
      fst result
      = Some (if forallb printable line
              then RespRegistered peer_id (username record)
              else RespError (StrOf (UnicodeEncodeError line))) /\
      keys (peers (snd result)) = keys (peers s) /\
      find peer_id (peers (snd result)) = Some record /\
      (forall other, py_eq peer_id other = false ->
                     find other (peers (snd result)) = find other (peers s)) /\
      channels (snd result) = channels s) /\
  (forall now request peer_list channel count,
      fst (handle_client now (Decoded (JObj request)) s)
      = Some (RespPeers peer_list channel count) ->
      distinct_keys peer_list).
Proof.
  intros Hr. destruct (reachable_Inv s Hr) as (Hdp & Hdc & Hok). split.
  - intros now request old peer_id record Hm Hall Hf result line.
    pose proof (find_hashable _ _ _ Hdp Hf) as Hh.
    subst result line. unfold handle_client.
    rewrite route_register, register_peer_run by auto. cbv zeta.
    fold peer_id. rewrite Hall, Hh. unfold logged. cbn [negb ip port username].
    destruct (forallb printable _); cbn [fst snd peers channels];
      (split; [reflexivity|]; split; [|split; [|split]]);
      solve [ eapply keys_update_found; eauto
            | now apply find_update_same
            | intros other Hne; now apply find_update_other
            | reflexivity ].
  - intros now request peer_list channel count. unfold handle_client.
    destruct (route now (JObj request) s) as [[resp|e] s'] eqn:E; simpl;
      [|discriminate].
    intros [= ->]. revert E. rewrite route_run.
    destruct (printable _); [|discriminate].
    unfold dispatch. cbv zeta.
    repeat match goal with
           | |- context [if ?b then _ else _] => destruct b
           end.
    + rewrite register_peer_run. cbv zeta. unfold logged.
      repeat match goal with
             | |- context [if ?b then _ else _] => destruct b
             end; discriminate.
    + now apply get_peer_list_distinct.
    + rewrite join_channel_run. cbv zeta. unfold logged.
      repeat match goal with
             | |- context [if ?b then _ else _] => destruct b
             end; discriminate.
    + rewrite leave_channel_run. cbv zeta. unfold logged.
      repeat match goal with
             | |- context [if ?b then _ else _] => destruct b
             end; discriminate.
    + unfold get_channels. cbv zeta. destruct (negb _); discriminate.
    + rewrite logout_peer_run by auto. cbv zeta. unfold logged.
      repeat match goal with
             | |- context [if ?b then _ else _] => destruct b
             end; discriminate.
    + discriminate.
Qed.

Lemma registry_upsert_witness :
  let request := [("method", JStr "register"); ("peer_id", JStr "a1");
                  ("ip", JStr "10.0.0.7"); ("port", JInt 9100);
                  ("username", JStr "Alicia")] in
  let result := handle_client "2024-01-01T11:00:00" (Decoded (JObj request))
                  both_in_general in
  reachable both_in_general /\
  get request "method" JNull = JStr "register" /\
  all [JStr "a1"; JStr "10.0.0.7"; JInt 9100] = true /\
  find (JStr "a1") (peers both_in_general)
  = Some {| ip := JStr "127.0.0.1"; port := JInt 9001;
            username := JStr "Alice"; timestamp := "2024-01-01T10:00:00" |} /\
  keys (peers (snd result)) = [JStr "a1"; JStr "b1"] /\
  find (JStr "a1") (peers (snd result))
  = Some {| ip := JStr "10.0.0.7"; port := JInt 9100;
            username := JStr "Alicia"; timestamp := "2024-01-01T11:00:00" |}.
Proof.
  intros request result.
  assert (Hr : reachable both_in_general)
    by apply reachable_after, reachable_init.
  split; [exact Hr|]. split; [reflexivity|]. split; [reflexivity|].
  split; [reflexivity|].
  destruct (proj1 (registry_upsert both_in_general Hr)
              "2024-01-01T11:00:00" request _ eq_refl eq_refl eq_refl)
    as (_ & Hkeys & Hrec & _).
  split; [exact Hkeys | exact Hrec].
Defined.

(** *** Logout and channel garbage collection *)

Lemma filter_none {A} (f : A -> bool) l :
  (forall x, In x l -> f x = false) -> filter f l = [].
Proof.
  induction l as [|x l IH]; simpl; auto.
  intros H. rewrite (H x) by auto. auto.
Qed.

Lemma purge_no_member p d c members :
  hashable p = true -> Forall channel_ok d ->
  In (c, members) (purge p d) ->
  list_contains p members = false /\ members <> [].
Proof.
  intros Hp Hok Hin. apply In_purge in Hin as (ms & Hin & -> & Hne).
  rewrite Forall_forall in Hok. destruct (Hok _ Hin) as (_ & _ & Hd).
  split; auto using list_contains_strip.
Qed.

(** An empty peer id is refused by logout_peer: the tracker answers a
    logout of a peer id that is not registered with an error. *)
Lemma logout_cascade_counterexample :
  let request := [("method", JStr "logout"); ("peer_id", JStr "")] in
  reachable alice_in_general /\
  find (get request "peer_id" JNull) (peers alice_in_general) = None /\
  handle_client "2024-01-01T12:00:00" (Decoded (JObj request))
    alice_in_general
  = (Some (RespError (Msg "Missing required field: peer_id")),
     alice_in_general) /\
  status (RespError (Msg "Missing required field: peer_id")) = "error".
Proof.
  split; [apply reachable_after, reachable_init|].
  repeat split.
Qed.

(** C7, as the code has it.  For a peer id p that is truthy and hashable (a
    non-empty string, in the protocol), logout(p) removes the record of p
    from the registry and removes p from every channel of the index,
    deleting the channels that this empties, and get_channels(p) then
    answers with a success and an empty list.  The answer to the logout is
    the success response, whether or not p was registered, when the log
    line of the logout could be written; otherwise it is the error response
    for that line, after the removal. *)
Theorem logout_cascade s now request :
  reachable s ->
  get request "method" JNull = JStr "logout" ->
  let peer_id := get request "peer_id" JNull in
  truthy peer_id = true ->
  hashable peer_id = true ->
  let result := handle_client now (Decoded (JObj request)) s in
  fst result
  = Some (if printable peer_id then RespLoggedOut
          else RespError (StrOf (UnicodeEncodeError [peer_id]))) /\
  status RespLoggedOut = "success" /\
  peers (snd result) = remove_key peer_id (peers s) /\
  find peer_id (peers (snd result)) = None /\
  channels (snd result) = purge peer_id (channels s) /\
  (forall channel members,
      In (channel, members) (channels (snd result)) ->
      list_contains peer_id members = false /\ members <> []) /\
  (forall now' request',
      get request' "method" JNull = JStr "get_channels" ->
      get request' "peer_id" JNull = peer_id ->
      handle_client now' (Decoded (JObj request')) (snd result)
      = (Some (RespChannels [] 0), snd result)).
Proof.
  intros Hr Hm peer_id Ht Hh result.
  destruct (reachable_Inv s Hr) as (Hdp & Hdc & Hok).
  assert (Hres : result
                 = (Some (if printable peer_id then RespLoggedOut
                          else RespError
                                 (StrOf (UnicodeEncodeError [peer_id]))),
                    {| peers := remove_key peer_id (peers s);
                       channels := purge peer_id (channels s) |})).
  { subst result. unfold handle_client.
    rewrite route_logout, logout_peer_run by auto. cbv zeta.
    fold peer_id. rewrite Ht, Hh. unfold logged. cbn [negb forallb].
    rewrite andb_true_r. now destruct (printable peer_id). }
  rewrite Hres. cbn [fst snd peers channels].
  split; [reflexivity|]. split; [reflexivity|]. split; [reflexivity|].
  split; [now apply find_remove_key_same|]. split; [reflexivity|].
  split.
  - intros channel members. now apply purge_no_member.
  - intros now' request' Hm' Hp'. unfold handle_client.
    rewrite route_get_channels by auto.
    unfold get_channels. cbv zeta. rewrite Hp', Ht. simpl.
    rewrite filter_none; [reflexivity|].
    intros [channel members] Hin. simpl.
    now apply (purge_no_member peer_id (channels s) channel members).
Qed.

Lemma logout_cascade_witness :
  let request := [("method", JStr "logout"); ("peer_id", JStr "a1")] in
  let result := handle_client "2024-01-01T12:00:00" (Decoded (JObj request))
                  both_in_general in
  reachable both_in_general /\
  get request "method" JNull = JStr "logout" /\
  truthy (get request "peer_id" JNull) = true /\
  hashable (get request "peer_id" JNull) = true /\
  fst result = Some RespLoggedOut /\
  keys (peers (snd result)) = [JStr "b1"] /\
  channels (snd result) = [(JStr "general", [JStr "b1"])].
Proof.
  intros request result.
  assert (Hr : reachable both_in_general)
    by apply reachable_after, reachable_init.
  split; [exact Hr|]. split; [reflexivity|]. split; [reflexivity|].
  split; [reflexivity|].
  destruct (logout_cascade both_in_general "2024-01-01T12:00:00" request
              Hr eq_refl eq_refl eq_refl) as (Hresp & _ & Hp & _ & Hc & _).
  split; [exact Hresp|]. split.
  - fold result in Hp. rewrite Hp. reflexivity.
  - fold result in Hc. rewrite Hc. reflexivity.
Defined.

Lemma leave_last_member p c m d :
  hashable c = true -> distinct_keys d ->
  find c d = Some [m] -> py_eq m p = true ->
  find c (leave_index p c d) = None.
Proof.
  intros Hc Hd Hf E. unfold leave_index. rewrite Hf.
  unfold list_contains. simpl. rewrite E. simpl.
  now apply find_remove_key_same.
Qed.

Lemma purge_last_member p c m d :
  distinct_keys d ->
  find c d = Some [m] -> py_eq m p = true ->
  find c (purge p d) = None.
Proof.
  intros Hd Hf E. apply find_None. intros k ms' Hin.
  apply In_purge in Hin as (ms & Hin & -> & Hne).
  destruct (py_eq k c) eqn:Ek; auto.
  exfalso. rewrite (find_In d c k ms Hd Hin Ek) in Hf.
  injection Hf as ->. apply Hne.
  unfold strip, list_contains. simpl. now rewrite E.
Qed.

Lemma user_channels_absent c p (d : dict (list json)) :
  find c d = None ->
  list_contains c
    (map fst (filter (fun entry => list_contains p (snd entry)) d)) = false.
Proof.
  unfold list_contains.
  induction d as [|[k ms] d IH]; simpl; auto.
  destruct (py_eq k c) eqn:E; [discriminate|]. intros Hf.
  destruct (existsb _ ms); simpl; rewrite ?E; auto.
Qed.

Lemma absent_channel_unlisted c s :
  reachable s -> hashable c = true -> find c (channels s) = None ->
  channel_absent c s.
Proof.
  intros Hr Hc Hf. destruct (reachable_Inv s Hr) as (Hdp & Hdc & Hok).
  split; [exact Hf|]. split.
  - intros now request user_channels count. unfold handle_client.
    destruct (route now (JObj request) s) as [[resp|e] s'] eqn:E; simpl;
      [|discriminate].
    intros [= ->]. revert E. rewrite route_run.
    destruct (printable _); [|discriminate].
    unfold dispatch. cbv zeta.
    repeat match goal with
           | |- context [if ?b then _ else _] => destruct b
           end.
    + rewrite register_peer_run. cbv zeta. unfold logged.
      repeat match goal with
             | |- context [if ?b then _ else _] => destruct b
             end; discriminate.
    + intros E. exfalso. revert E.
      unfold get_peer_list. cbv zeta. run_monad.
      repeat match goal with
             | |- context [match ?b with _ => _ end] => destruct b
             end; discriminate.
    + rewrite join_channel_run. cbv zeta. unfold logged.
      repeat match goal with
             | |- context [if ?b then _ else _] => destruct b
             end; discriminate.
    + rewrite leave_channel_run. cbv zeta. unfold logged.
      repeat match goal with
             | |- context [if ?b then _ else _] => destruct b
             end; discriminate.
    + unfold get_channels. cbv zeta. destruct (negb _); [discriminate|].
      intros [= <- _ _]. now apply user_channels_absent.
    + rewrite logout_peer_run by auto. cbv zeta. unfold logged.
      repeat match goal with
             | |- context [if ?b then _ else _] => destruct b
             end; discriminate.
    + discriminate.
  - intros now request Hm Hch. subst c. unfold handle_client.
    rewrite route_get_peers by auto.
    now rewrite get_peer_list_all by auto.
Qed.

(** Only join_channel creates a channel: a name that is no key of the
    index is none after a connection that does not ask to join it. *)
Lemma find_None_keys {V} (d : dict V) c :
  find c d = None <-> existsb (fun k => py_eq k c) (keys d) = false.
Proof.
  induction d as [|[k v] d IH]; simpl; [tauto|].
  destruct (py_eq k c); simpl; [split; discriminate | exact IH].
Qed.

Lemma find_leave_index_None p c c' (d : dict (list json)) :
  find c d = None -> find c (leave_index p c' d) = None.
Proof.
  intros Hf. unfold leave_index.
  destruct (find c' d) as [members|] eqn:E; auto.
  destruct (list_contains p members); auto.
  destruct (remove_first p members) as [|m ms].
  - rewrite find_None in *. eauto using In_remove_key.
  - apply find_None_keys. erewrite keys_update_found by eauto.
    now apply find_None_keys.
Qed.

Lemma find_join_index_None p c c' (d : dict (list json)) :
  hashable c' = true -> py_eq c' c = false ->
  find c d = None -> find c (join_index p c' d) = None.
Proof.
  intros Hh Hne Hf. unfold join_index.
  destruct (find c' d) as [members|].
  - destruct (list_contains p members); auto.
    now rewrite find_update_other.
  - now rewrite find_update_other.
Qed.

Lemma absent_step now data c s :
  Inv s -> find c (channels s) = None -> joins c data = false ->
  find c (channels (snd (handle_client now data s))) = None.
Proof.
  intros (_ & Hdc & _) Hf Hj. destruct data as [| | |document]; auto.
  rewrite handle_client_state.
  destruct document as [| | | | |request]; auto.
  destruct (route_state now request s) as [-> | ->]; auto.
  unfold dispatch. cbv zeta. simpl in Hj.
  destruct (py_eq _ (JStr "register")).
  { rewrite register_peer_run. cbv zeta.
    repeat match goal with
           | |- context [if ?b then _ else _] => destruct b
           end; auto. }
  destruct (py_eq _ (JStr "get_peers")).
  { now rewrite get_peer_list_state. }
  destruct (py_eq _ (JStr "join_channel")).
  { rewrite join_channel_run. cbv zeta. simpl in Hj.
    destruct (negb (all _)); auto.
    destruct (hashable _) eqn:Hh; auto.
    cbn [snd channels]. now apply find_join_index_None. }
  destruct (py_eq _ (JStr "leave_channel")).
  { rewrite leave_channel_run. cbv zeta.
    destruct (negb (all _)); auto.
    destruct (hashable _); auto.
    cbn [snd channels]. now apply find_leave_index_None. }
  destruct (py_eq _ (JStr "get_channels")).
  { now rewrite get_channels_state. }
  destruct (py_eq _ (JStr "logout")); auto.
  rewrite logout_peer_run by auto. cbv zeta.
  destruct (negb (truthy _)); auto.
  destruct (hashable _); auto.
  cbn [snd channels]. now apply find_purge_None.
Qed.

Lemma absent_after c trace : forall s,
  reachable s -> find c (channels s) = None ->
  Forall (fun event => joins c (snd event) = false) trace ->
  find c (channels (after trace s)) = None.
Proof.
  induction trace as [|[now data] trace IH]; intros s Hr Hf Ht; simpl; auto.
  inversion Ht as [|? ? Hj Ht']; subst. simpl in Hj.
  apply IH; auto using reachable_step.
  apply absent_step; auto using reachable_Inv.
Qed.

(** After its last member has left, a get_peers request that names the
    channel is still answered with a result that names it, and that holds
    the record of every registered peer. *)
Lemma channel_garbage_collection_counterexample :
  let leave := ("method", JStr "leave_channel") :: in_general "a1" in
  let s' := snd (handle_client "2024-01-01T13:00:00" (Decoded (JObj leave))
                   alice_in_general) in
  reachable alice_in_general /\
  find (JStr "general") (channels alice_in_general) = Some [JStr "a1"] /\
  channels s' = [] /\
  handle_client "2024-01-01T13:00:05"
    (request_of "get_peers" [("channel", JStr "general")]) s'
  = (Some (RespPeers
             [(JStr "a1", {| ip := JStr "127.0.0.1"; port := JInt 9001;
                             username := JStr "Alice";
                             timestamp := "2024-01-01T10:00:00" |})]
             (JStr "general") 1),
     s').
Proof.
  split; [apply reachable_after, reachable_init|].
  repeat split.
Qed.

(** C5, as the code has it.  In every state of the tracker, and so after
    every operation, each channel of the index has a non-empty member list.
    When leave_channel or logout removes the last member of a channel, the
    entry of the channel is deleted, and it stays deleted through every
    later connection until one asks to join the channel again: the channel
    is no key of the index and no get_channels response lists it.  A
    get_peers request that names it is answered as for any unknown channel:
    with the whole registry, and with the requested name in its channel
    field. *)
Theorem channel_garbage_collection s :
  reachable s ->
  (forall channel members,
      In (channel, members) (channels s) -> members <> []) /\
  (forall now data channel members,
      In (channel, members) (channels (snd (handle_client now data s))) ->
      members <> []) /\
  (forall now request last later,
      let peer_id := get request "peer_id" JNull in
      let channel := get request "channel" JNull in
      get request "method" JNull = JStr "leave_channel" ->
      truthy peer_id = true ->
      find channel (channels s) = Some [last] ->
      py_eq last peer_id = true ->
      Forall (fun event => joins channel (snd event) = false) later ->
      channel_absent channel
        (after later (snd (handle_client now (Decoded (JObj request)) s)))) /\
  (forall now request channel last later,
      let peer_id := get request "peer_id" JNull in
      get request "method" JNull = JStr "logout" ->
      truthy peer_id = true ->
      hashable peer_id = true ->
      find channel (channels s) = Some [last] ->
      py_eq last peer_id = true ->
      Forall (fun event => joins channel (snd event) = false) later ->
      channel_absent channel
        (after later (snd (handle_client now (Decoded (JObj request)) s)))).
Proof.
  intros Hr.
  assert (Hne : forall s0, reachable s0 -> forall channel members,
               In (channel, members) (channels s0) -> members <> []).
  { intros s0 H0 channel members Hin.
    destruct (reachable_Inv s0 H0) as (_ & _ & Hok).
    rewrite Forall_forall in Hok. now destruct (Hok _ Hin) as (_ & H & _). }
  pose proof (reachable_Inv s Hr) as HI.
  destruct HI as (Hdp & Hdc & Hok).
  split; [now apply Hne|].
  split; [intros now data; apply Hne; now apply reachable_step|].
  split.
  - intros now request last later peer_id channel Hm Ht Hf E Hlater.
    destruct (Inv_channel s channel [last] (conj Hdp (conj Hdc Hok)) Hf)
      as (Htc & Hhc & _).
    apply absent_channel_unlisted;
      auto using reachable_step, reachable_after.
    apply absent_after; auto using reachable_step.
    rewrite handle_client_state, route_leave_channel by auto.
    rewrite leave_channel_run. cbv zeta. fold peer_id channel.
    assert (all [peer_id; channel] = true) as ->
        by (simpl; now rewrite Ht, Htc).
    rewrite Hhc. cbn [negb snd channels].
    now apply (leave_last_member peer_id channel last).
  - intros now request channel last later peer_id Hm Ht Hh Hf E Hlater.
    destruct (Inv_channel s channel [last] (conj Hdp (conj Hdc Hok)) Hf)
      as (Htc & Hhc & _).
    apply absent_channel_unlisted;
      auto using reachable_step, reachable_after.
    apply absent_after; auto using reachable_step.
    rewrite handle_client_state, route_logout by auto.
    rewrite logout_peer_run by auto. cbv zeta. fold peer_id.
    rewrite Ht, Hh. cbn [negb snd channels].
    now apply (purge_last_member peer_id channel last).
Qed.

Lemma channel_garbage_collection_witness :
  let leave := ("method", JStr "leave_channel") :: in_general "a1" in
  let logout := [("method", JStr "logout"); ("peer_id", JStr "a1")] in
  let later := [("2024-01-01T13:00:01", request_of "register" bob);
                ("2024-01-01T13:00:02",
                 request_of "join_channel"
                   [("peer_id", JStr "b1"); ("channel", JStr "random")])] in
  reachable alice_in_general /\
  find (JStr "general") (channels alice_in_general) = Some [JStr "a1"] /\
  py_eq (JStr "a1") (JStr "a1") = true /\
  Forall (fun event => joins (JStr "general") (snd event) = false) later /\
  channel_absent (JStr "general")
    (after later
       (snd (handle_client "2024-01-01T13:00:00" (Decoded (JObj leave))
               alice_in_general))) /\
  channel_absent (JStr "general")
    (after later
       (snd (handle_client "2024-01-01T13:00:00" (Decoded (JObj logout))
               alice_in_general))).
Proof.
  intros leave logout later.
  assert (Hr : reachable alice_in_general)
    by apply reachable_after, reachable_init.
  assert (Hlater : Forall (fun event =>
                             joins (JStr "general") (snd event) = false)
                     later) by (repeat constructor).
  split; [exact Hr|]. split; [reflexivity|]. split; [reflexivity|].
  split; [exact Hlater|].
  destruct (channel_garbage_collection alice_in_general Hr)
    as (_ & _ & Hleave & Hlogout).
  split.
  - exact (Hleave "2024-01-01T13:00:00" leave (JStr "a1") later
             eq_refl eq_refl eq_refl eq_refl Hlater).
  - exact (Hlogout "2024-01-01T13:00:00" logout (JStr "general") (JStr "a1")
             later eq_refl eq_refl eq_refl eq_refl eq_refl Hlater).
Defined.

(** *** Validation *)

Lemma assoc_without_same key request :
  assoc key (without key request) = None.
Proof.
  induction request as [|[k v] request IH]; simpl; auto.
  destruct (k =? key) eqn:E; simpl; auto. now rewrite E.
Qed.

Lemma assoc_without_other key key' request :
  key <> key' -> assoc key' (without key request) = assoc key' request.
Proof.
  intros Hne. induction request as [|[k v] request IH]; simpl; auto.
  destruct (k =? key) eqn:E; simpl.
  - apply String.eqb_eq in E. subst k.
    destruct (key =? key') eqn:E'; auto.
    apply String.eqb_eq in E'. contradiction.
  - now rewrite IH.
Qed.

Lemma get_without_same key request default :
  get (without key request) key default = default.
Proof. unfold get. now rewrite assoc_without_same. Qed.

Lemma get_without_other key key' request default :
  key <> key' ->
  get (without key request) key' default = get request key' default.
Proof. intros H. unfold get. now rewrite assoc_without_other. Qed.

Lemma required_field_not_method method field :
  In field (required_fields method) -> field <> "method".
Proof.
  unfold required_fields.
  repeat match goal with
         | |- context [if ?b then _ else _] => destruct b
         end; simpl; intuition (subst; discriminate).
Qed.

Lemma falsy_field_rejected s now request method field :
  get request "method" JNull = JStr method ->
  In field (required_fields method) ->
  truthy (get request field JNull) = false ->
  handle_client now (Decoded (JObj request)) s
  = (Some (RespError (Msg (missing_message method))), s).
Proof.
  intros Hm Hin Hf. unfold handle_client.
  unfold required_fields, missing_message in *.
  destruct (method =? "register") eqn:E1.
  { apply String.eqb_eq in E1. subst method.
    rewrite route_register, register_peer_run by auto. cbv zeta.
    assert (all [get request "peer_id" JNull; get request "ip" JNull;
                 get request "port" JNull] = false) as ->; [|reflexivity].
    simpl in *. destruct Hin as [<-|[<-|[<-|[]]]]; rewrite Hf;
      now rewrite ?andb_false_r. }
  destruct (method =? "join_channel") eqn:E2.
  { apply String.eqb_eq in E2. subst method.
    rewrite route_join_channel, join_channel_run by auto. cbv zeta.
    assert (all [get request "peer_id" JNull; get request "channel" JNull]
            = false) as ->; [|reflexivity].
    simpl in *. destruct Hin as [<-|[<-|[]]]; rewrite Hf;
      now rewrite ?andb_false_r. }
  destruct (method =? "leave_channel") eqn:E3.
  { apply String.eqb_eq in E3. subst method.
    rewrite route_leave_channel, leave_channel_run by auto. cbv zeta.
    assert (all [get request "peer_id" JNull; get request "channel" JNull]
            = false) as ->; [|reflexivity].
    simpl in *. destruct Hin as [<-|[<-|[]]]; rewrite Hf;
      now rewrite ?andb_false_r. }
  destruct (method =? "get_channels") eqn:E4.
  { apply String.eqb_eq in E4. subst method.
    rewrite route_get_channels by auto. unfold get_channels. cbv zeta.
    simpl in *. destruct Hin as [<-|[]]. now rewrite Hf. }
  destruct (method =? "logout") eqn:E5.
  { apply String.eqb_eq in E5. subst method.
    rewrite route_logout by auto. unfold logout_peer. cbv zeta.
    simpl in *. destruct Hin as [<-|[]]. now rewrite Hf. }
  destruct Hin.
Qed.

(** C10.  Validation tests truthiness, not presence: a request whose
    required field is present but falsy (port 0, an empty string as peer_id,
    ip or channel, and likewise null, false, an empty list or object) is
    answered with the handler's 'Missing required field(s)' error and
    changes nothing, exactly as the same request without that field. *)
Theorem falsy_required_field_is_missing s now request method field :
  get request "method" JNull = JStr method ->
  In field (required_fields method) ->
  truthy (get request field JNull) = false ->
  handle_client now (Decoded (JObj request)) s
  = (Some (RespError (Msg (missing_message method))), s) /\
  handle_client now (Decoded (JObj (without field request))) s
  = handle_client now (Decoded (JObj request)) s.
Proof.
  intros Hm Hin Hf.
  pose proof (required_field_not_method _ _ Hin) as Hne.
  rewrite (falsy_field_rejected s now request method field) by auto.
  split; [reflexivity|].
  apply (falsy_field_rejected s now _ method field); auto.
  - now rewrite get_without_other.
  - now rewrite get_without_same.
Qed.

Lemma falsy_required_field_is_missing_witness :
  let request := [("method", JStr "register"); ("peer_id", JStr "a1");
                  ("ip", JStr "127.0.0.1"); ("port", JInt 0)] in
  get request "method" JNull = JStr "register" /\
  In "port" (required_fields "register") /\
  truthy (get request "port" JNull) = false /\
  handle_client "2024-01-01T00:00:00" (Decoded (JObj request)) init
  = (Some (RespError (Msg "Missing required fields: peer_id, ip, port")),
     init) /\
  handle_client "2024-01-01T00:00:00"
    (Decoded (JObj (without "port" request))) init
  = handle_client "2024-01-01T00:00:00" (Decoded (JObj request)) init.
Proof.
  intros request.
  split; [reflexivity|].
  split; [simpl; tauto|].
  split; [reflexivity|].
  apply (falsy_required_field_is_missing init "2024-01-01T00:00:00" request
           "register" "port" eq_refl
           (or_intror (or_intror (or_introl eq_refl))) eq_refl).
Defined.

End TrackerSpec.

(* ================================================================= *)
(** ** Properties of the peer overlay *)

Module PeerSpec.
Import Py PyFacts Peer.

(** The loop of [send_message] over the snapshot of the connection table:
    the entries already visited are [done], the others [todo]. *)
Lemma send_loop fails message u pid chs run cur cons todo :
  forall done sent,
  distinct_keys (done ++ todo) ->
  for_each todo (fun item =>
      try_except
        (send fails (socket (snd item)) message)
        (connections_delitem (fst item)))
    {| client := {| username := u; peer_id := pid;
                    connections := done ++ todo; channels := chs;
                    running := run; current_channel := cur |};
       wire := sent; console := cons |}
  = (Ok tt,
     {| client := {| username := u; peer_id := pid;
                     connections := done ++ delivered fails todo;
                     channels := chs; running := run;
                     current_channel := cur |};
        wire := sent ++ map (fun item => (socket (snd item), message))
                          (delivered fails todo);
        console := cons |}).
Proof.
  induction todo as [|[k c] todo IH]; intros done sent Hd.
  - simpl. unfold ret. now rewrite !app_nil_r.
  - destruct (distinct_keys_before _ _ _ _ Hd) as [Hk Hn].
    simpl for_each. unfold bind at 1, try_except, send. cbn [fst snd client].
    unfold delivered. simpl filter. cbn [snd].
    destruct (fails (socket c)) eqn:Hfail; cbn [negb].
    + unfold connections_delitem, delitem, set_connections.
      cbn [client connections username peer_id channels running
           current_channel wire console].
      rewrite Hk, find_app, Hn. simpl find. rewrite py_eq_refl by auto.
      rewrite remove_key_app_skip by auto. simpl remove_key.
      rewrite py_eq_refl by auto.
      apply IH. eapply distinct_keys_drop; eauto.
    + cbn [client wire console].
      replace (done ++ (k, c) :: todo) with ((done ++ [(k, c)]) ++ todo)
        by now rewrite <- app_assoc.
      rewrite IH by now rewrite <- app_assoc.
      unfold delivered. simpl. now rewrite <- !app_assoc.
Qed.



Lemma chat_outside_current_channel_counterexample :
  py_eq (current_channel (client alice_world)) (JStr "random") = false /\
  handle_incoming_message (JStr "b1")
    (JObj [("type", JStr "chat"); ("channel", JStr "random");
           ("peer_id", JStr "b1"); ("username", JStr "Bob");
           ("content", JStr "hi")])
    alice_world
  = (Ok tt,
     {| client := alice_client;
        wire := [];
        console := [ChatLine (JStr "Bob") (JStr "random") (JStr "hi")] |}).
Proof. split; reflexivity. Qed.

(** C9, as the code has it.  A received message that is a JSON object of
    type "chat" is printed, with its sender, channel and content, whatever
    its channel, whenever that line can be written; what depends on the
    channel being the current one is only whether the input prompt is
    printed again after it.  An object of any other type is ignored:
    nothing is printed and nothing changes.  A message that is not an
    object has no [get]: the handler raises, and prints and changes
    nothing.  When the chat line cannot be written, the handler raises
    with nothing printed; when the prompt cannot, it raises after the chat
    line. *)
Theorem incoming_message_display peer_id message w :
  handle_incoming_message peer_id message w
  = match message with
    | JObj fields =>
        let channel := get fields "channel" (JStr "unknown") in
        let sender := get fields "username" peer_id in
        let content := get fields "content" (JStr "") in
        let line := ChatLine sender channel content in
        let prompt :=
          Prompt (username (client w)) (current_channel (client w)) in
        let shown lines :=
          {| client := client w; wire := wire w;
             console := console w ++ lines |} in
        if py_eq (get fields "type" JNull) (JStr "chat") then
          if forallb printable (values_of line) then
            if py_eq (current_channel (client w)) channel then
              if forallb printable (values_of prompt)
              then (Ok tt, shown [line; prompt])
              else (Raise (UnicodeEncodeError (values_of prompt)),
                    shown [line])
            else (Ok tt, shown [line])
          else (Raise (UnicodeEncodeError (values_of line)), w)
        else (Ok tt, w)
    | other => (Raise (AttributeError_get other), w)
    end.
Proof.
  destruct message as [| | | | |fields]; try reflexivity.
  cbv zeta. unfold handle_incoming_message.
  destruct (py_eq (get fields "type" JNull) (JStr "chat")); [|reflexivity].
  unfold bind, print, when, ret, print_text.
  destruct (forallb printable (values_of (ChatLine _ _ _))); [|reflexivity].
  cbn [client wire console].
  destruct (py_eq (current_channel (client w)) _); [|reflexivity].
  destruct (forallb printable (values_of (Prompt _ _))); [|reflexivity].
  cbn [client wire console]. now rewrite <- app_assoc.
Qed.

End PeerSpec.

(* ================================================================= *)
(** ** Further laws of the tracker *)

Module TrackerLaws.
Import Py PyFacts Tracker TrackerFacts TrackerSpec Client.

(** *** Helpers *)

Lemma find_remove_key_other {V} (d : dict V) k q :
  hashable k = true -> py_eq k q = false ->
  find q (remove_key k d) = find q d.
Proof.
  intros H Hq. induction d as [|[k0 v0] d IH]; simpl; auto.
  destruct (py_eq k0 k) eqn:E; simpl.
  - rewrite (py_eq_sym k0 k) in E by auto.
    rewrite <- (py_eq_congr_l q k k0) by auto.
    now rewrite Hq.
  - destruct (py_eq k0 q); auto.
Qed.

Lemma list_contains_remove_other p q l :
  py_eq q p = false -> hashable p = true ->
  list_contains q (remove_first p l) = list_contains q l.
Proof.
  intros Hqp Hp. unfold list_contains.
  induction l as [|e l IH]; simpl; auto.
  destruct (py_eq e p) eqn:E; simpl.
  - destruct (py_eq e q) eqn:E'; auto.
    exfalso.
    pose proof (py_eq_hashable_l _ _ E Hp) as He.
    apply py_eq_norm in E; auto. apply py_eq_norm in E'; auto.
    assert (py_eq q p = true) by (apply py_eq_norm; [auto | congruence]).
    congruence.
  - now rewrite IH.
Qed.

Lemma update_found_same {V} (d : dict V) k v :
  find k d = Some v -> update k v d = d.
Proof.
  induction d as [|[k0 v0] d IH]; simpl; [discriminate|].
  destruct (py_eq k0 k).
  - now intros [= ->].
  - intros H. f_equal. auto.
Qed.

Lemma remove_first_snoc p l :
  hashable p = true -> list_contains p l = false ->
  remove_first p (l ++ [p]) = l.
Proof.
  intros Hp. unfold list_contains.
  induction l as [|e l IH]; simpl.
  - now rewrite py_eq_refl.
  - intros H. apply orb_false_iff in H as [He Hl]. rewrite He.
    f_equal. auto.
Qed.

Lemma length_update {V} (d : dict V) k v :
  length (update k v d)
  = match find k d with Some _ => length d | None => S (length d) end.
Proof.
  induction d as [|[k0 v0] d IH]; simpl; auto.
  destruct (py_eq k0 k); simpl; auto.
  rewrite IH. now destruct (find k d).
Qed.

Lemma In_find {V} (d : dict V) k v :
  distinct_keys d -> In (k, v) d -> find k d = Some v.
Proof.
  intros Hd Hin. apply (find_In d k k v Hd Hin).
  apply py_eq_refl. eauto using distinct_keys_hashable.
Qed.

(** *** Queries *)

Lemma peers_of_sound members s : forall acc peer_list s',
  (forall k r, In (k, r) acc -> find k (peers s) = Some r /\ In k members) ->
  forall rest, incl rest members ->
  peers_of rest acc s = (Ok peer_list, s') ->
  forall k r, In (k, r) peer_list ->
              find k (peers s) = Some r /\ In k members.
Proof.
  intros acc peer_list s' Hacc rest. revert acc Hacc.
  induction rest as [|pid rest IH]; intros acc Hacc Hincl; simpl.
  - unfold ret. intros [= <- _]. exact Hacc.
  - run_monad. destruct (hashable pid) eqn:Hh; [|discriminate].
    assert (In pid members) by (apply Hincl; now left).
    assert (incl rest members) by (intros x Hx; apply Hincl; now right).
    destruct (find pid (peers s)) as [record|] eqn:E; rewrite ?E.
    + apply IH; auto.
      intros k r Hin.
      apply In_update in Hin as [Hin|[(v0 & Hin & Hv & Hk)|[= -> ->]]]; auto.
      simpl in *. subst r. destruct (Hacc _ _ Hin) as [_ Hm]. split; auto.
      rewrite <- E. apply find_congr; auto.
      eapply py_eq_hashable_l; eauto.
    + apply IH; auto.
Qed.

(** X1.  A get_peers answer is sound and changes nothing: the count is the
    size of the peers map, the channel field echoes the request, every
    record of the map is the record that the registry holds under that key,
    and when the request names a channel of the index every key of the map
    is a member of that channel.  The state is the same afterwards, also
    when the handler raises. *)
Theorem get_peers_sound s now request :
  reachable s ->
  get request "method" JNull = JStr "get_peers" ->
  let result := handle_client now (Decoded (JObj request)) s in
  snd result = s /\
  (forall peer_list channel count,
      fst result = Some (RespPeers peer_list channel count) ->
      count = length peer_list /\
      channel = get request "channel" JNull /\
      (forall k r, In (k, r) peer_list -> find k (peers s) = Some r) /\
      (forall members,
          truthy channel = true ->
          find channel (channels s) = Some members ->
          forall k r, In (k, r) peer_list -> In k members)).
Proof.
  intros Hr Hm result. destruct (reachable_Inv s Hr) as (Hdp & Hdc & Hok).
  subst result. split.
  { rewrite handle_client_state, route_get_peers by auto.
    apply get_peer_list_state. }
  intros peer_list channel count. unfold handle_client.
  rewrite route_get_peers by auto.
  unfold get_peer_list. cbv zeta. run_monad.
  destruct (truthy (get request "channel" JNull)) eqn:Ht.
  - destruct (hashable _) eqn:Hh; [|discriminate].
    destruct (find _ (channels s)) as [members|] eqn:E; rewrite ?E.
    + destruct (peers_of members [] s) as [[pl|e] s0] eqn:Hp; [|discriminate].
      simpl. intros [= <- <- <-].
      pose proof (peers_of_sound members s [] pl s0
                    (fun k r (H : In (k, r) []) => match H with end)
                    members (incl_refl _) Hp) as Hs.
      repeat split; auto.
      * intros k r Hin. now apply Hs in Hin.
      * intros members' _ Heq k r Hin. rewrite ?E in Heq.
        injection Heq as <-. now apply Hs in Hin.
    + simpl. intros [= <- <- <-]. repeat split; auto using In_find.
      congruence.
  - simpl. intros [= <- <- <-]. repeat split; auto using In_find.
    congruence.
Qed.

Lemma get_peers_sound_witness :
  let request := [("method", JStr "get_peers"); ("channel", JStr "general")] in
  let result := handle_client "2024-01-01T10:00:05" (Decoded (JObj request))
                  both_in_general in
  reachable both_in_general /\
  get request "method" JNull = JStr "get_peers" /\
  snd result = both_in_general.
Proof.
  intros request result.
  assert (Hr : reachable both_in_general)
    by apply reachable_after, reachable_init.
  split; [exact Hr|]. split; [reflexivity|].
  exact (proj1 (get_peers_sound both_in_general "2024-01-01T10:00:05"
                  request Hr eq_refl)).
Defined.

Lemma keys_distinct {V} (d : dict V) :
  distinct_keys d -> distinct (keys d).
Proof.
  induction d as [|[k v] d IH]; simpl; auto.
  intros (Hk & Hf & Hd). split; auto.
  rewrite find_None in Hf.
  clear IH Hd. induction d as [|[k' v'] d IH]; simpl; auto.
  rewrite (py_eq_sym k k') by auto.
  rewrite (Hf k' v') by (now left). apply IH.
  intros k0 v0 Hin. apply (Hf k0 v0). now right.
Qed.

Lemma distinct_filter_keys {V} (f : json * V -> bool) (d : dict V) :
  distinct (keys d) -> distinct (keys (filter f d)).
Proof.
  induction d as [|[k v] d IH]; simpl; auto.
  intros [Hk Hd]. destruct (f (k, v)); simpl; auto.
  split; auto.
  clear IH Hd. induction d as [|[k' v'] d IH]; simpl in *; auto.
  apply orb_false_iff in Hk as [Hk' Hk].
  destruct (f (k', v')); simpl; auto. now rewrite Hk', IH.
Qed.

(** X2.  get_channels lists exactly the channel names of the index whose
    member list contains the peer id, in the order of the index, each name
    once; the count is the length of the list and the state is unchanged. *)
Theorem get_channels_exact s now request :
  reachable s ->
  get request "method" JNull = JStr "get_channels" ->
  let peer_id := get request "peer_id" JNull in
  truthy peer_id = true ->
  handle_client now (Decoded (JObj request)) s
  = (Some (RespChannels (channels_of peer_id s)
             (length (channels_of peer_id s))), s) /\
  (forall name,
      In name (channels_of peer_id s) <->
      exists members, In (name, members) (channels s) /\
                      list_contains peer_id members = true) /\
  distinct (channels_of peer_id s).
Proof.
  intros Hr Hm peer_id Ht. destruct (reachable_Inv s Hr) as (Hdp & Hdc & Hok).
  split; [|split].
  - unfold handle_client. rewrite route_get_channels by auto.
    unfold get_channels. cbv zeta. fold peer_id. now rewrite Ht.
  - intros name. unfold channels_of. rewrite in_map_iff. split.
    + intros ([k ms] & <- & Hin). apply filter_In in Hin as [Hin Hc].
      exists ms. auto.
    + intros (ms & Hin & Hc). exists (name, ms). split; auto.
      apply filter_In. auto.
  - apply (distinct_filter_keys _ (channels s)). now apply keys_distinct.
Qed.

Lemma get_channels_exact_witness :
  let request := [("method", JStr "get_channels"); ("peer_id", JStr "b1")] in
  reachable both_in_general /\
  get request "method" JNull = JStr "get_channels" /\
  truthy (get request "peer_id" JNull) = true /\
  handle_client "2024-01-01T10:00:05" (Decoded (JObj request)) both_in_general
  = (Some (RespChannels [JStr "general"] 1), both_in_general).
Proof.
  intros request.
  assert (Hr : reachable both_in_general)
    by apply reachable_after, reachable_init.
  split; [exact Hr|]. split; [reflexivity|]. split; [reflexivity|].
  exact (proj1 (get_channels_exact both_in_general "2024-01-01T10:00:05"
                  request Hr eq_refl eq_refl)).
Defined.

(** *** Registration *)

(** X3.  Register then look up: after an accepted register request the
    registry holds the new record under the peer id, every other lookup is
    as before, the channels are untouched, and a get_peers request without
    channel returns a map with that record whose size has grown by one if
    the peer id was new and is unchanged otherwise.  A new peer id is
    appended after the existing keys. *)
Theorem register_then_lookup s now now' request query :
  get request "method" JNull = JStr "register" ->
  get query "method" JNull = JStr "get_peers" ->
  assoc "channel" query = None ->
  let peer_id := get request "peer_id" JNull in
  let record := {| ip := get request "ip" JNull;
                   port := get request "port" JNull;
                   username := get request "username" (JStr "Anonymous");
                   timestamp := now |} in
  all [peer_id; get request "ip" JNull; get request "port" JNull] = true ->
  hashable peer_id = true ->
  let s' := snd (handle_client now (Decoded (JObj request)) s) in
  find peer_id (peers s') = Some record /\
  (forall other, py_eq peer_id other = false ->
                 find other (peers s') = find other (peers s)) /\
  channels s' = channels s /\
  (find peer_id (peers s) = None ->
     peers s' = peers s ++ [(peer_id, record)]) /\
  handle_client now' (Decoded (JObj query)) s'
  = (Some (RespPeers (peers s') JNull
             (match find peer_id (peers s) with
              | Some _ => length (peers s)
              | None => S (length (peers s))
              end)), s').
Proof.
  intros Hm Hq Hc peer_id record Hall Hh s'.
  assert (Hs : s' = {| peers := update peer_id record (peers s);
                       channels := channels s |}).
  { subst s'. rewrite handle_client_state, route_register by auto.
    rewrite register_peer_run. cbv zeta. fold peer_id.
    now rewrite Hall, Hh. }
  rewrite Hs. cbn [peers channels].
  split; [now apply find_update_same|].
  split; [intros other Hne; now apply find_update_other|].
  split; [reflexivity|].
  split; [intros Hn; now apply update_not_found|].
  unfold handle_client. rewrite route_get_peers by auto.
  rewrite get_peer_list_all.
  - cbn [peers]. unfold get. rewrite Hc. now rewrite length_update.
  - left. unfold get. now rewrite Hc.
Qed.

Lemma register_then_lookup_witness :
  let request := ("method", JStr "register") :: bob in
  let query := [("method", JStr "get_peers")] in
  let s' := snd (handle_client "2024-01-01T10:00:01" (Decoded (JObj request))
                   alice_registered) in
  get request "method" JNull = JStr "register" /\
  get query "method" JNull = JStr "get_peers" /\
  assoc "channel" query = None /\
  all [get request "peer_id" JNull; get request "ip" JNull;
       get request "port" JNull] = true /\
  hashable (get request "peer_id" JNull) = true /\
  keys (peers s') = [JStr "a1"; JStr "b1"] /\
  find (JStr "b1") (peers s')
  = Some {| ip := JStr "127.0.0.1"; port := JInt 9002;
            username := JStr "Bob"; timestamp := "2024-01-01T10:00:01" |}.
Proof.
  intros request query s'.
  split; [reflexivity|]. split; [reflexivity|]. split; [reflexivity|].
  split; [reflexivity|]. split; [reflexivity|].
  destruct (register_then_lookup alice_registered "2024-01-01T10:00:01"
              "2024-01-01T10:00:05" request query
              eq_refl eq_refl eq_refl eq_refl eq_refl)
    as (Hrec & _ & _ & Happ & _).
  split; [|exact Hrec].
  fold s' in Happ. rewrite (Happ eq_refl). reflexivity.
Defined.

(** *** Membership *)

Lemma leave_join_index p c d :
  hashable p = true -> hashable c = true ->
  Forall channel_ok d ->
  match find c d with
  | Some members => list_contains p members = false
  | None => True
  end ->
  leave_index p c (join_index p c d) = d.
Proof.
  intros Hp Hc Hok. unfold join_index.
  destruct (find c d) as [members|] eqn:E.
  - intros Hn. rewrite Hn. unfold leave_index.
    rewrite find_update_same by auto.
    rewrite list_contains_snoc_same by auto.
    rewrite remove_first_snoc by auto.
    destruct (find_Some _ _ _ E) as (k' & Hin & _).
    rewrite Forall_forall in Hok. destruct (Hok _ Hin) as (_ & Hne & _).
    simpl in Hne. destruct members as [|m ms]; [congruence|].
    rewrite update_update by auto. now apply update_found_same.
  - intros _. unfold leave_index.
    rewrite find_update_same by auto.
    assert (list_contains p [p] = true) as -> by
        (apply (list_contains_snoc_same p []); auto).
    simpl. rewrite py_eq_refl by auto.
    rewrite update_not_found by auto.
    rewrite remove_key_app_skip by auto. simpl.
    rewrite py_eq_refl by auto. now rewrite app_nil_r.
Qed.

(** X4.  Join then leave is a round trip: when the peer is not yet a member
    of the channel, handling join_channel and then leave_channel for the
    same peer id and channel gives back exactly the state before, and a
    channel created by the join is deleted again by the leave. *)
Theorem join_then_leave s now now' join leave :
  reachable s ->
  get join "method" JNull = JStr "join_channel" ->
  get leave "method" JNull = JStr "leave_channel" ->
  let peer_id := get join "peer_id" JNull in
  let channel := get join "channel" JNull in
  get leave "peer_id" JNull = peer_id ->
  get leave "channel" JNull = channel ->
  hashable peer_id = true ->
  match find channel (channels s) with
  | Some members => list_contains peer_id members = false
  | None => True
  end ->
  snd (handle_client now' (Decoded (JObj leave))
         (snd (handle_client now (Decoded (JObj join)) s))) = s.
Proof.
  intros Hr Hj Hl peer_id channel Hlp Hlc Hp Hn.
  destruct (reachable_Inv s Hr) as (Hdp & Hdc & Hok).
  rewrite !handle_client_state.
  rewrite (route_leave_channel now' leave), (route_join_channel now join)
    by auto.
  rewrite join_channel_run, leave_channel_run. cbv zeta.
  rewrite Hlp, Hlc. fold peer_id channel.
  destruct (negb (all [peer_id; channel])) eqn:Hall; simpl;
    [reflexivity|].
  destruct (hashable channel) eqn:Hc; simpl; [|reflexivity].
  rewrite leave_join_index by auto. apply eta.
Qed.

Lemma join_then_leave_witness :
  reachable alice_in_general /\
  get (join_general "b1") "method" JNull = JStr "join_channel" /\
  get (leave_general "b1") "method" JNull = JStr "leave_channel" /\
  hashable (get (join_general "b1") "peer_id" JNull) = true /\
  find (JStr "general") (channels alice_in_general) = Some [JStr "a1"] /\
  list_contains (JStr "b1") [JStr "a1"] = false /\
  snd (handle_client "2024-01-01T10:00:07" (Decoded (JObj (leave_general "b1")))
         (snd (handle_client "2024-01-01T10:00:06"
                 (Decoded (JObj (join_general "b1"))) alice_in_general)))
  = alice_in_general.
Proof.
  assert (Hr : reachable alice_in_general)
    by apply reachable_after, reachable_init.
  split; [exact Hr|]. split; [reflexivity|]. split; [reflexivity|].
  split; [reflexivity|]. split; [reflexivity|]. split; [reflexivity|].
  exact (join_then_leave alice_in_general "2024-01-01T10:00:06"
           "2024-01-01T10:00:07" (join_general "b1") (leave_general "b1")
           Hr eq_refl eq_refl eq_refl eq_refl eq_refl eq_refl).
Defined.

Lemma find_leave_index p c d members :
  hashable p = true -> distinct_keys d -> Forall channel_ok d ->
  find c (leave_index p c d) = Some members ->
  list_contains p members = false.
Proof.
  intros Hp Hd Hok. unfold leave_index.
  destruct (find c d) as [ms|] eqn:E; [|congruence].
  pose proof (find_hashable _ _ _ Hd E) as Hc.
  destruct (find_Some _ _ _ E) as (k0 & Hin0 & _).
  rewrite Forall_forall in Hok. destruct (Hok _ Hin0) as (_ & _ & Hdm).
  simpl in Hdm.
  destruct (list_contains p ms) eqn:Hc0; [|congruence].
  pose proof (list_contains_remove_first p ms Hp Hdm) as Hrm.
  destruct (remove_first p ms) as [|m ms'].
  - rewrite find_remove_key_same by auto. discriminate.
  - rewrite find_update_same by auto. now intros [= <-].
Qed.

Lemma channels_of_unlisted p c s :
  distinct_keys (channels s) ->
  (forall members, find c (channels s) = Some members ->
                   list_contains p members = false) ->
  list_contains c (channels_of p s) = false.
Proof.
  intros Hd H. unfold list_contains, channels_of.
  destruct (existsb _ _) eqn:E; [|reflexivity].
  apply existsb_exists in E as (k & Hin & Ek).
  apply in_map_iff in Hin as ([k' ms] & <- & Hin).
  apply filter_In in Hin as [Hin Hc]. simpl in *.
  rewrite (H ms) in Hc; [discriminate|].
  eapply find_In; eauto.
Qed.

(** X5.  Once its two fields are accepted, leave_channel answers with a
    success, whether or not the peer was a member, when its log line could
    be written, and with the error for that line otherwise; the state is
    the same in both cases.  If the peer is not a member of the channel, or
    the channel does not exist, nothing changes.  In any case the peer is
    not a member of the channel afterwards, and get_channels for that peer
    does not list the channel. *)
Theorem leave_channel_outcome s now request :
  reachable s ->
  get request "method" JNull = JStr "leave_channel" ->
  let peer_id := get request "peer_id" JNull in
  let channel := get request "channel" JNull in
  truthy peer_id = true -> truthy channel = true ->
  hashable channel = true ->
  let result := handle_client now (Decoded (JObj request)) s in
  fst result
  = Some (if forallb printable [peer_id; channel] then RespLeft channel
          else RespError (StrOf (UnicodeEncodeError [peer_id; channel]))) /\
  (match find channel (channels s) with
   | Some members => list_contains peer_id members = false
   | None => True
   end -> snd result = s) /\
  (hashable peer_id = true ->
   (forall members, find channel (channels (snd result)) = Some members ->
                    list_contains peer_id members = false) /\
   list_contains channel (channels_of peer_id (snd result)) = false).
Proof.
  intros Hr Hm peer_id channel Htp Htc Hc result.
  pose proof (reachable_step s now (Decoded (JObj request)) Hr) as Hr'.
  destruct (reachable_Inv s Hr) as (Hdp & Hdc & Hok).
  destruct (reachable_Inv _ Hr') as (_ & Hdc' & _).
  fold result in Hdc'.
  assert (Hres : result
                 = (Some (if forallb printable [peer_id; channel]
                          then RespLeft channel
                          else RespError
                                 (StrOf (UnicodeEncodeError
                                           [peer_id; channel]))),
                    {| peers := peers s;
                       channels := leave_index peer_id channel
                                     (channels s) |})).
  { subst result. unfold handle_client.
    rewrite route_leave_channel, leave_channel_run by auto. cbv zeta.
    fold peer_id channel.
    assert (all [peer_id; channel] = true) as ->
        by (simpl; now rewrite Htp, Htc).
    rewrite Hc. unfold logged. cbn [negb].
    now destruct (forallb printable _). }
  rewrite Hres in *. cbn [fst snd channels] in *.
  split; [reflexivity|]. split.
  - intros Hn. unfold leave_index.
    destruct (find channel (channels s)) as [members|];
      rewrite ?Hn; apply eta.
  - intros Hp.
    assert (Hnot : forall members,
               find channel (leave_index peer_id channel (channels s))
               = Some members -> list_contains peer_id members = false)
      by (intros members; now apply find_leave_index).
    split; [exact Hnot|].
    now apply channels_of_unlisted.
Qed.

Lemma leave_channel_outcome_witness :
  let result := handle_client "2024-01-01T10:00:07"
                  (Decoded (JObj (leave_general "a1"))) both_in_general in
  reachable both_in_general /\
  get (leave_general "a1") "method" JNull = JStr "leave_channel" /\
  truthy (get (leave_general "a1") "peer_id" JNull) = true /\
  truthy (get (leave_general "a1") "channel" JNull) = true /\
  hashable (get (leave_general "a1") "channel" JNull) = true /\
  fst result = Some (RespLeft (JStr "general")) /\
  channels (snd result) = [(JStr "general", [JStr "b1"])].
Proof.
  intros result.
  assert (Hr : reachable both_in_general)
    by apply reachable_after, reachable_init.
  split; [exact Hr|]. split; [reflexivity|]. split; [reflexivity|].
  split; [reflexivity|]. split; [reflexivity|].
  split; [|reflexivity].
  exact (proj1 (leave_channel_outcome both_in_general "2024-01-01T10:00:07"
                  (leave_general "a1") Hr eq_refl eq_refl eq_refl eq_refl)).
Defined.

(** *** Logout *)

Lemma strip_absent p members :
  list_contains p members = false -> strip p members = members.
Proof. unfold strip. now intros ->. Qed.

Lemma purge_absent p d :
  (forall k members, In (k, members) d ->
                     list_contains p members = false /\ members <> []) ->
  purge p d = d.
Proof.
  induction d as [|[k ms] d IH]; simpl; auto.
  intros H. destruct (H k ms (or_introl eq_refl)) as [Hc Hne].
  rewrite strip_absent by auto.
  destruct ms as [|m ms]; [congruence|]. simpl. f_equal.
  apply IH. intros k' ms' Hin. apply (H k' ms'). now right.
Qed.

(** X6.  logout is idempotent: handling the same logout request a second
    time gives the same response and leaves the state exactly as the first
    left it. *)
Theorem logout_idempotent s now now' request :
  reachable s ->
  get request "method" JNull = JStr "logout" ->
  let once := handle_client now (Decoded (JObj request)) s in
  let twice := handle_client now' (Decoded (JObj request)) (snd once) in
  twice = once.
Proof.
  intros Hr Hm once twice.
  pose proof (reachable_step s now (Decoded (JObj request)) Hr) as Hr'.
  destruct (reachable_Inv s Hr) as (Hdp & Hdc & Hok).
  destruct (reachable_Inv _ Hr') as (Hdp' & Hdc' & Hok').
  fold once in Hdp', Hdc', Hok'.
  subst twice. unfold handle_client at 1.
  rewrite route_logout, logout_peer_run by auto.
  subst once. unfold handle_client in *.
  rewrite route_logout, logout_peer_run in * by auto. cbv zeta in *.
  destruct (negb (truthy (get request "peer_id" JNull))) eqn:Ht; simpl;
    [reflexivity|].
  destruct (hashable (get request "peer_id" JNull)) eqn:Hh; simpl;
    [|reflexivity].
  unfold logged. destruct (forallb printable _); simpl;
    (rewrite (remove_key_not_found (remove_key _ (peers s)))
       by now apply find_remove_key_same);
    (rewrite (purge_absent _ (purge _ (channels s))); [reflexivity|]);
    intros k members; now apply purge_no_member.
Qed.

Lemma logout_idempotent_witness :
  let once := handle_client "2024-01-01T12:00:00"
                (Decoded (JObj (logout_of "a1"))) both_in_general in
  reachable both_in_general /\
  get (logout_of "a1") "method" JNull = JStr "logout" /\
  handle_client "2024-01-01T12:00:01" (Decoded (JObj (logout_of "a1")))
    (snd once) = once.
Proof.
  intros once.
  assert (Hr : reachable both_in_general)
    by apply reachable_after, reachable_init.
  split; [exact Hr|]. split; [reflexivity|].
  exact (logout_idempotent both_in_general "2024-01-01T12:00:00"
           "2024-01-01T12:00:01" (logout_of "a1") Hr eq_refl).
Defined.

Lemma list_contains_strip_other p q members :
  py_eq q p = false -> hashable p = true ->
  list_contains q (strip p members) = list_contains q members.
Proof.
  intros Hq Hp. unfold strip.
  destruct (list_contains p members); auto.
  now apply list_contains_remove_other.
Qed.

Lemma channels_of_purge p q d :
  py_eq q p = false -> hashable p = true ->
  map fst (filter (fun entry => list_contains q (snd entry)) (purge p d))
  = map fst (filter (fun entry => list_contains q (snd entry)) d).
Proof.
  intros Hq Hp. unfold purge.
  induction d as [|[k ms] d IH]; [reflexivity|].
  pose proof (list_contains_strip_other p q ms Hq Hp) as Hs.
  cbn [flat_map filter map fst snd app].
  rewrite <- Hs.
  destruct (strip p ms) as [|m ms'] eqn:E;
    cbn [flat_map filter map fst snd app].
  - exact IH.
  - destruct (list_contains q (m :: ms')); cbn [map fst]; now rewrite IH.
Qed.

(** X7.  logout of one peer leaves every other peer as it was: the record
    registered under any other peer id is unchanged, and get_channels for
    any other peer id lists the same channels, in the same order, as before
    the logout. *)
Theorem logout_spares_others s now request other :
  reachable s ->
  get request "method" JNull = JStr "logout" ->
  let peer_id := get request "peer_id" JNull in
  hashable peer_id = true ->
  py_eq other peer_id = false ->
  let s' := snd (handle_client now (Decoded (JObj request)) s) in
  find other (peers s') = find other (peers s) /\
  channels_of other s' = channels_of other s.
Proof.
  intros Hr Hm peer_id Hh Hne s'.
  destruct (reachable_Inv s Hr) as (Hdp & Hdc & Hok).
  subst s'. rewrite handle_client_state, route_logout by auto.
  rewrite logout_peer_run by auto. cbv zeta. fold peer_id.
  destruct (negb (truthy peer_id)); [split; reflexivity|].
  rewrite Hh. unfold channels_of. cbn [snd peers channels]. split.
  - apply find_remove_key_other; auto.
    rewrite py_eq_sym by auto. exact Hne.
  - now apply channels_of_purge.
Qed.

Lemma logout_spares_others_witness :
  let s' := snd (handle_client "2024-01-01T12:00:00"
                   (Decoded (JObj (logout_of "a1"))) both_in_general) in
  reachable both_in_general /\
  get (logout_of "a1") "method" JNull = JStr "logout" /\
  hashable (get (logout_of "a1") "peer_id" JNull) = true /\
  py_eq (JStr "b1") (get (logout_of "a1") "peer_id" JNull) = false /\
  find (JStr "b1") (peers s') = find (JStr "b1") (peers both_in_general) /\
  channels_of (JStr "b1") s' = [JStr "general"].
Proof.
  intros s'.
  assert (Hr : reachable both_in_general)
    by apply reachable_after, reachable_init.
  split; [exact Hr|]. split; [reflexivity|]. split; [reflexivity|].
  split; [reflexivity|].
  destruct (logout_spares_others both_in_general "2024-01-01T12:00:00"
              (logout_of "a1") (JStr "b1") Hr eq_refl eq_refl eq_refl)
    as [Hrec Hch].
  split; [exact Hrec|]. fold s' in Hch. rewrite Hch. reflexivity.
Defined.

(** *** Discovery after a join *)

Lemma members_records_contains registry p record members :
  hashable p = true ->
  find p registry = Some record ->
  list_contains p members = true ->
  exists k, In (k, record) (members_records members registry) /\
            py_eq k p = true.
Proof.
  intros Hp Hf Hc. unfold list_contains in Hc.
  apply existsb_exists in Hc as (k & Hin & Ek).
  exists k. split; auto. unfold members_records.
  apply in_flat_map. exists k. split; auto.
  rewrite (find_congr registry k p), Hf.
  - now left.
  - eapply py_eq_hashable_l; eauto.
  - exact Ek.
Qed.

(** X8.  A join is visible at once: after an accepted join_channel,
    get_channels for the peer lists the channel, and, if the peer is
    registered and the members of the channel are hashable, get_peers for
    the channel returns a map that holds the peer's record. *)
Theorem join_then_discover s now now' request query record :
  reachable s ->
  get request "method" JNull = JStr "join_channel" ->
  get query "method" JNull = JStr "get_peers" ->
  let peer_id := get request "peer_id" JNull in
  let channel := get request "channel" JNull in
  get query "channel" JNull = channel ->
  all [peer_id; channel] = true ->
  hashable peer_id = true -> hashable channel = true ->
  let s' := snd (handle_client now (Decoded (JObj request)) s) in
  list_contains channel (channels_of peer_id s') = true /\
  (find peer_id (peers s) = Some record ->
   forall members,
     find channel (channels s') = Some members ->
     Forall (fun pid => hashable pid = true) members ->
     exists peer_list key,
       handle_client now' (Decoded (JObj query)) s'
       = (Some (RespPeers peer_list channel (length peer_list)), s') /\
       In (key, record) peer_list /\ py_eq key peer_id = true).
Proof.
  intros Hr Hm Hq peer_id channel Hqc Hall Hp Hc s'.
  pose proof (reachable_step s now (Decoded (JObj request)) Hr) as Hr'.
  fold s' in Hr'.
  assert (Hs : s' = {| peers := peers s;
                       channels := join_index peer_id channel (channels s) |}).
  { subst s'. rewrite handle_client_state, route_join_channel by auto.
    rewrite join_channel_run. cbv zeta. fold peer_id channel.
    now rewrite Hall, Hc. }
  destruct (join_index_contains peer_id channel (channels s) Hp Hc)
    as (members & Hf & Hin).
  split.
  - rewrite Hs. unfold channels_of, list_contains. cbn [channels].
    destruct (find_Some _ _ _ Hf) as (k & Hk & Ek).
    apply existsb_exists. exists k. split; auto.
    apply in_map_iff. exists (k, members). split; auto.
    apply filter_In. auto.
  - intros Hrec members' Hf' Hall'.
    assert (members' = members) as ->
        by (rewrite Hs in Hf'; cbn [channels] in Hf'; congruence).
    destruct (Inv_channel s' channel members (reachable_Inv _ Hr') Hf')
      as (Htc & _ & _ & Hd).
    exists (members_records members (peers s')).
    destruct (members_records_contains (peers s') peer_id record members)
      as (key & Hkey & Ek); auto.
    { rewrite Hs. exact Hrec. }
    exists key. split; [|auto].
    unfold handle_client. rewrite route_get_peers by auto.
    rewrite (get_peer_list_channel query s' members); rewrite ?Hqc; auto.
Qed.

Lemma join_then_discover_witness :
  let query := [("method", JStr "get_peers"); ("channel", JStr "general")] in
  let s' := snd (handle_client "2024-01-01T10:00:02"
                   (Decoded (JObj (join_general "a1"))) alice_registered) in
  reachable alice_registered /\
  get (join_general "a1") "method" JNull = JStr "join_channel" /\
  all [get (join_general "a1") "peer_id" JNull;
       get (join_general "a1") "channel" JNull] = true /\
  list_contains (JStr "general") (channels_of (JStr "a1") s') = true.
Proof.
  intros query s'.
  assert (Hr : reachable alice_registered)
    by apply reachable_after, reachable_init.
  split; [exact Hr|]. split; [reflexivity|]. split; [reflexivity|].
  exact (proj1 (join_then_discover alice_registered "2024-01-01T10:00:02"
                  "2024-01-01T10:00:05" (join_general "a1") query
                  {| ip := JStr "127.0.0.1"; port := JInt 9001;
                     username := JStr "Alice";
                     timestamp := "2024-01-01T10:00:00" |}
                  Hr eq_refl eq_refl eq_refl eq_refl eq_refl eq_refl)).
Defined.

(** *** What the handlers never touch *)

(** X9.  Only register and logout change the registry, and only
    join_channel, leave_channel and logout change the channel index,
    whatever the request holds and also when the handler raises. *)
Theorem handler_footprint s now request method :
  get request "method" JNull = JStr method ->
  let s' := snd (handle_client now (Decoded (JObj request)) s) in
  (method <> "register" -> method <> "logout" -> peers s' = peers s) /\
  (method <> "join_channel" -> method <> "leave_channel" ->
   method <> "logout" -> channels s' = channels s).
Proof.
  intros Hm s'. subst s'. rewrite handle_client_state.
  destruct (route_state now request s) as [-> | ->]; [auto|].
  unfold dispatch. cbv zeta. rewrite Hm. cbn [py_eq].
  destruct (method =? "register") eqn:E1.
  { apply String.eqb_eq in E1. rewrite register_peer_run. cbv zeta.
    split; [congruence|]. intros _ _ _.
    repeat match goal with
           | |- context [if ?b then _ else _] => destruct b
           end; reflexivity. }
  destruct (method =? "get_peers") eqn:E2.
  { rewrite get_peer_list_state. auto. }
  destruct (method =? "join_channel") eqn:E3.
  { apply String.eqb_eq in E3. rewrite join_channel_run. cbv zeta.
    split; [|congruence]. intros _ _.
    repeat match goal with
           | |- context [if ?b then _ else _] => destruct b
           end; reflexivity. }
  destruct (method =? "leave_channel") eqn:E4.
  { apply String.eqb_eq in E4. rewrite leave_channel_run. cbv zeta.
    split; [|congruence]. intros _ _.
    repeat match goal with
           | |- context [if ?b then _ else _] => destruct b
           end; reflexivity. }
  destruct (method =? "get_channels") eqn:E5.
  { rewrite get_channels_state. auto. }
  destruct (method =? "logout") eqn:E6.
  { apply String.eqb_eq in E6. split; congruence. }
  simpl. auto.
Qed.

Lemma handler_footprint_witness :
  let s' := snd (handle_client "2024-01-01T10:00:06"
                   (Decoded (JObj (join_general "b1"))) alice_in_general) in
  get (join_general "b1") "method" JNull = JStr "join_channel" /\
  peers s' = peers alice_in_general.
Proof.
  intros s'. split; [reflexivity|].
  apply (proj1 (handler_footprint alice_in_general "2024-01-01T10:00:06"
                  (join_general "b1") "join_channel" eq_refl));
    discriminate.
Defined.

(** *** No falsy identifier is stored *)

Lemma Forall_In_update {V} (P : json * V -> Prop) (d : dict V) k v :
  Forall P d ->
  (forall k', P (k', v)) ->
  Forall P (update k v d).
Proof.
  intros Hd Hv. induction Hd as [|[k0 v0] d H0 Hd IH]; simpl.
  - auto.
  - destruct (py_eq k0 k); auto.
Qed.

Lemma Forall_key_update {V} (P : json -> Prop) (d : dict V) k v :
  Forall (fun entry => P (fst entry)) d -> P k ->
  Forall (fun entry => P (fst entry)) (update k v d).
Proof.
  intros Hd Hk. induction Hd as [|[k0 v0] d H0 Hd IH]; simpl.
  - auto.
  - destruct (py_eq k0 k); auto.
Qed.

Lemma Forall_key_remove {V} (P : json * V -> Prop) (d : dict V) k :
  Forall P d -> Forall P (remove_key k d).
Proof.
  rewrite !Forall_forall. intros H e Hin. eauto using In_remove_key.
Qed.

Lemma members_truthy_join p c d :
  truthy p = true ->
  Forall (fun entry => Forall (fun pid => truthy pid = true) (snd entry)) d ->
  Forall (fun entry => Forall (fun pid => truthy pid = true) (snd entry))
    (join_index p c d).
Proof.
  intros Hp Hd. unfold join_index.
  destruct (find c d) as [members|] eqn:E.
  - destruct (list_contains p members); auto.
    destruct (find_Some _ _ _ E) as (k' & Hin & _).
    pose proof Hd as Hd'. rewrite Forall_forall in Hd'.
    specialize (Hd' _ Hin). simpl in Hd'.
    apply Forall_In_update; auto. intros k0. simpl.
    apply Forall_app; auto.
  - apply Forall_In_update; simpl; auto.
Qed.

Lemma members_truthy_leave p c d :
  Forall (fun entry => Forall (fun pid => truthy pid = true) (snd entry)) d ->
  Forall (fun entry => Forall (fun pid => truthy pid = true) (snd entry))
    (leave_index p c d).
Proof.
  intros Hd. unfold leave_index.
  destruct (find c d) as [members|] eqn:E; auto.
  destruct (list_contains p members); auto.
  destruct (find_Some _ _ _ E) as (k' & Hin & _).
  pose proof Hd as Hd'. rewrite Forall_forall in Hd'.
  specialize (Hd' _ Hin). simpl in Hd'.
  destruct (remove_first p members) as [|m ms] eqn:Hr.
  - now apply Forall_key_remove.
  - apply Forall_In_update; auto. intros k0. simpl.
    rewrite <- Hr. rewrite Forall_forall in *.
    eauto using In_remove_first.
Qed.

Lemma members_truthy_purge p d :
  Forall (fun entry => Forall (fun pid => truthy pid = true) (snd entry)) d ->
  Forall (fun entry => Forall (fun pid => truthy pid = true) (snd entry))
    (purge p d).
Proof.
  rewrite !Forall_forall. intros H [k ms'] Hin.
  apply In_purge in Hin as (ms & Hin & -> & _).
  apply Forall_strip. exact (H _ Hin).
Qed.

Lemma ids_truthy_step now data s :
  Inv s -> ids_truthy s -> ids_truthy (snd (handle_client now data s)).
Proof.
  intros (Hdp & Hdc & Hok) Hid. destruct data as [| | |document]; auto.
  rewrite handle_client_state.
  destruct document as [| | | | |request]; try exact Hid.
  destruct (route_state now request s) as [-> | ->]; auto.
  pose proof Hid as [Hp Hc]. unfold ids_truthy, dispatch. cbv zeta.
  repeat match goal with
         | |- context [if ?b then _ else _] => destruct b
         end; auto.
  - rewrite register_peer_run. cbv zeta.
    destruct (negb (all _)) eqn:Hall; auto.
    destruct (hashable _); auto. cbn [snd peers channels]. split; auto.
    apply negb_false_iff in Hall. simpl in Hall.
    apply andb_prop in Hall as [Hpid _].
    now apply (Forall_key_update (fun k => truthy k = true)).
  - now rewrite get_peer_list_state.
  - rewrite join_channel_run. cbv zeta.
    destruct (negb (all _)) eqn:Hall; auto.
    destruct (hashable _); auto. cbn [snd peers channels]. split; auto.
    apply negb_false_iff in Hall. simpl in Hall.
    apply andb_prop in Hall as [Hpid _].
    now apply members_truthy_join.
  - rewrite leave_channel_run. cbv zeta.
    repeat match goal with
           | |- context [if ?b then _ else _] => destruct b
           end; auto.
    cbn [snd peers channels]. split; auto using members_truthy_leave.
  - now rewrite get_channels_state.
  - rewrite logout_peer_run by auto. cbv zeta.
    repeat match goal with
           | |- context [if ?b then _ else _] => destruct b
           end; auto.
    cbn [snd peers channels].
    split; auto using Forall_key_remove, members_truthy_purge.
Qed.

(** X10.  The tracker never stores a falsy identifier: in every state that
    it can reach, every key of the registry and every member of every
    channel is truthy (never the empty string, 0, null, false, an empty
    list or an empty object), because each handler that stores an
    identifier validates it first. *)
Theorem stored_ids_truthy s : reachable s -> ids_truthy s.
Proof.
  induction 1 as [|s now data Hr IH].
  - split; constructor.
  - apply ids_truthy_step; auto using reachable_Inv.
Qed.

Lemma stored_ids_truthy_witness :
  reachable both_in_general /\ ids_truthy both_in_general.
Proof.
  assert (Hr : reachable both_in_general)
    by apply reachable_after, reachable_init.
  split; [exact Hr | exact (stored_ids_truthy both_in_general Hr)].
Defined.

(** *** Requests built by [send_to_tracker] *)

Lemma get_ext request request' :
  (forall key, assoc key request = assoc key request') ->
  forall key default, get request key default = get request' key default.
Proof. intros H key default. unfold get. now rewrite H. Qed.

(** The handlers read a request through [get] only. *)
Lemma route_ext now request request' s :
  (forall key, assoc key request = assoc key request') ->
  route now (JObj request) s = route now (JObj request') s.
Proof.
  intros H.
  unfold route, dispatch, register_peer, get_peer_list, join_channel,
    leave_channel, get_channels, logout_peer.
  now rewrite !(get_ext request request' H).
Qed.

(** X11.  The method that [send_to_tracker(method, data)] names is only a
    default.  If [data] has a 'method' key of its own, that value replaces
    it in the request, and the tracker handles the request exactly as it
    handles [data] itself; otherwise the tracker handles [data] extended
    with the method.  This holds in [peer_client.py] and in the forwarding
    routes of [apps/chatapp.py], whose [data] is the decoded request body. *)
Theorem send_to_tracker_method_is_default method fields now s :
  exists document,
    tracker_request method (JObj fields) = Some (JObj document) /\
    get document "method" JNull = get fields "method" (JStr method) /\
    handle_client now (Decoded (JObj document)) s
    = match assoc "method" fields with
      | Some _ => handle_client now (Decoded (JObj fields)) s
      | None => handle_client now (request_of method fields) s
      end.
Proof.
  eexists. split; [reflexivity|]. split; [reflexivity|].
  unfold request_of, handle_client.
  destruct (assoc "method" fields) as [m|] eqn:E.
  - erewrite route_ext; [reflexivity|].
    intros key. cbn [assoc]. destruct ("method" =? key) eqn:Ek.
    + apply String.eqb_eq in Ek. subst key. unfold get. now rewrite E.
    + apply assoc_without_other. intros Heq. subst key.
      now rewrite String.eqb_refl in Ek.
  - erewrite route_ext; [reflexivity|].
    intros key. cbn [assoc]. destruct ("method" =? key) eqn:Ek.
    + unfold get. now rewrite E.
    + apply assoc_without_other. intros Heq. subst key.
      now rewrite String.eqb_refl in Ek.
Qed.

End TrackerLaws.

(* ================================================================= *)
(** ** Properties of listeners, handshakes and discovery *)

Module OverlaySpec.
Import Py PyFacts Peer Overlay.

(** *** Listeners *)

(** Handling a message only prints. *)
Lemma handle_incoming_message_frame peer_id message w :
  client (snd (handle_incoming_message peer_id message w)) = client w /\
  wire (snd (handle_incoming_message peer_id message w)) = wire w.
Proof.
  destruct message as [| | | | |fields]; simpl; auto.
  destruct (py_eq _ _); simpl; auto.
  unfold bind, print, when, ret.
  destruct (print_text _); cbn [client wire fst snd]; auto.
  destruct (py_eq _ _); cbn [client wire fst snd]; auto.
  destruct (print_text _); cbn [client wire fst snd]; auto.
Qed.

(** A JSON object is handled without raising exactly when its lines can
    be written. *)
Lemma handle_incoming_message_object peer_id fields w :
  if displays (client w) peer_id fields
  then exists w', handle_incoming_message peer_id (JObj fields) w = (Ok tt, w')
  else exists e w',
         handle_incoming_message peer_id (JObj fields) w = (Raise e, w').
Proof.
  unfold displays, handle_incoming_message.
  destruct (py_eq _ (JStr "chat")); [|unfold ret; eauto].
  cbv zeta. unfold bind, print, when, ret, print_text.
  cbn [values_of].
  destruct (forallb printable [_; _; _]); cbn [andb client]; [|eauto].
  destruct (py_eq (current_channel (client w)) _); [|eauto].
  destruct (forallb printable [_; _]); eauto.
Qed.

Lemma handle_incoming_message_other peer_id message w :
  (forall fields, message <> JObj fields) ->
  handle_incoming_message peer_id message w
  = (Raise (AttributeError_get message), w).
Proof.
  destruct message; intros H; try reflexivity. now destruct (H fields).
Qed.

Lemma listen_loop_frame peer_id inputs : forall w,
  client (snd (listen_loop peer_id inputs w)) = client w /\
  wire (snd (listen_loop peer_id inputs w)) = wire w.
Proof.
  induction inputs as [|input inputs IH]; intros w; simpl.
  - destruct (negb _); auto.
  - destruct (negb _); auto.
    destruct input as [|[| | |message]]; simpl; auto.
    unfold bind.
    pose proof (handle_incoming_message_frame peer_id message w) as [Hc Hw].
    destruct (handle_incoming_message peer_id message w) as [[[]|e] w'];
      simpl in *; auto.
    destruct (IH w') as [Hc' Hw']. split; congruence.
Qed.

(** When the loop is left, and when it keeps waiting. *)
Lemma listen_loop_state peer_id inputs : forall w,
  fst (listen_loop peer_id inputs w) = Ok Waiting <->
  running (client w) = true /\
  existsb (ends_listener (client w) peer_id) inputs = false.
Proof.
  induction inputs as [|input inputs IH]; intros w; simpl.
  - destruct (running (client w)); simpl; split; try tauto;
      intros H; try discriminate; now destruct H.
  - destruct (running (client w)) eqn:Hr; simpl.
    2: { split; [discriminate | now intros []]. }
    destruct input as [|[| | |message]]; simpl;
      try (split; [discriminate | now intros []]).
    + rewrite IH, Hr. tauto.
    + unfold bind. destruct message as [| | | | |fields];
        try (simpl; split; [discriminate | now intros []]).
      pose proof (handle_incoming_message_object peer_id fields w) as Hobj.
      pose proof (handle_incoming_message_frame peer_id (JObj fields) w)
        as [Hc _].
      destruct (displays (client w) peer_id fields).
      * destruct Hobj as (w' & Hw). rewrite Hw in *. simpl in Hc.
        rewrite IH, Hc, Hr. simpl. tauto.
      * destruct Hobj as (e & w' & Hw). rewrite Hw. simpl.
        split; [discriminate | now intros []].
Qed.

Lemma set_connections_same w :
  client (set_connections (connections (client w)) w) = client w.
Proof. destruct w as [[u pid table chs run cur] sent cons]. reflexivity. Qed.

(** X12.  A listener ends on an empty read, on a receive that fails or
    yields bytes that are not UTF-8, on a decoded message that is not a
    JSON object, on a chat message whose line (or the prompt after it)
    cannot be written to the console, or when the running flag is cleared;
    text that is not JSON and every other JSON object never end it.  When
    it ends, the table entry under its peer id is removed, whichever socket
    that entry holds, its own socket is closed, and nothing is raised; the
    other entries, the wire and the rest of the client are untouched.
    While it waits, the table is as before and nothing is closed. *)
Theorem listener_exit peer_id sock inputs n :
  hashable peer_id = true ->
  let result := listen_to_peer peer_id sock inputs n in
  let table := connections (client (world n)) in
  let ends := existsb (ends_listener (client (world n)) peer_id) inputs in
  wire (world (snd result)) = wire (world n) /\
  listeners (snd result) = listeners n /\
  (running (client (world n)) = true -> ends = false ->
   fst result = Ok Waiting /\
   client (world (snd result)) = client (world n) /\
   closed (snd result) = closed n) /\
  (running (client (world n)) = false \/ ends = true ->
   fst result = Ok Left /\
   client (world (snd result))
   = client (set_connections (remove_key peer_id table) (world n)) /\
   closed (snd result) = closed n ++ [sock]).
Proof.
  intros Hp result table ends. subst result ends.
  unfold listen_to_peer, in_world.
  pose proof (listen_loop_frame peer_id inputs (world n)) as [Hc Hw].
  pose proof (listen_loop_state peer_id inputs (world n)) as Hs.
  destruct (listen_loop peer_id inputs (world n)) as [r w'] eqn:E.
  simpl in Hc, Hw, Hs.
  assert (Hfinal :
    forall n0, world n0 = w' -> closed n0 = closed n ->
               listeners n0 = listeners n ->
    let out := (present <- in_world (connections_contains peer_id) ;;
                when present (in_world (connections_delitem peer_id)) ;;
                close sock ;; ret Left) n0 in
    fst out = Ok Left /\
    wire (world (snd out)) = wire (world n) /\
    listeners (snd out) = listeners n /\
    client (world (snd out))
    = client (set_connections (remove_key peer_id table) (world n)) /\
    closed (snd out) = closed n ++ [sock]).
  { intros n0 Hw0 Hc0 Hl0.
    unfold bind, in_world, connections_contains, connections_delitem,
      contains, delitem, when, close, ret.
    rewrite Hw0, Hp. cbn [fst snd world closed listeners].
    rewrite Hc. fold table.
    destruct (find peer_id table) eqn:Ef;
      cbn [fst snd world closed listeners]; rewrite ?Hp, ?Hc; fold table;
      rewrite ?Ef; cbn [fst snd world closed listeners].
    - unfold set_connections. cbn [client wire].
      rewrite ?Hc, ?Hw, ?Hc0, ?Hl0. auto.
    - rewrite remove_key_not_found by auto. subst table.
      rewrite ?set_connections_same, ?Hw, ?Hc0, ?Hl0, ?Hc. auto. }
  destruct r as [[|]|e].
  - cbn [fst snd world closed listeners]. rewrite Hw.
    destruct (proj1 Hs eq_refl) as [Hr He].
    split; [reflexivity|]. split; [reflexivity|]. split.
    + intros _ _. auto.
    + intros [Hx|Hx]; congruence.
  - destruct (Hfinal {| world := w'; closed := closed n;
                        listeners := listeners n; notices := notices n |}
                eq_refl eq_refl eq_refl) as (H1 & H2 & H3 & H4 & H5).
    split; [exact H2|]. split; [exact H3|]. split.
    + intros Hr He. exfalso.
      assert (Ok Left = Ok Waiting) by (apply Hs; auto). discriminate.
    + intros _. auto.
  - destruct (Hfinal {| world := w'; closed := closed n;
                        listeners := listeners n; notices := notices n |}
                eq_refl eq_refl eq_refl) as (H1 & H2 & H3 & H4 & H5).
    split; [exact H2|]. split; [exact H3|]. split.
    + intros Hr He. exfalso.
      assert (@Raise loop_state e = Ok Waiting) by (apply Hs; auto).
      discriminate.
    + intros _. auto.
Qed.

Lemma listener_exit_witness :
  let inputs :=
    [Read Tracker.NotJson;
     Read (Tracker.Decoded
             (JObj [("type", JStr "chat"); ("channel", JStr "general");
                    ("username", JStr "Carol");
                    ("content", JStr lone_surrogate)]));
     Read Tracker.NotJson] in
  let result := listen_to_peer (JStr "c1") 5 inputs alice_node in
  hashable (JStr "c1") = true /\
  existsb (ends_listener (client (world alice_node)) (JStr "c1")) inputs
  = true /\
  fst result = Ok Left /\
  keys (connections (client (world (snd result)))) = [JStr "b1"; JStr "d1"] /\
  closed (snd result) = [5].
Proof.
  intros inputs result.
  split; [reflexivity|]. split; [reflexivity|].
  destruct (listener_exit (JStr "c1") 5 inputs alice_node eq_refl)
    as (_ & _ & _ & Hexit).
  destruct (Hexit (or_intror eq_refl)) as (Hres & Hclient & Hclosed).
  split; [exact Hres|]. split; [|exact Hclosed].
  fold result in Hclient. rewrite Hclient. reflexivity.
Defined.

(** X13.  Data that is not JSON is skipped: taking the undecodable reads out
    of the input of a listener changes neither its result nor the state it
    leaves. *)
Theorem listener_skips_undecodable peer_id sock inputs n :
  listen_to_peer peer_id sock inputs n
  = listen_to_peer peer_id sock
      (filter (fun input => negb (is_not_json input)) inputs) n.
Proof.
  unfold listen_to_peer, in_world.
  assert (H : forall w,
             listen_loop peer_id inputs w
             = listen_loop peer_id
                 (filter (fun input => negb (is_not_json input)) inputs) w).
  { assert (Hstop : forall l w, running (client w) = false ->
                       listen_loop peer_id l w = (Ok Left, w))
      by (intros [|i l] w Hr; simpl; now rewrite Hr).
    induction inputs as [|input inputs IH]; intros w; [reflexivity|].
    destruct (running (client w)) eqn:Hr.
    2: { now rewrite !Hstop. }
    destruct input as [|[| | |message]];
      cbn [filter is_not_json negb listen_loop]; rewrite ?Hr;
      cbn [negb]; auto.
    unfold bind.
    destruct (handle_incoming_message peer_id message w) as [[[]|e] w'];
      auto. }
  now rewrite H.
Qed.

(** *** Handshakes *)

Lemma handle_incoming_connection_run conn input n :
  handle_incoming_connection conn input n
  = (Ok tt,
     match input with
     | Read (Tracker.Decoded (JObj handshake)) =>
         if py_eq (get handshake "type" JNull) (JStr "handshake") then
           if hashable (get handshake "peer_id" JNull) then
             registered (get handshake "peer_id" JNull) conn
               (get handshake "username" (JStr "Unknown")) n
           else closing conn n
         else n
     | _ => closing conn n
     end).
Proof.
  unfold handle_incoming_connection.
  destruct input as [|[| | |[| | | | |handshake]]]; try reflexivity.
  destruct (py_eq _ _); [|reflexivity]. cbv zeta.
  unfold try_except, bind, in_world, connections_setitem, setitem,
    start_listener, close.
  destruct (hashable _); reflexivity.
Qed.

Lemma notify_run line n :
  notify line n
  = if forallb printable (notice_values line) then (Ok tt, said line n)
    else (Raise (UnicodeEncodeError (notice_values line)), n).
Proof.
  unfold notify, print_text. now destruct (forallb printable _).
Qed.

(** A status line changes nothing but the notices. *)
Lemma notify_frame line n :
  world (snd (notify line n)) = world n /\
  closed (snd (notify line n)) = closed n /\
  listeners (snd (notify line n)) = listeners n.
Proof. rewrite notify_run. now destruct (forallb printable _). Qed.

Lemma connect_to_peer_run net fails peer_id ip port username n :
  connect_to_peer net fails peer_id ip port username n
  = match net ip port with
    | None => notify (ConnectFailed peer_id) n
    | Some sock =>
        if fails sock then notify (ConnectFailed peer_id) n
        else
          let n1 := written sock (handshake_message (client (world n))) n in
          if hashable peer_id then
            let n2 := registered peer_id sock username n1 in
            if forallb printable [username; peer_id]
            then (Ok tt, said (Connected username peer_id) n2)
            else notify (ConnectFailed peer_id) n2
          else notify (ConnectFailed peer_id) n1
    end.
Proof.
  unfold connect_to_peer. destruct (net ip port) as [sock|]; [|reflexivity].
  unfold try_except, bind, in_world, send, connections_setitem, setitem,
    start_listener, ret.
  destruct (fails sock).
  { now destruct n as [[? ? ?] ? ? ?]. }
  cbn [world closed listeners notices client].
  destruct (hashable peer_id); [|reflexivity].
  cbn [world closed listeners notices client fst snd].
  rewrite (notify_run (Connected username peer_id)). cbn [notice_values].
  destruct (forallb printable [username; peer_id]); reflexivity.
Qed.

(** A peer id that can be written never makes [connect_to_peer] raise. *)
Lemma connect_to_peer_ok net fails peer_id ip port username n :
  printable peer_id = true ->
  fst (connect_to_peer net fails peer_id ip port username n) = Ok tt.
Proof.
  intros Hp. rewrite connect_to_peer_run.
  assert (Hn : forall n0, fst (notify (ConnectFailed peer_id) n0) = Ok tt).
  { intros n0. rewrite notify_run. cbn [notice_values forallb].
    now rewrite Hp. }
  destruct (net ip port) as [sock|]; auto.
  destruct (fails sock); auto. cbv zeta.
  destruct (hashable peer_id); auto.
  destruct (forallb printable _); auto.
Qed.

Lemma world_said line n : world (said line n) = world n.
Proof. reflexivity. Qed.

(** A username with a lone surrogate: the connection is stored and its
    listener started, then the line "Connected to" raises, and the handler
    reports the stored connection as failed. *)
Example connect_to_peer_unannounced :
  let result :=
    connect_to_peer only_erin (fun _ => false) (JStr "e1")
      (JStr "127.0.0.1") (JInt 9005) (JStr lone_surrogate) alice_node in
  fst result = Ok tt /\
  find (JStr "e1") (connections (client (world (snd result))))
  = Some {| socket := 7; remote_username := JStr lone_surrogate |} /\
  listeners (snd result) = [(JStr "e1", 7)] /\
  notices (snd result) = [ConnectFailed (JStr "e1")].
Proof. repeat split. Qed.

(** A peer id with a lone surrogate: the line of the handler raises too,
    and the exception leaves [connect_to_peer] with the connection
    stored. *)
Example connect_to_peer_raises :
  let result :=
    connect_to_peer only_erin (fun _ => false) (JStr lone_surrogate)
      (JStr "127.0.0.1") (JInt 9005) (JStr "Erin") alice_node in
  fst result = Raise (UnicodeEncodeError [JStr lone_surrogate]) /\
  find (JStr lone_surrogate) (connections (client (world (snd result))))
  = Some {| socket := 7; remote_username := JStr "Erin" |} /\
  notices (snd result) = [].
Proof. repeat split. Qed.

(** X14.  An inbound connection never makes the acceptor raise, and ends in
    one of three ways.  A handshake object with a hashable peer id is stored
    under that peer id (under [None] when the field is missing), replacing
    an entry of the same peer id without closing its socket, and a listener
    is started.  A JSON object that is not a handshake changes nothing: the
    socket is neither stored nor closed.  Everything else (failed read,
    undecodable data, JSON that is not an object, an unhashable peer id)
    closes the socket and leaves the table as it was. *)
Theorem inbound_connection_outcome conn input n :
  let result := handle_incoming_connection conn input n in
  let table := connections (client (world n)) in
  let table' := connections (client (world (snd result))) in
  fst result = Ok tt /\
  match input with
  | Read (Tracker.Decoded (JObj handshake)) =>
      let peer_id := get handshake "peer_id" JNull in
      if py_eq (get handshake "type" JNull) (JStr "handshake")
         && hashable peer_id then
        find peer_id table'
        = Some {| socket := conn;
                  remote_username := get handshake "username"
                                       (JStr "Unknown") |} /\
        (forall other, py_eq peer_id other = false ->
                       find other table' = find other table) /\
        listeners (snd result) = listeners n ++ [(peer_id, conn)] /\
        closed (snd result) = closed n
      else if py_eq (get handshake "type" JNull) (JStr "handshake") then
        snd result = closing conn n
      else snd result = n
  | _ => snd result = closing conn n
  end.
Proof.
  cbv zeta. rewrite handle_incoming_connection_run. split; [reflexivity|].
  destruct input as [|[| | |[| | | | |handshake]]]; try reflexivity.
  cbn [snd].
  destruct (py_eq _ _); [|reflexivity].
  destruct (hashable _) eqn:Hh; [|reflexivity]. cbn [andb].
  unfold registered, set_connections. cbn [world client connections closed
                                            listeners].
  repeat split; auto using find_update_same.
  intros other Hne. now apply find_update_other.
Qed.

(** *** Discovery *)

Lemma grown_by_nil n : grown_by [] n n.
Proof.
  unfold grown_by. cbn [map filter]. rewrite !app_nil_r.
  rewrite set_connections_same. repeat split; auto.
  exists []. now rewrite app_nil_r.
Qed.

Lemma grown_by_trans a1 a2 n n1 n2 :
  grown_by a1 n n1 -> grown_by a2 n1 n2 -> grown_by (a1 ++ a2) n n2.
Proof.
  intros (Hc1 & Hw1 & Ho1 & Hd1 & Hl1 & lines1 & Hn1 & Hf1)
         (Hc2 & Hw2 & Ho2 & Hd2 & Hl2 & lines2 & Hn2 & Hf2).
  unfold grown_by in *. unfold set_connections in *. cbn [client] in *.
  rewrite Hc2, Hw2, Ho2, Hd2, Hl2, Hc1, Hw1, Hl1. cbn.
  unfold handshake_message. cbn.
  rewrite !map_app, <- !app_assoc. repeat split; auto.
  exists (lines1 ++ lines2).
  now rewrite Hn2, Hn1, <- app_assoc, !filter_app, map_app, Hf1, Hf2.
Qed.

(** A line "Failed to connect", written or not, leaves the rest as it
    is. *)
Lemma grown_by_notify added n n1 peer_id :
  grown_by added n n1 ->
  grown_by added n (snd (notify (ConnectFailed peer_id) n1)).
Proof.
  intros Hg. rewrite notify_run.
  destruct (forallb printable _); [|exact Hg].
  destruct Hg as (Hc & Hw & Ho & Hd & Hl & lines & Hn & Hf).
  unfold grown_by, said. cbn [snd world closed listeners notices].
  repeat split; auto.
  exists (lines ++ [ConnectFailed peer_id]).
  rewrite Hn, <- app_assoc, filter_app. cbn [filter is_connected].
  now rewrite app_nil_r.
Qed.

(** One attempt: nothing is added, or the entry of a socket that took the
    handshake. *)
Lemma connect_to_peer_grows net fails pid ip port username n :
  find (JStr pid) (connections (client (world n))) = None ->
  exists added,
    grown_by added n
      (snd (connect_to_peer net fails (JStr pid) ip port username n)) /\
    (added = [] \/
     exists sock,
       fails sock = false /\
       added = [(JStr pid, {| socket := sock;
                              remote_username := username |})]).
Proof.
  intros Hf. rewrite connect_to_peer_run.
  destruct (net ip port) as [sock|].
  2: { exists []. split; [apply grown_by_notify, grown_by_nil | auto]. }
  destruct (fails sock) eqn:Efail.
  { exists []. split; [apply grown_by_notify, grown_by_nil | auto]. }
  cbv zeta. cbn [hashable].
  exists [(JStr pid, {| socket := sock; remote_username := username |})].
  split; [|right; exists sock; auto].
  destruct (forallb printable [username; JStr pid]) eqn:Ea.
  - unfold grown_by, said, registered, written, set_connections, announced.
    cbn [world client connections wire console closed listeners notices
         Peer.username Peer.peer_id channels running current_channel
         map filter fst snd socket remote_username].
    rewrite Ea. cbn [map fst snd remote_username].
    rewrite update_not_found by auto. repeat split; auto.
    now exists [Connected username (JStr pid)].
  - rewrite notify_run.
    destruct (forallb printable (notice_values _));
      unfold grown_by, said, registered, written, set_connections, announced;
      cbn [world client connections wire console closed listeners notices
           Peer.username Peer.peer_id channels running current_channel
           map filter fst snd socket remote_username];
      rewrite Ea; cbn [map]; rewrite update_not_found by auto;
      repeat split; auto.
    + now exists [ConnectFailed (JStr pid)].
    + exists []. now rewrite app_nil_r.
Qed.

Lemma grown_by_connections added n n' :
  grown_by added n n' ->
  connections (client (world n')) = connections (client (world n)) ++ added.
Proof. intros (Hc & _). now rewrite Hc. Qed.

Lemma grown_by_peer_id added n n' :
  grown_by added n n' ->
  peer_id (client (world n')) = peer_id (client (world n)).
Proof. intros (Hc & _). now rewrite Hc. Qed.

Lemma connect_each_grows net fails items : forall n,
  exists added,
    grown_by added n (snd (connect_each net fails items n)) /\
    Forall (fun item =>
              exists pid, fst item = JStr pid /\
                          pid <> peer_id (client (world n)) /\
                          In pid (map fst items) /\
                          find (JStr pid) (connections (client (world n)))
                          = None /\
                          fails (socket (snd item)) = false) added.
Proof.
  induction items as [|[pid info] items IH]; intros n.
  - exists []. split; [apply grown_by_nil | constructor].
  - assert (Hskip :
      exists added,
        grown_by added n (snd (connect_each net fails items n)) /\
        Forall (fun item =>
              exists pid0, fst item = JStr pid0 /\
                          pid0 <> peer_id (client (world n)) /\
                          In pid0 (map fst ((pid, info) :: items)) /\
                          find (JStr pid0) (connections (client (world n)))
                          = None /\
                          fails (socket (snd item)) = false) added).
    { destruct (IH n) as (added & Hg & Hall). exists added. split; auto.
      eapply Forall_impl; [|exact Hall].
      intros item (pid0 & H1 & H2 & H3 & H4). exists pid0.
      repeat split; try tauto. now right. }
    simpl connect_each.
    destruct (pid =? peer_id (client (world n))) eqn:Eself; [exact Hskip|].
    destruct (find (JStr pid) (connections (client (world n)))) eqn:Ef;
      [exact Hskip|].
    cbn [negb andb].
    destruct info as [| | | | |fields];
      try (exists []; split; [apply grown_by_nil | constructor]).
    destruct (assoc "ip" fields) as [ip|];
      [|exists []; split; [apply grown_by_nil | constructor]].
    destruct (assoc "port" fields) as [port|];
      [|exists []; split; [apply grown_by_nil | constructor]].
    destruct (connect_to_peer_grows net fails pid ip port
                (get fields "username" (JStr "Unknown")) n Ef)
      as (added1 & Hg1 & Hadd1).
    assert (Hfirst :
      Forall (fun item =>
              exists pid0, fst item = JStr pid0 /\
                          pid0 <> peer_id (client (world n)) /\
                          In pid0 (map fst ((pid, JObj fields) :: items)) /\
                          find (JStr pid0) (connections (client (world n)))
                          = None /\
                          fails (socket (snd item)) = false) added1).
    { destruct Hadd1 as [-> | (sock & Hok & ->)]; constructor; auto.
      exists pid. cbn [fst snd socket map].
      split; [reflexivity|]. split; [|split; [now left | auto]].
      intros Heq. rewrite Heq, String.eqb_refl in Eself. discriminate. }
    destruct (connect_to_peer net fails (JStr pid) ip port _ n)
      as [[[]|e] n1]; cbn [snd] in Hg1 |- *.
    + destruct (IH n1) as (added & Hg & Hall).
      exists (added1 ++ added). split.
      * apply (grown_by_trans added1 added n n1); auto.
      * apply Forall_app. split; [exact Hfirst|].
        eapply Forall_impl; [|exact Hall].
        intros item (pid0 & H1 & H2 & H3 & H4 & H5). exists pid0.
        rewrite (grown_by_peer_id _ _ _ Hg1) in H2.
        rewrite (grown_by_connections _ _ _ Hg1), find_app in H4.
        repeat split; auto.
        -- now right.
        -- destruct (find (JStr pid0) (connections (client (world n))));
             [discriminate | reflexivity].
    + exists added1. split; auto.
Qed.

(** X15.  Discovery only adds.  Whatever the answer of the tracker and
    whatever the network does, [connect_to_channel_peers] leaves every
    existing entry of the connection table where it was, never connects to
    the peer's own id, never connects again to a peer id already in the
    table, and every entry that it appends belongs to a peer whose socket
    accepted the handshake; one handshake is written and one listener
    started per added entry.  The lines "Connected to" printed are those
    of the added entries whose username and peer id can be written to the
    console: an entry whose line cannot be written is in the table all the
    same.  No chat line is printed and nothing is closed.  This also holds
    when the function ends with an exception. *)
Theorem discovery_only_adds net fails response n :
  exists added,
    grown_by added n (snd (connect_to_channel_peers net fails response n)) /\
    Forall (fun item =>
              exists pid, fst item = JStr pid /\
                          pid <> peer_id (client (world n)) /\
                          find (JStr pid) (connections (client (world n)))
                          = None /\
                          fails (socket (snd item)) = false) added.
Proof.
  unfold connect_to_channel_peers.
  destruct response as [| | | | |fields];
    try (exists []; split; [apply grown_by_nil | constructor]).
  destruct (py_eq _ _);
    [|exists []; split; [apply grown_by_nil | constructor]].
  destruct (get fields "peers" (JObj [])) as [| | | | |items];
    try (exists []; split; [apply grown_by_nil | constructor]).
  destruct (connect_each_grows net fails items n) as (added & Hg & Hall).
  exists added. split; auto.
  eapply Forall_impl; [|exact Hall].
  intros item (pid & H1 & H2 & H3 & H4 & H5). exists pid. auto.
Qed.

Lemma connect_each_keeps net fails items n k c :
  find k (connections (client (world n))) = Some c ->
  find k (connections (client (world (snd (connect_each net fails items n)))))
  = Some c.
Proof.
  intros Hf. destruct (connect_each_grows net fails items n) as (added & Hg & _).
  rewrite (grown_by_connections _ _ _ Hg), find_app. now rewrite Hf.
Qed.

(** The table after an attempt on an address that takes the connection and
    the handshake. *)
Lemma connect_to_peer_stores net fails pid ip port username n sock :
  net ip port = Some sock -> fails sock = false ->
  find (JStr pid)
    (connections
       (client (world (snd (connect_to_peer net fails (JStr pid) ip port
                              username n)))))
  = Some {| socket := sock; remote_username := username |}.
Proof.
  intros Hn Hf. rewrite connect_to_peer_run, Hn, Hf. cbv zeta.
  cbn [hashable].
  assert (Hreg : forall n0,
    find (JStr pid)
      (connections (client (world (registered (JStr pid) sock username n0))))
    = Some {| socket := sock; remote_username := username |}).
  { intros n0. unfold registered, set_connections.
    cbn [world client connections]. now apply find_update_same. }
  destruct (forallb printable _).
  - cbn [snd]. rewrite world_said. apply Hreg.
  - destruct (notify_frame (ConnectFailed (JStr pid))
                (registered (JStr pid) sock username
                   (written sock (handshake_message (client (world n))) n)))
      as (-> & _). apply Hreg.
Qed.

Lemma connect_to_peer_peer_id net fails peer_id ip port username n :
  Peer.peer_id
    (client (world (snd (connect_to_peer net fails peer_id ip port username
                           n))))
  = Peer.peer_id (client (world n)).
Proof.
  rewrite connect_to_peer_run.
  destruct (net ip port) as [sock|];
    [|now destruct (notify_frame (ConnectFailed peer_id) n) as (-> & _)].
  destruct (fails sock);
    [now destruct (notify_frame (ConnectFailed peer_id) n) as (-> & _)|].
  cbv zeta. destruct (hashable peer_id).
  - destruct (forallb printable _); [reflexivity|].
    now destruct (notify_frame (ConnectFailed peer_id)
                    (registered peer_id sock username
                       (written sock (handshake_message (client (world n)))
                          n))) as (-> & _).
  - now destruct (notify_frame (ConnectFailed peer_id)
                    (written sock (handshake_message (client (world n))) n))
      as (-> & _).
Qed.

Lemma connect_each_complete net fails items : forall n,
  Forall peer_info_complete (map snd items) ->
  Forall (fun item => printable (JStr (fst item)) = true) items ->
  fst (connect_each net fails items n) = Completed /\
  (forall pid fields ip port sock,
      In (pid, JObj fields) items ->
      pid <> peer_id (client (world n)) ->
      assoc "ip" fields = Some ip -> assoc "port" fields = Some port ->
      net ip port = Some sock -> fails sock = false ->
      find (JStr pid)
        (connections (client (world (snd (connect_each net fails items n)))))
      <> None).
Proof.
  induction items as [|[pid0 info] items IH]; intros n Hall Hprint.
  - split; [reflexivity | intros ? ? ? ? ? []].
  - inversion Hall as [|? ? Hinfo Hrest]; subst. cbn [snd] in Hinfo.
    inversion Hprint as [|? ? Hp0 Hprest]; subst. cbn [fst] in Hp0.
    destruct info as [| | | | |fields0]; try contradiction.
    destruct Hinfo as [Hip Hport].
    destruct (assoc "ip" fields0) as [ip0|] eqn:Eip; [|congruence].
    destruct (assoc "port" fields0) as [port0|] eqn:Eport; [|congruence].
    simpl connect_each. rewrite Eip, Eport.
    destruct (pid0 =? peer_id (client (world n))) eqn:Eself.
    { cbn [negb andb]. destruct (IH n Hrest Hprest) as [Hc Hfind].
      split; auto.
      intros pid fields ip port sock [Heq|Hin] Hne; [|eauto].
      injection Heq as <- <-. apply String.eqb_eq in Eself. contradiction. }
    destruct (find (JStr pid0) (connections (client (world n)))) as [c|]
      eqn:Ef.
    { cbn [negb andb]. destruct (IH n Hrest Hprest) as [Hc Hfind].
      split; auto.
      intros pid fields ip port sock [Heq|Hin] Hne; [|eauto].
      injection Heq as <- <-.
      intros _ _ _ _. now rewrite (connect_each_keeps _ _ _ _ _ _ Ef). }
    cbn [negb andb].
    pose proof (connect_to_peer_ok net fails (JStr pid0) ip0 port0
                  (get fields0 "username" (JStr "Unknown")) n Hp0) as Hok.
    pose proof (connect_to_peer_peer_id net fails (JStr pid0) ip0 port0
                  (get fields0 "username" (JStr "Unknown")) n) as Hid.
    pose proof (connect_to_peer_stores net fails pid0 ip0 port0
                  (get fields0 "username" (JStr "Unknown")) n) as Hstore.
    destruct (connect_to_peer net fails (JStr pid0) ip0 port0 _ n)
      as [[[]|e] n1]; cbn [fst snd] in Hok, Hid, Hstore; [|discriminate].
    destruct (IH n1 Hrest Hprest) as [Hc Hfind]. split; auto.
    intros pid fields ip port sock [Heq|Hin] Hne Hi Hp Hn Hf.
    + injection Heq as <- <-.
      assert (ip = ip0) by congruence. assert (port = port0) by congruence.
      subst ip port.
      now rewrite (connect_each_keeps _ _ _ _ _ _ (Hstore sock Hn Hf)).
    + apply (Hfind pid fields ip port sock); auto. now rewrite Hid.
Qed.

(** X16.  Discovery is complete on a well-formed answer.  When the tracker
    answers with success and a peers map whose values all carry an ip and a
    port and whose peer ids can all be written to the console,
    [connect_to_channel_peers] ends normally, and every offered peer other
    than the peer itself whose address accepts the connection and the
    handshake is in the connection table afterwards. *)
Theorem discovery_complete net fails fields items n :
  py_eq (get fields "status" JNull) (JStr "success") = true ->
  get fields "peers" (JObj []) = JObj items ->
  Forall peer_info_complete (map snd items) ->
  Forall (fun item => printable (JStr (fst item)) = true) items ->
  let result := connect_to_channel_peers net fails (JObj fields) n in
  fst result = Completed /\
  (forall pid info ip port sock,
      In (pid, JObj info) items ->
      pid <> peer_id (client (world n)) ->
      assoc "ip" info = Some ip -> assoc "port" info = Some port ->
      net ip port = Some sock -> fails sock = false ->
      find (JStr pid) (connections (client (world (snd result)))) <> None).
Proof.
  intros Hs Hp Hall Hprint result. subst result.
  unfold connect_to_channel_peers.
  rewrite Hs, Hp. now apply connect_each_complete.
Qed.

Lemma discovery_complete_witness :
  let fails := fun _ : Socket => false in
  let fields :=
    match offer_bob_erin with JObj fields => fields | _ => [] end in
  let items :=
    match get fields "peers" (JObj []) with JObj items => items | _ => [] end in
  let result := connect_to_channel_peers only_erin fails offer_bob_erin
                  alice_node in
  py_eq (get fields "status" JNull) (JStr "success") = true /\
  get fields "peers" (JObj []) = JObj items /\
  Forall peer_info_complete (map snd items) /\
  Forall (fun item => printable (JStr (fst item)) = true) items /\
  fst result = Completed /\
  find (JStr "e1") (connections (client (world (snd result)))) <> None.
Proof.
  intros fails fields items result.
  assert (Hall : Forall peer_info_complete (map snd items))
    by (repeat constructor; discriminate).
  assert (Hprint : Forall (fun item => printable (JStr (fst item)) = true)
                     items) by (repeat constructor).
  split; [reflexivity|]. split; [reflexivity|]. split; [exact Hall|].
  split; [exact Hprint|].
  destruct (discovery_complete only_erin fails fields items alice_node
              eq_refl eq_refl Hall Hprint) as [Hdone Hfound].
  split; [exact Hdone|].
  apply (Hfound "e1"
           [("ip", JStr "127.0.0.1"); ("port", JInt 9005);
            ("username", JStr "Erin")]
           (JStr "127.0.0.1") (JInt 9005) 7).
  - simpl. tauto.
  - discriminate.
  - reflexivity.
  - reflexivity.
  - reflexivity.
  - reflexivity.
Defined.

(** *** The connection table stays a dictionary *)

Lemma distinct_keys_filter {V} (f : json * V -> bool) (d : dict V) :
  distinct_keys d -> distinct_keys (filter f d).
Proof.
  induction d as [|[k v] d IH]; simpl; auto.
  intros (Hk & Hf & Hd). destruct (f (k, v)); simpl; auto.
  repeat split; auto.
  apply find_None. intros k' v' Hin. apply filter_In in Hin as [Hin _].
  rewrite find_None in Hf. eauto.
Qed.

Lemma connect_to_peer_valid net fails peer_id ip port username n :
  distinct_keys (connections (client (world n))) ->
  distinct_keys
    (connections (client (world (snd (connect_to_peer net fails peer_id ip
                                        port username n))))).
Proof.
  intros Hd. rewrite connect_to_peer_run.
  assert (Hn : forall n0,
    distinct_keys (connections (client (world n0))) ->
    distinct_keys
      (connections
         (client (world (snd (notify (ConnectFailed peer_id) n0)))))).
  { intros n0 H0.
    now destruct (notify_frame (ConnectFailed peer_id) n0) as (-> & _). }
  destruct (net ip port) as [sock|]; auto.
  destruct (fails sock); auto. cbv zeta.
  destruct (hashable peer_id) eqn:Hh; [|now apply Hn].
  assert (Hreg :
    distinct_keys
      (connections
         (client (world (registered peer_id sock username
                           (written sock
                              (handshake_message (client (world n))) n)))))).
  { unfold registered, written, set_connections.
    cbn [world client connections]. now apply distinct_keys_update. }
  destruct (forallb printable _); [exact Hreg | now apply Hn].
Qed.

Lemma connect_each_valid net fails items : forall n,
  distinct_keys (connections (client (world n))) ->
  distinct_keys
    (connections (client (world (snd (connect_each net fails items n))))).
Proof.
  induction items as [|[pid info] items IH]; intros n Hd;
    cbn [connect_each]; auto.
  destruct (negb _ && _); auto.
  destruct info as [| | | | |fields]; auto.
  destruct (assoc "ip" fields) as [ip|]; auto.
  destruct (assoc "port" fields) as [port|]; auto.
  pose proof (connect_to_peer_valid net fails (JStr pid) ip port
                (get fields "username" (JStr "Unknown")) n Hd) as Hv.
  destruct (connect_to_peer net fails (JStr pid) ip port _ n)
    as [[[]|e] n1]; cbn [snd] in Hv |- *; auto.
Qed.

Lemma connect_to_channel_peers_valid net fails response n :
  distinct_keys (connections (client (world n))) ->
  distinct_keys
    (connections
       (client (world (snd (connect_to_channel_peers net fails response
                              n))))).
Proof.
  intros Hd. unfold connect_to_channel_peers.
  destruct response as [| | | | |fields]; auto.
  destruct (py_eq _ _); auto.
  destruct (get fields "peers" (JObj [])); auto.
  now apply connect_each_valid.
Qed.

Lemma listen_to_peer_table peer_id sock inputs n :
  let table := connections (client (world n)) in
  let table' :=
    connections (client (world (snd (listen_to_peer peer_id sock inputs n)))) in
  table' = table \/ table' = remove_key peer_id table.
Proof.
  cbv zeta. unfold listen_to_peer, in_world.
  pose proof (listen_loop_frame peer_id inputs (world n)) as [Hc _].
  destruct (listen_loop peer_id inputs (world n)) as [r w'].
  cbn [snd] in Hc.
  assert (Hfinal :
    forall n0, world n0 = w' ->
    let out := (present <- in_world (connections_contains peer_id) ;;
                when present (in_world (connections_delitem peer_id)) ;;
                close sock ;; ret Left) n0 in
    connections (client (world (snd out)))
    = connections (client (world n)) \/
    connections (client (world (snd out)))
    = remove_key peer_id (connections (client (world n)))).
  { intros n0 Hw0.
    unfold bind, in_world, connections_contains, connections_delitem,
      contains, delitem, when, close, ret.
    rewrite Hw0. destruct (hashable peer_id) eqn:Hp;
      cbn [fst snd world closed listeners]; rewrite ?Hc; auto.
    destruct (find peer_id (connections (client (world n)))) eqn:Ef;
      cbn [fst snd world closed listeners]; rewrite ?Hp, ?Hc, ?Ef;
      cbn [fst snd world closed listeners]; rewrite ?Hc; auto. }
  destruct r as [[|]|e].
  - cbn [snd world]. rewrite Hc. auto.
  - apply (Hfinal {| world := w'; closed := closed n;
                     listeners := listeners n; notices := notices n |} eq_refl).
  - apply (Hfinal {| world := w'; closed := closed n;
                     listeners := listeners n; notices := notices n |} eq_refl).
Qed.

(** X17.  The connection table stays a Python dictionary: if its keys are
    hashable and pairwise different before, they are so after an inbound
    handshake, an outbound connection, the end of a listener, a broadcast
    by [send_message], a discovery round, a join and a stop, whatever the
    inputs and whatever fails. *)
Theorem connection_table_stays_valid n :
  distinct_keys (connections (client (world n))) ->
  (forall conn input,
      distinct_keys
        (connections
           (client (world (snd (handle_incoming_connection conn input n)))))) /\
  (forall net fails peer_id ip port username,
      distinct_keys
        (connections
           (client (world (snd (connect_to_peer net fails peer_id ip port
                                  username n)))))) /\
  (forall peer_id sock inputs,
      distinct_keys
        (connections
           (client (world (snd (listen_to_peer peer_id sock inputs n)))))) /\
  (forall fails channel content,
      distinct_keys
        (connections
           (client (snd (send_message fails channel content (world n)))))) /\
  (forall net fails name joined discovered,
      distinct_keys
        (connections
           (client (world (snd (join_channel net fails name joined
                                  discovered n)))))) /\
  distinct_keys (connections (client (world (stop n)))).
Proof.
  intros Hd. repeat split.
  - intros conn input. rewrite handle_incoming_connection_run. cbn [snd].
    destruct input as [|[| | |[| | | | |handshake]]]; auto.
    destruct (py_eq _ _); auto. destruct (hashable _) eqn:Hh; auto.
    unfold registered, set_connections. cbn [world client connections].
    now apply distinct_keys_update.
  - intros. now apply connect_to_peer_valid.
  - intros peer_id sock inputs.
    destruct (listen_to_peer_table peer_id sock inputs n) as [-> | ->];
      auto using distinct_keys_remove_key.
  - intros fails channel content.
    destruct (world n) as [[u pid table chs run cur] sent cons] eqn:Ew.
    cbn [client connections] in Hd.
    unfold send_message, bind, connections_items. cbn [client connections].
    rewrite (PeerSpec.send_loop fails _ u pid chs run cur cons table [] sent)
      by exact Hd.
    cbn [snd client connections app]. now apply distinct_keys_filter.
  - intros net fails name joined discovered. unfold join_channel.
    destruct joined as [| | | | |fields]; auto.
    rewrite !notify_run.
    destruct (py_eq _ _).
    + destruct (forallb printable _); [|exact Hd].
      now apply connect_to_channel_peers_valid.
    + now destruct (forallb printable _).
  - exact Hd.
Qed.

Lemma connection_table_stays_valid_witness :
  distinct_keys (connections (client (world alice_node))) /\
  distinct_keys
    (connections
       (client (world (snd (handle_incoming_connection 9
                             (Read (Tracker.Decoded
                                      (JObj [("type", JStr "handshake");
                                             ("peer_id", JStr "c1")])))
                             alice_node))))).
Proof.
  assert (Hd : distinct_keys (connections (client (world alice_node))))
    by (simpl; repeat split).
  split; [exact Hd|].
  exact (proj1 (connection_table_stays_valid alice_node Hd) 9 _).
Defined.

(** *** Joining a channel *)

Lemma existsb_eqb_In name l :
  existsb (String.eqb name) l = true <-> In name l.
Proof.
  rewrite existsb_exists. split.
  - intros (x & Hin & E). apply String.eqb_eq in E. now subst.
  - intros Hin. exists name. split; auto. apply String.eqb_refl.
Qed.

Lemma connect_to_channel_peers_grows net fails response n :
  exists added,
    grown_by added n (snd (connect_to_channel_peers net fails response n)).
Proof.
  unfold connect_to_channel_peers.
  destruct response as [| | | | |fields];
    try (exists []; apply grown_by_nil).
  destruct (py_eq _ _); [|exists []; apply grown_by_nil].
  destruct (get fields "peers" (JObj [])) as [| | | | |items];
    try (exists []; apply grown_by_nil).
  destruct (connect_each_grows net fails items n) as (added & Hg & _).
  now exists added.
Qed.

(** X18.  Joining a channel on the peer.  When the tracker refuses the join
    (any status other than "success", or none), the client is left as it
    was: the refusal is printed, or, when its message cannot be written to
    the console, the function raises.  When the tracker accepts the join,
    the channel becomes the current one and is in the list of joined
    channels, once: a list without repetition stays without repetition, so
    joining again only switches the current channel.  The channels joined
    before stay, and so does every connection.  All this holds whatever
    the print and the discovery that follow do, also when they end with an
    exception. *)
Theorem peer_join_channel net fails name fields discovered n :
  NoDup (channels (client (world n))) ->
  let c := client (world n) in
  let result := join_channel net fails name (JObj fields) discovered n in
  let c' := client (world (snd result)) in
  let message := get fields "message" JNull in
  if py_eq (get fields "status" JNull) (JStr "success") then
    current_channel c' = JStr name /\
    NoDup (channels c') /\
    (forall ch, In ch (channels c') <-> ch = name \/ In ch (channels c)) /\
    (exists added, connections c' = connections c ++ added) /\
    closed (snd result) = closed n
  else
    result = if printable message
             then (Completed, said (JoinFailed message) n)
             else (Raised (UnicodeEncodeError [message]), n).
Proof.
  intros Hnd c result c' message. subst result c' message.
  unfold join_channel. rewrite !notify_run.
  destruct (py_eq _ _).
  2: { cbn [notice_values forallb]. rewrite andb_true_r.
       now destruct (printable _). }
  match goal with |- context [closed (snd ?e)] => set (final := snd e) end.
  assert (Hkey :
    exists added,
      client (world final)
      = client (set_connections (connections c ++ added)
                  (world (enter_channel name n))) /\
      closed final = closed n).
  { subst final. destruct (forallb printable _).
    - destruct (connect_to_channel_peers_grows net fails discovered
                  (said (Joined name) (enter_channel name n)))
        as (added & Hc & _ & _ & Hcl & _).
      exists added. cbn [snd]. rewrite Hc, Hcl. split; reflexivity.
    - exists []. cbn [snd]. rewrite app_nil_r. split; reflexivity. }
  destruct Hkey as (added & -> & ->). clear final.
  unfold set_connections, enter_channel.
  cbn [world client connections channels current_channel closed username
       peer_id running].
  fold c. split; [reflexivity|].
  destruct (existsb (String.eqb name) (channels c)) eqn:E.
  - apply existsb_eqb_In in E. repeat split; eauto.
    + intros [->|H]; auto.
  - assert (Hnot : ~ In name (channels c)).
    { intros H. apply existsb_eqb_In in H. congruence. }
    repeat split; eauto.
    + apply NoDup_app; auto.
      * constructor; [intros []|constructor].
      * intros x Hx [<-|[]]. contradiction.
    + rewrite in_app_iff. simpl. intuition.
    + rewrite in_app_iff. simpl. intuition.
Qed.

Lemma peer_join_channel_witness :
  let result :=
    join_channel only_erin (fun _ => false) "general"
      (JObj [("status", JStr "success")]) offer_bob_erin alice_node in
  NoDup (channels (client (world alice_node))) /\
  channels (client (world (snd result))) = ["general"] /\
  current_channel (client (world (snd result))) = JStr "general".
Proof.
  assert (Hnd : NoDup (channels (client (world alice_node))))
    by (repeat constructor; simpl; tauto).
  split; [exact Hnd|]. split; [reflexivity|].
  exact (proj1 (peer_join_channel only_erin (fun _ => false) "general"
                  [("status", JStr "success")] offer_bob_erin alice_node
                  Hnd)).
Defined.

(** *** Stopping *)

Lemma listen_loop_stopped peer_id inputs w :
  running (client w) = false -> listen_loop peer_id inputs w = (Ok Left, w).
Proof. intros Hr. destruct inputs; simpl; now rewrite Hr. Qed.

Lemma set_connections_id w : set_connections (connections (client w)) w = w.
Proof. destruct w as [[u pid table chs run cur] sent cons]. reflexivity. Qed.

(** The [finally] block of [listen_to_peer]. *)
Lemma listener_finally peer_id sock n :
  hashable peer_id = true ->
  (present <- in_world (connections_contains peer_id) ;;
   when present (in_world (connections_delitem peer_id)) ;;
   close sock ;; ret Left) n
  = (Ok Left,
     closing sock
       {| world := set_connections
                     (remove_key peer_id (connections (client (world n))))
                     (world n);
          closed := closed n; listeners := listeners n;
          notices := notices n |}).
Proof.
  intros Hp.
  unfold bind, in_world, connections_contains, connections_delitem,
    contains, delitem, when, close, ret, closing.
  rewrite Hp. cbn [fst snd world closed listeners notices].
  destruct (find peer_id (connections (client (world n)))) eqn:Ef;
    cbn [fst snd world closed listeners notices]; rewrite ?Hp, ?Ef;
    cbn [fst snd world closed listeners notices].
  - reflexivity.
  - rewrite remove_key_not_found by auto. now rewrite set_connections_id.
Qed.

(** X19.  Stopping the peer.  [stop] clears the running flag and closes the
    socket of every connection, but takes no entry out of the table.  A
    listener that comes back to the head of its loop afterwards leaves at
    once, whatever is still to be read on its socket: nothing more is
    displayed or written, the entry under its peer id is taken out of the
    table and its own socket is closed (again, if [stop] closed it). *)
Theorem stop_ends_listener peer_id sock inputs n :
  hashable peer_id = true ->
  let table := connections (client (world n)) in
  let stopped := stop n in
  let result := listen_to_peer peer_id sock inputs stopped in
  connections (client (world stopped)) = table /\
  running (client (world stopped)) = false /\
  Forall (fun item => In (socket (snd item)) (closed stopped)) table /\
  fst result = Ok Left /\
  console (world (snd result)) = console (world n) /\
  wire (world (snd result)) = wire (world n) /\
  connections (client (world (snd result))) = remove_key peer_id table /\
  closed (snd result) = closed stopped ++ [sock].
Proof.
  intros Hp table stopped result.
  split; [reflexivity|]. split; [reflexivity|]. split.
  { apply Forall_forall. intros item Hin. unfold stopped, stop.
    cbn [closed]. apply in_or_app. right.
    now apply (in_map (fun item => socket (snd item))). }
  assert (E : in_world (listen_loop peer_id inputs) stopped
              = (Ok Left, stopped)).
  { unfold in_world. now rewrite listen_loop_stopped by reflexivity. }
  subst result. unfold listen_to_peer. rewrite E.
  rewrite listener_finally by exact Hp.
  repeat split.
Qed.

Lemma stop_ends_listener_witness :
  let result :=
    listen_to_peer (JStr "c1") 5
      [Read (Tracker.Decoded
               (JObj [("type", JStr "chat"); ("content", JStr "late")]))]
      (stop alice_node) in
  hashable (JStr "c1") = true /\
  fst result = Ok Left /\
  console (world (snd result)) = [] /\
  closed (snd result) = [4; 5; 6; 5].
Proof.
  split; [reflexivity|].
  destruct (stop_ends_listener (JStr "c1") 5
              [Read (Tracker.Decoded
                       (JObj [("type", JStr "chat");
                              ("content", JStr "late")]))]
              alice_node eq_refl)
    as (_ & _ & _ & Hres & Hcons & _ & _ & Hclosed).
  split; [exact Hres|]. split; [exact Hcons|]. exact Hclosed.
Defined.

(** *** From a handshake to the conversation *)

Lemma send_message_run fails channel content w :
  distinct_keys (connections (client w)) ->
  send_message fails channel content w
  = (Ok tt,
     {| client :=
          client (set_connections (delivered fails (connections (client w)))
                    w);
        wire := wire w
                ++ map (fun item =>
                          (socket (snd item),
                           chat_message (client w) channel content))
                     (delivered fails (connections (client w)));
        console := console w |}).
Proof.
  intros Hd. destruct w as [[u pid table chs run cur] sent cons].
  cbn [client connections] in Hd.
  unfold send_message, bind, connections_items. cbn [client connections].
  now rewrite (PeerSpec.send_loop fails _ u pid chs run cur cons table []
                 sent) by exact Hd.
Qed.




Lemma printable_py_eq a b :
  py_eq a b = true -> printable b = true -> printable a = true.
Proof.
  destruct a, b; simpl; try discriminate; auto.
  intros E. apply String.eqb_eq in E. now subst.
Qed.

(** X21.  What is sent is what is displayed.  Every payload that
    [send_message] writes, when it is what a running listener of the
    receiving peer reads and decodes, and when the sender's username, the
    channel and the content can be written to the console, as can the
    receiver's own username, is displayed there as a chat line with the
    sender's own username, the channel and the content that were given to
    [send_message], never under the peer id of the table or under the
    defaults; the prompt follows exactly when the channel is the receiver's
    current one.  The listener raises nothing and goes on waiting, and the
    receiver's client and wire are as before. *)
Theorem broadcast_is_displayed fails channel content sender to payload
    peer_id sock receiver :
  distinct_keys (connections (client sender)) ->
  In (to, payload)
     (skipn (length (wire sender))
        (wire (snd (send_message fails channel content sender)))) ->
  running (client (world receiver)) = true ->
  forallb printable [JStr (username (client sender)); channel; content]
  = true ->
  printable (JStr (username (client (world receiver)))) = true ->
  let result :=
    listen_to_peer peer_id sock [Read (Tracker.Decoded payload)] receiver in
  let me := client (world receiver) in
  fst result = Ok Waiting /\
  console (world (snd result))
  = console (world receiver)
    ++ ChatLine (JStr (username (client sender))) channel content
       :: (if py_eq (current_channel me) channel
           then [Prompt (username me) (current_channel me)] else []) /\
  client (world (snd result)) = me /\
  wire (world (snd result)) = wire (world receiver) /\
  closed (snd result) = closed receiver.
Proof.
  intros Hd Hin Hr Hline Hme result me. subst result me.
  rewrite send_message_run in Hin by exact Hd. cbn [snd wire] in Hin.
  rewrite skipn_app, skipn_all, Nat.sub_diag in Hin. cbn [skipn app] in Hin.
  apply in_map_iff in Hin as (item & Heq & _). injection Heq as _ <-.
  unfold listen_to_peer, in_world. cbn [listen_loop]. rewrite Hr.
  cbn [negb]. unfold bind, chat_message, handle_incoming_message.
  cbn [get assoc String.eqb Ascii.eqb Bool.eqb py_eq].
  unfold bind, print, when, ret, print_text. cbn [values_of].
  rewrite Hline. cbn [client wire console].
  destruct (py_eq (current_channel (client (world receiver))) channel)
    eqn:Ecur.
  - assert (Hcur : printable (current_channel (client (world receiver)))
                   = true).
    { apply (printable_py_eq _ channel Ecur).
      cbn [forallb] in Hline.
      apply andb_prop in Hline as [_ Hline].
      now apply andb_prop in Hline as [Hline _]. }
    cbn [forallb]. rewrite Hme, Hcur.
    cbn [andb fst snd client wire console listen_loop world closed].
    rewrite Hr. cbn [negb fst snd world closed client wire console].
    rewrite <- ?app_assoc. repeat split.
  - cbn [fst snd client wire console listen_loop world closed].
    rewrite Hr. cbn [negb fst snd world closed client wire console].
    repeat split.
Qed.

Lemma broadcast_is_displayed_witness :
  let bob_node :=
    {| world := {| client := {| username := "Bob"; peer_id := "b1";
                                connections := []; channels := ["general"];
                                running := true;
                                current_channel := JStr "random" |};
                   wire := []; console := [] |};
       closed := []; listeners := []; notices := [] |} in
  let payload := chat_message alice_client (JStr "general") (JStr "hi") in
  let result :=
    listen_to_peer (JStr "a1") 3 [Read (Tracker.Decoded payload)] bob_node in
  distinct_keys (connections (client alice_world)) /\
  In (4, payload)
     (skipn (length (wire alice_world))
        (wire (snd (send_message (fun _ => false) (JStr "general")
                      (JStr "hi") alice_world)))) /\
  running (client (world bob_node)) = true /\
  forallb printable [JStr "Alice"; JStr "general"; JStr "hi"] = true /\
  printable (JStr "Bob") = true /\
  console (world (snd result))
  = [ChatLine (JStr "Alice") (JStr "general") (JStr "hi")].
Proof.
  intros bob_node payload result.
  assert (Hd : distinct_keys (connections (client alice_world)))
    by (simpl; repeat split).
  assert (Hin : In (4, payload)
            (skipn (length (wire alice_world))
               (wire (snd (send_message (fun _ => false) (JStr "general")
                             (JStr "hi") alice_world)))))
    by (simpl; tauto).
  split; [exact Hd|]. split; [exact Hin|]. split; [reflexivity|].
  split; [reflexivity|]. split; [reflexivity|].
  exact (proj1 (proj2 (broadcast_is_displayed (fun _ => false)
                         (JStr "general") (JStr "hi") alice_world 4 payload
                         (JStr "a1") 3 bob_node Hd Hin eq_refl eq_refl
                         eq_refl))).
Defined.

End OverlaySpec.
